(** * NEORV32 UART driver (sw/lib/source/neorv32_uart.c)

    A shallow embedding of the driver's formatted-output engine, its numeric
    conversion helpers, the interactive line scanner and the baud-rate setup,
    together with the properties of these functions.

    Conventions.
    - C integers are [Z] with the wrap-around of their type written out
      ([uint32_t], [uint16_t], [int32_t], [char] are the casts).
    - A C array or a [char*] is a [list Z] of bytes; a pointer into an array
      is the list plus an offset.  Every access goes through [load] / [store],
      which fail (return [None]) outside the array: [None] stands for
      undefined behaviour or for a call that never returns.
    - The device is a record holding the values written to the control
      register, the bytes handed to the transmitter and the bytes still to be
      received. *)

From Stdlib Require Import ZArith Lia Ascii String.
From stdpp Require Import base option list.

Local Open Scope Z_scope.

(* ===================================================================== *)
(** * C scalar types *)
(* ===================================================================== *)

Definition uint32_t (z : Z) : Z := z mod 2^32.
Definition uint16_t (z : Z) : Z := z mod 2^16.
Definition int32_t (z : Z) : Z := (z + 2^31) mod 2^32 - 2^31.

(** Plain [char] holds one byte; the comparisons the driver makes on it give
    the same answer for a signed and for an unsigned [char]. *)
Definition char (z : Z) : Z := z mod 2^8.

(** The code of a character literal, ['a'] in C. *)
Definition chr (a : ascii) : Z := Z.of_N (N_of_ascii a).

(** The bytes of a string literal, without the terminator. *)
Definition bytes (s : string) : list Z := chr <$> list_ascii_of_string s.

(** A string literal as it lies in memory. *)
Definition literal (s : string) : list Z := bytes s ++ [0].

Definition NUL : Z := 0.
Definition BS : Z := 8.      (* '\b' *)
Definition LF : Z := 10.     (* '\n' *)
Definition CR : Z := 13.     (* '\r' *)

(* ===================================================================== *)
(** * Arrays *)
(* ===================================================================== *)

Definition load (a : list Z) (i : Z) : option Z :=
  if 0 <=? i then a !! Z.to_nat i else None.

Definition store (a : list Z) (i v : Z) : option (list Z) :=
  if (0 <=? i) && (i <? Z.of_nat (length a))
  then Some (<[Z.to_nat i := v]> a)
  else None.

(* ===================================================================== *)
(** * The device *)
(* ===================================================================== *)

(** [CTRL] lists the values written to the control register, oldest first;
    [TX] the bytes written to the data register; [RX] the bytes the receiver
    will deliver. *)
Record neorv32_uart_t := Uart {
  CTRL : list Z;
  TX : list Z;
  RX : list Z
}.

Definition write_CTRL (UARTx : neorv32_uart_t) (v : Z) : neorv32_uart_t :=
  {| CTRL := CTRL UARTx ++ [v]; TX := TX UARTx; RX := RX UARTx |}.

(** Bit positions of the control register.  They come from the enumeration
    NEORV32_UART_CTRL_enum of neorv32_uart.h, which the driver includes; the
    driver itself fixes none of them, so they are a parameter here and the
    properties of setup are proved for all positions that satisfy
    [ctrl_bits_ok] below. *)
Class UartCtrlBits := {
  UART_CTRL_EN : Z;
  UART_CTRL_PRSC0 : Z;
  UART_CTRL_BAUD0 : Z;
  UART_CTRL_IRQ_RX_NEMPTY : Z
}.

(** The positions the processor's header gives them: enable at bit 0, the
    prescaler select from bit 3, the baud divisor from bit 6, the interrupt
    enables from bit 22.  Used to evaluate setup on examples. *)
Definition neorv32_ctrl_bits : UartCtrlBits :=
  {| UART_CTRL_EN := 0;
     UART_CTRL_PRSC0 := 3;
     UART_CTRL_BAUD0 := 6;
     UART_CTRL_IRQ_RX_NEMPTY := 22 |}.

(** The transmitter drains its FIFO, so the wait for free space ends; the
    byte is then handed over. *)
Definition neorv32_uart_putc (UARTx : neorv32_uart_t) (c : Z) : neorv32_uart_t :=
  {| CTRL := CTRL UARTx; TX := TX UARTx ++ [c]; RX := RX UARTx |}.

(** Blocks until a byte arrives: with nothing left to receive the call never
    returns. *)
Definition neorv32_uart_getc (UARTx : neorv32_uart_t) : option (Z * neorv32_uart_t) :=
  match RX UARTx with
  | [] => None
  | d :: rx => Some (char d, {| CTRL := CTRL UARTx; TX := TX UARTx; RX := rx |})
  end.

(** [s] is the memory from the pointer on. *)
Fixpoint neorv32_uart_puts (UARTx : neorv32_uart_t) (s : list Z) : option neorv32_uart_t :=
  match s with
  | [] => None
  | c :: s =>
      if c =? NUL then Some UARTx
      else
        let UARTx := if c =? LF then neorv32_uart_putc UARTx CR else UARTx in
        neorv32_uart_puts (neorv32_uart_putc UARTx c) s
  end.

(* ===================================================================== *)
(** * Numeric conversion *)
(* ===================================================================== *)

Definition numbers : list Z := literal "0123456789".
Definition symbols : list Z := literal "0123456789abcdef".

(** for (i=0; i<10; i++) { buffer1[i] = numbers[x%10]; x /= 10; } *)
Fixpoint itoa_convert (fuel : nat) (i x : Z) (buffer1 : list Z) : option (list Z) :=
  if i <? 10 then
    match fuel with
    | O => None
    | S fuel =>
        c ← load numbers (x mod 10);
        buffer1 ← store buffer1 i c;
        itoa_convert fuel (uint16_t (i + 1)) (x / 10) buffer1
    end
  else Some buffer1.

(** for (i=9; i!=0; i--) { if (buffer1[i] == '0') buffer1[i] = '\0'; else break; } *)
Fixpoint itoa_strip (fuel : nat) (i : Z) (buffer1 : list Z) : option (Z * list Z) :=
  if negb (i =? 0) then
    match fuel with
    | O => None
    | S fuel =>
        c ← load buffer1 i;
        if c =? chr "0" then
          buffer1 ← store buffer1 i NUL;
          itoa_strip fuel (uint16_t (i - 1)) buffer1
        else Some (i, buffer1)
    end
  else Some (i, buffer1).

(** do { if (buffer1[i] != '\0') res[j++] = buffer1[i]; } while (i--); *)
Fixpoint itoa_reverse (fuel : nat) (i j : Z) (buffer1 res : list Z) : option (Z * list Z) :=
  match fuel with
  | O => None
  | S fuel =>
      c ← load buffer1 i;
      '(j, res) ← (if negb (c =? NUL)
                   then res ← store res j c; Some (uint16_t (j + 1), res)
                   else Some (j, res));
      if negb (i =? 0)
      then itoa_reverse fuel (uint16_t (i - 1)) j buffer1 res
      else Some (j, res)
  end.

(** [buffer1] is what the local array of that name holds on entry: the
    eleven bytes are indeterminate in C. *)
Definition __neorv32_uart_itoa (buffer1 : list Z) (x : Z) (res : list Z) : option (list Z) :=
  buffer1 ← store buffer1 10 NUL;
  res ← store res 10 NUL;
  buffer1 ← itoa_convert 10 0 x buffer1;
  '(i, buffer1) ← itoa_strip 9 9 buffer1;
  '(j, res) ← itoa_reverse 10 i 0 buffer1 res;
  store res j NUL.

(** for (i=0; i<8; i++) { num_tmp = x >> (4*i); res[7-i] = symbols[num_tmp & 0x0f]; } *)
Fixpoint tohex_loop (fuel : nat) (i x : Z) (res : list Z) : option (list Z) :=
  if i <? 8 then
    match fuel with
    | O => None
    | S fuel =>
        let num_tmp := Z.shiftr x (4 * i) in
        c ← load symbols (Z.land num_tmp 0x0f);
        res ← store res (7 - i) c;
        tohex_loop fuel (i + 1) x res
    end
  else Some res.

Definition __neorv32_uart_tohex (x : Z) (res : list Z) : option (list Z) :=
  res ← tohex_loop 8 0 x res;
  store res 8 NUL.

(** while (len > 0) { ...; ptr++; len--; } runs [len] times; [ptr] is the
    offset of the pointer in the array it points into. *)
Fixpoint touppercase_loop (len : nat) (ptr : Z) (mem : list Z) : option (list Z) :=
  match len with
  | O => Some mem
  | S len =>
      tmp ← load mem ptr;
      mem ← (if (chr "a" <=? tmp) && (tmp <=? chr "z")
             then store mem ptr (char (tmp - 32))
             else Some mem);
      touppercase_loop len (ptr + 1) mem
  end.

Definition __neorv32_uart_touppercase (len : Z) (ptr : list Z) : option (list Z) :=
  touppercase_loop (Z.to_nat len) 0 ptr.

(* ===================================================================== *)
(** * Formatted output *)
(* ===================================================================== *)

(** One variadic argument: a 32-bit word, or a pointer given as the memory
    it points to. *)
Inductive va_item :=
  | va_word (w : Z)
  | va_ptr (s : list Z).

Definition va_list := list va_item.

(** va_arg at an integer type; fetching what was not passed is undefined. *)
Definition va_arg_word (args : va_list) : option (Z * va_list) :=
  match args with
  | va_word w :: args => Some (w, args)
  | _ => None
  end.

(** va_arg at a pointer type. *)
Definition va_arg_ptr (args : va_list) : option (list Z * va_list) :=
  match args with
  | va_ptr s :: args => Some (s, args)
  | _ => None
  end.

(** What the loop of [neorv32_uart_vprintf] carries from one directive to
    the next, besides the format pointer. *)
Record vprintf_state := VState {
  v_uart : neorv32_uart_t;
  v_args : va_list;
  v_string_buf : list Z
}.

Section vprintf.

(** The junk in the frame of [__neorv32_uart_itoa]. *)
Variable buffer1 : list Z.

(** The body of switch (c). *)
Definition vprintf_directive (c : Z) (st : vprintf_state) : option vprintf_state :=
  let UARTx := v_uart st in
  let string_buf := v_string_buf st in
  if c =? chr "s" then
    '(s, args) ← va_arg_ptr (v_args st);
    UARTx ← neorv32_uart_puts UARTx s;
    Some (VState UARTx args string_buf)
  else if c =? chr "c" then
    '(w, args) ← va_arg_word (v_args st);
    Some (VState (neorv32_uart_putc UARTx (char (int32_t w))) args string_buf)
  else if (c =? chr "i") || (c =? chr "d") then
    '(w, args) ← va_arg_word (v_args st);
    let n := int32_t w in
    let '(n, UARTx) :=
      if n <? 0 then (int32_t (- n), neorv32_uart_putc UARTx (chr "-"))
      else (n, UARTx) in
    string_buf ← __neorv32_uart_itoa buffer1 (uint32_t n) string_buf;
    UARTx ← neorv32_uart_puts UARTx string_buf;
    Some (VState UARTx args string_buf)
  else if c =? chr "u" then
    '(w, args) ← va_arg_word (v_args st);
    string_buf ← __neorv32_uart_itoa buffer1 (uint32_t w) string_buf;
    UARTx ← neorv32_uart_puts UARTx string_buf;
    Some (VState UARTx args string_buf)
  else if (c =? chr "x") || (c =? chr "p") || (c =? chr "X") then
    '(w, args) ← va_arg_word (v_args st);
    string_buf ← __neorv32_uart_tohex (uint32_t w) string_buf;
    string_buf ← (if c =? chr "X"
                  then __neorv32_uart_touppercase 11 string_buf
                  else Some string_buf);
    UARTx ← neorv32_uart_puts UARTx string_buf;
    Some (VState UARTx args string_buf)
  else if c =? chr "%" then
    Some (VState (neorv32_uart_putc UARTx (chr "%")) (v_args st) string_buf)
  else
    Some (VState (neorv32_uart_putc (neorv32_uart_putc UARTx (chr "%")) c)
                 (v_args st) string_buf).

(** while ((c = *format++)) { ... }: [format] is the memory from the format
    pointer on; reading beyond it is out of bounds. *)
Fixpoint vprintf_loop (format : list Z) (st : vprintf_state) : option vprintf_state :=
  match format with
  | [] => None
  | c :: format =>
      if c =? NUL then Some st
      else if c =? chr "%" then
        match format with
        | [] => None
        | c :: format =>
            st ← vprintf_directive c st;
            vprintf_loop format st
        end
      else
        let UARTx := v_uart st in
        let UARTx := if c =? LF then neorv32_uart_putc UARTx CR else UARTx in
        vprintf_loop format
          (VState (neorv32_uart_putc UARTx c) (v_args st) (v_string_buf st))
  end.

(** [string_buf] is what the twelve bytes of the local array hold on
    entry. *)
Definition neorv32_uart_vprintf (string_buf : list Z) (UARTx : neorv32_uart_t)
    (format : list Z) (args : va_list) : option neorv32_uart_t :=
  v_uart <$> vprintf_loop format (VState UARTx args string_buf).

Definition neorv32_uart_printf (string_buf : list Z) (UARTx : neorv32_uart_t)
    (format : list Z) (args : va_list) : option neorv32_uart_t :=
  neorv32_uart_vprintf string_buf UARTx format args.

End vprintf.

(* ===================================================================== *)
(** * Line input *)
(* ===================================================================== *)

(** [s_mem] is the caller's array and [s_buffer] the offset of the pointer
    [buffer] in it. *)
Record scan_state := SState {
  s_uart : neorv32_uart_t;
  s_mem : list Z;
  s_buffer : Z;
  s_length : Z
}.

Section scan.

Variables max_size echo : Z.

(** One turn of while (1) on the received byte [c]: [inl] goes round
    again, [inr] is the break. *)
Definition scan_step (c : Z) (st : scan_state) : option (scan_state + scan_state) :=
  if c =? BS then
    if negb (s_length st =? 0) then
      UARTx ← (if negb (echo =? 0)
               then neorv32_uart_puts (s_uart st) (BS :: chr " " :: BS :: [NUL])
               else Some (s_uart st));
      Some (inl (SState UARTx (s_mem st) (s_buffer st - 1) (int32_t (s_length st - 1))))
    else Some (inl st)
  else if c =? CR then Some (inr st)
  else if (chr " " <=? c) && (c <=? chr "~")
          && (s_length st <? int32_t (max_size - 1)) then
    let UARTx := if negb (echo =? 0)
                 then neorv32_uart_putc (s_uart st) c
                 else s_uart st in
    mem ← store (s_mem st) (s_buffer st) c;
    Some (inl (SState UARTx mem (s_buffer st + 1) (int32_t (s_length st + 1))))
  else Some (inl st).

(** while (1) { c = neorv32_uart_getc(UARTx); ... }: every turn takes one
    byte from the receiver, so one turn more than there are bytes to receive
    is all the loop can make; without a carriage return among them it never
    ends. *)
Fixpoint scan_loop (fuel : nat) (st : scan_state) : option scan_state :=
  match fuel with
  | O => None
  | S fuel =>
      '(c, UARTx) ← neorv32_uart_getc (s_uart st);
      r ← scan_step c (SState UARTx (s_mem st) (s_buffer st) (s_length st));
      match r with
      | inl st => scan_loop fuel st
      | inr st => Some st
      end
  end.

(** Returns the length, the caller's array and the device. *)
Definition neorv32_uart_scan (UARTx : neorv32_uart_t) (buffer : list Z)
    : option (Z * list Z * neorv32_uart_t) :=
  st ← scan_loop (S (length (RX UARTx))) (SState UARTx buffer 0 0);
  mem ← store (s_mem st) (s_buffer st) NUL;
  Some (s_length st, mem, s_uart st).

End scan.

(* ===================================================================== *)
(** * Setup *)
(* ===================================================================== *)

(** [a << n] on uint32_t; shifting by the width or more is undefined. *)
Definition shl32 (a n : Z) : option Z :=
  if (0 <=? n) && (n <? 32) then Some (uint32_t (Z.shiftl a n)) else None.

(** [a / b] on uint32_t. *)
Definition udiv32 (a b : Z) : option Z :=
  if b =? 0 then None else Some (a / b).

(** while (baud_div >= 0x3ffU) { ...; prsc_sel++; } *)
Fixpoint baud_search (fuel : nat) (prsc_sel baud_div : Z) : option (Z * Z) :=
  if 0x3ff <=? baud_div then
    match fuel with
    | O => None
    | S fuel =>
        let baud_div :=
          if (prsc_sel =? 2) || (prsc_sel =? 4)
          then Z.shiftr baud_div 3
          else Z.shiftr baud_div 1 in
        baud_search fuel (uint32_t (prsc_sel + 1)) baud_div
    end
  else Some (prsc_sel, baud_div).

Section setup.

Context `{UartCtrlBits}.

(** The value of [tmp] that is written to the control register. *)
Definition setup_ctrl (prsc_sel baud_div irq_mask : Z) : option Z :=
  let tmp := 0 in
  en ← shl32 (Z.land 1 1) UART_CTRL_EN;
  let tmp := Z.lor tmp en in
  prsc ← shl32 (Z.land prsc_sel 3) UART_CTRL_PRSC0;
  let tmp := Z.lor tmp prsc in
  baud ← shl32 (Z.land (uint32_t (baud_div - 1)) 0x3ff) UART_CTRL_BAUD0;
  let tmp := Z.lor tmp baud in
  irq ← shl32 0x1f UART_CTRL_IRQ_RX_NEMPTY;
  let tmp := Z.lor tmp (Z.land irq_mask irq) in
  Some tmp.

(** [clock] is NEORV32_SYSINFO->CLK.  The division is the one of the
    regular build; neither simulation mode is compiled in (for the builds
    with a simulation mode see [neorv32_uart_setup_sim]). *)
Definition neorv32_uart_setup (clock : Z) (UARTx : neorv32_uart_t)
    (baudrate irq_mask : Z) : option neorv32_uart_t :=
  let prsc_sel := 0 in
  let UARTx := write_CTRL UARTx 0 in
  baud_div ← udiv32 clock (uint32_t (2 * baudrate));
  '(prsc_sel, baud_div) ← baud_search 32 prsc_sel baud_div;
  tmp ← setup_ctrl prsc_sel baud_div irq_mask;
  Some (write_CTRL UARTx tmp).

End setup.

(* ===================================================================== *)
(** * Reading the results back *)
(* ===================================================================== *)

(** The zero-terminated string at the start of [mem], without its
    terminator. *)
Fixpoint cstring (mem : list Z) : option (list Z) :=
  match mem with
  | [] => None
  | c :: mem => if c =? NUL then Some [] else (c ::.) <$> cstring mem
  end.

Definition decimal_digit (c : Z) : option Z :=
  if (chr "0" <=? c) && (c <=? chr "9") then Some (c - chr "0") else None.

Definition lower_hex_digit (c : Z) : option Z :=
  if (chr "0" <=? c) && (c <=? chr "9") then Some (c - chr "0")
  else if (chr "a" <=? c) && (c <=? chr "f") then Some (c - chr "a" + 10)
  else None.

Fixpoint parse_digits (digit : Z → option Z) (base acc : Z) (s : list Z) : option Z :=
  match s with
  | [] => Some acc
  | c :: s => d ← digit c; parse_digits digit base (base * acc + d) s
  end.

(** A non-empty run of decimal digits, read as a number. *)
Definition parse_decimal (s : list Z) : option Z :=
  match s with
  | [] => None
  | _ => parse_digits decimal_digit 10 0 s
  end.

(** A non-empty run of lowercase hexadecimal digits, read as a number. *)
Definition parse_hex (s : list Z) : option Z :=
  match s with
  | [] => None
  | _ => parse_digits lower_hex_digit 16 0 s
  end.

(** The ten decimal digits of [x] as characters, least significant first:
    what the first loop of [__neorv32_uart_itoa] leaves in [buffer1]. *)
Fixpoint decimal_lsb (n : nat) (x : Z) : list Z :=
  match n with
  | O => []
  | S n => (chr "0" + x mod 10) :: decimal_lsb n (x / 10)
  end.

(** Drops leading ['0'] characters, but never the last character. *)
Fixpoint skip_zeros (s : list Z) : list Z :=
  match s with
  | c :: (_ :: _) as s' => if c =? chr "0" then skip_zeros s' else s
  | _ => s
  end.

(** The string the decimal converter produces. *)
Definition decimal (x : Z) : list Z := skip_zeros (rev (decimal_lsb 10 x)).

Definition hex_symbol (d : Z) : Z :=
  if d <? 10 then chr "0" + d else chr "a" + (d - 10).

(** [n] hexadecimal digits of [x] as characters, least significant first. *)
Fixpoint hex_lsb (n : nat) (x : Z) : list Z :=
  match n with
  | O => []
  | S n => hex_symbol (Z.land x 0x0f) :: hex_lsb n (Z.shiftr x 4)
  end.

(** The string the hexadecimal converter produces. *)
Definition hex (x : Z) : list Z := rev (hex_lsb 8 x).

(** What the case fold does to one byte. *)
Definition upper (c : Z) : Z :=
  if (chr "a" <=? c) && (c <=? chr "z") then char (c - 32) else c.

(** The device after the bytes [l] went out. *)
Definition transmit (UARTx : neorv32_uart_t) (l : list Z) : neorv32_uart_t :=
  {| CTRL := CTRL UARTx; TX := TX UARTx ++ l; RX := RX UARTx |}.

(** A text with every line feed expanded to carriage return, line feed. *)
Fixpoint crlf (s : list Z) : list Z :=
  match s with
  | [] => []
  | c :: s => (if c =? LF then [CR; c] else [c]) ++ crlf s
  end.

(** The characters that select a case of the switch in
    [neorv32_uart_vprintf]. *)
Definition directive_chars : list Z := bytes "scidupxX%".

(** What [string_buf] holds after a decimal conversion, and after a
    hexadecimal one. *)
Definition after_itoa (x : Z) (sb : list Z) : list Z :=
  decimal x ++ NUL :: drop (S (length (decimal x))) (<[10%nat := NUL]> sb).

Definition after_tohex (x : Z) (sb : list Z) : list Z :=
  hex x ++ NUL :: drop 9 sb.

(** ** The line the scanner has accepted *)

Definition printable (c : Z) : bool := (chr " " <=? c) && (c <=? chr "~").

(** The characters accepted so far: what lies in the caller's array below
    the write position. *)
Definition accepted (st : scan_state) : list Z :=
  take (Z.to_nat (s_buffer st)) (s_mem st).

(** The effect of one received byte, other than a carriage return, on the
    accepted line. *)
Definition line_edit (max_size : Z) (acc : list Z) (c : Z) : list Z :=
  if c =? BS then removelast acc
  else if printable c && (Z.of_nat (length acc) <? max_size - 1) then acc ++ [c]
  else acc.

(** The state of the scanner's loop when [acc] is the accepted line and
    [buffer] the array the caller passed. *)
Definition scan_inv (max_size : Z) (buffer acc : list Z) (st : scan_state) : Prop :=
  s_buffer st = Z.of_nat (length acc)
  ∧ s_length st = Z.of_nat (length acc)
  ∧ Z.of_nat (length acc) <= max_size - 1
  ∧ take (length acc) (s_mem st) = acc
  ∧ length (s_mem st) = length buffer
  ∧ drop (Z.to_nat (max_size - 1)) (s_mem st)
    = drop (Z.to_nat (max_size - 1)) buffer.

(** The reading of the scanner's length bound that covers every capacity
    and every input: the returned length is at most [max_size - 1], and is
    [max_size - 1] when more printable characters than that precede the
    carriage return. *)
Definition scan_drops_excess (max_size : Z) (input buffer : list Z) : Prop :=
  ∀ len mem U',
    neorv32_uart_scan max_size 0 (Uart [] [] (input ++ [CR])) buffer
    = Some (len, mem, U') →
    len <= max_size - 1
    ∧ (max_size - 1 < Z.of_nat (length (filter printable input)) →
       len = max_size - 1).

(** ** The control register, field by field *)

(** The [w]-bit field of [v] that starts at bit [lo]. *)
Definition field (v lo w : Z) : Z := Z.land (Z.shiftr v lo) (Z.ones w).

(** The total right shift the search has applied when it stops at
    [prsc_sel]: the prescaler taps are 2, 4, 8, 64, 128, 1024, 2048, 4096. *)
Definition prsc_shift (prsc_sel : Z) : Z :=
  prsc_sel + (if 2 <? prsc_sel then 2 else 0) + (if 4 <? prsc_sel then 2 else 0).

(** The fields of the control register that setup writes lie in this order
    and do not overlap: enable, three bits of prescaler select, ten bits of
    baud divisor, five interrupt enables. *)
Definition ctrl_bits_ok `{UartCtrlBits} : Prop :=
  0 <= UART_CTRL_EN
  ∧ UART_CTRL_EN < UART_CTRL_PRSC0
  ∧ UART_CTRL_PRSC0 + 3 <= UART_CTRL_BAUD0
  ∧ UART_CTRL_BAUD0 + 10 <= UART_CTRL_IRQ_RX_NEMPTY
  ∧ UART_CTRL_IRQ_RX_NEMPTY + 5 <= 32.

(** The reading of the baud search that covers every clock and every baud
    rate: the pair found has a prescaler select of at most 7 and a divisor
    in [1, 1024). *)
Definition baud_pair_fits (clock baudrate : Z) : Prop :=
  ∃ prsc_sel baud_div,
    baud_search 32 0 (clock / uint32_t (2 * baudrate)) = Some (prsc_sel, baud_div)
    ∧ 0 <= prsc_sel <= 7 ∧ 1 <= baud_div < 1024.

(* ===================================================================== *)
(** * Further functions of the driver *)
(* ===================================================================== *)

(** [a << n] on int, for [a] not negative: undefined when the result does
    not fit. *)
Definition shl_int (a n : Z) : option Z :=
  if (0 <=? n) && (n <? 32) && (Z.shiftl a n <? 2^31)
  then Some (Z.shiftl a n)
  else None.

(** [~a] on uint32_t. *)
Definition not32 (a : Z) : Z := Z.lxor a 0xffffffff.

(** The bit positions the functions below need beyond those of setup, from
    the same header. *)
Class UartMoreBits := {
  UART_CTRL_HWFC_EN : Z;
  UART_DATA_RX_FIFO_SIZE_LSB : Z;
  UART_DATA_TX_FIFO_SIZE_LSB : Z
}.

(** The positions the processor's header gives them: flow control enable at
    bit 2 of the control register, the FIFO size fields from bits 8 and 12
    of the data register.  Used to evaluate the functions on examples. *)
Definition neorv32_more_bits : UartMoreBits :=
  {| UART_CTRL_HWFC_EN := 2;
     UART_DATA_RX_FIFO_SIZE_LSB := 8;
     UART_DATA_TX_FIFO_SIZE_LSB := 12 |}.

Section accessors.

Context `{UartCtrlBits} `{UartMoreBits}.

(** In the four read-modify-write functions [ctrl] is the value the control
    register reads as. *)

(** UARTx->CTRL |= ((uint32_t)(1 << UART_CTRL_EN)); *)
Definition neorv32_uart_enable (ctrl : Z) (UARTx : neorv32_uart_t)
    : option neorv32_uart_t :=
  m ← shl_int 1 UART_CTRL_EN;
  Some (write_CTRL UARTx (Z.lor ctrl (uint32_t m))).

(** UARTx->CTRL &= ~((uint32_t)(1 << UART_CTRL_EN)); *)
Definition neorv32_uart_disable (ctrl : Z) (UARTx : neorv32_uart_t)
    : option neorv32_uart_t :=
  m ← shl_int 1 UART_CTRL_EN;
  Some (write_CTRL UARTx (Z.land ctrl (not32 (uint32_t m)))).



(** In the two queries [data] is the value the data register reads as.
    tmp = (UARTx->DATA >> UART_DATA_RX_FIFO_SIZE_LSB) & 0x0f;
    return (int)(1 << tmp); *)
Definition neorv32_uart_get_rx_fifo_depth (data : Z) : option Z :=
  let tmp := Z.land (Z.shiftr data UART_DATA_RX_FIFO_SIZE_LSB) 0x0f in
  shl_int 1 tmp.

Definition neorv32_uart_get_tx_fifo_depth (data : Z) : option Z :=
  let tmp := Z.land (Z.shiftr data UART_DATA_TX_FIFO_SIZE_LSB) 0x0f in
  shl_int 1 tmp.

End accessors.

(* ===================================================================== *)
(** * Setup in a simulation build *)
(* ===================================================================== *)

(** What the two conditional blocks of setup need from the processor's
    headers: the position of the simulation mode bit and the base addresses
    of the two UARTs. *)
Class UartSimBits := {
  UART_CTRL_SIM_MODE : Z;
  NEORV32_UART0_BASE : Z;
  NEORV32_UART1_BASE : Z
}.

(** Simulation mode at bit 1, next to the enable bit, and two addresses.
    Used to evaluate setup on examples. *)
Definition neorv32_sim_bits : UartSimBits :=
  {| UART_CTRL_SIM_MODE := 1;
     NEORV32_UART0_BASE := 0xffffff50;
     NEORV32_UART1_BASE := 0xffffff60 |}.

Section setup_sim.

Context `{UartCtrlBits} `{UartSimBits}.

(** Setup with its two conditional blocks.  [UART0_SIM_MODE] and
    [UART1_SIM_MODE] say whether the build defines the macro of that name,
    and [UARTx_addr] is (uint32_t)UARTx, the address of the handle.  In a
    build that defines neither macro this is [neorv32_uart_setup]. *)
Definition neorv32_uart_setup_sim (UART0_SIM_MODE UART1_SIM_MODE : bool)
    (UARTx_addr clock : Z) (UARTx : neorv32_uart_t) (baudrate irq_mask : Z)
    : option neorv32_uart_t :=
  let prsc_sel := 0 in
  let UARTx := write_CTRL UARTx 0 in
  baud_div ← udiv32 clock (uint32_t (2 * baudrate));
  '(prsc_sel, baud_div) ← baud_search 32 prsc_sel baud_div;
  tmp ← setup_ctrl prsc_sel baud_div irq_mask;
  tmp ← (if UART0_SIM_MODE
         then if UARTx_addr =? NEORV32_UART0_BASE
              then sim ← shl32 1 UART_CTRL_SIM_MODE; Some (Z.lor tmp sim)
              else Some tmp
         else Some tmp);
  tmp ← (if UART1_SIM_MODE
         then if UARTx_addr =? NEORV32_UART1_BASE
              then sim ← shl32 1 UART_CTRL_SIM_MODE; Some (Z.lor tmp sim)
              else Some tmp
         else Some tmp);
  Some (write_CTRL UARTx tmp).

End setup_sim.

(* ===================================================================== *)
(** * What the format engine and the scanner send *)
(* ===================================================================== *)

(** The text of %d and %i for the argument word [w]. *)
Definition signed_decimal (w : Z) : list Z :=
  let n := int32_t w in
  if n <? 0 then chr "-" :: decimal (- n) else decimal n.

(** The expansion of one directive: the text of the directive [c] for the
    arguments [args], and the arguments that remain; [None] when the
    argument is missing or of the wrong kind, or the string of a %s has no
    terminator. *)
Definition directive_output (c : Z) (args : va_list) : option (list Z * va_list) :=
  if c =? chr "s" then
    '(s, args) ← va_arg_ptr args;
    t ← cstring s;
    Some (crlf t, args)
  else if c =? chr "c" then
    '(w, args) ← va_arg_word args;
    Some ([char w], args)
  else if (c =? chr "i") || (c =? chr "d") then
    '(w, args) ← va_arg_word args;
    Some (signed_decimal w, args)
  else if c =? chr "u" then
    '(w, args) ← va_arg_word args;
    Some (decimal (uint32_t w), args)
  else if (c =? chr "x") || (c =? chr "p") then
    '(w, args) ← va_arg_word args;
    Some (hex (uint32_t w), args)
  else if c =? chr "X" then
    '(w, args) ← va_arg_word args;
    Some (upper <$> hex (uint32_t w), args)
  else if c =? chr "%" then Some ([chr "%"], args)
  else Some ([chr "%"; c], args).

(** The expansion of a format string: what [neorv32_uart_vprintf] sends
    for the format memory [format] and the arguments [args]; [None] when
    the format memory ends before a terminator is read as a format
    character, or a directive has no expansion. *)
Fixpoint format_output (format : list Z) (args : va_list) : option (list Z) :=
  match format with
  | [] => None
  | c :: format =>
      if c =? NUL then Some []
      else if c =? chr "%" then
        match format with
        | [] => None
        | c :: format =>
            '(out, args) ← directive_output c args;
            (out ++.) <$> format_output format args
        end
      else
        ((if c =? LF then [CR; c] else [c]) ++.) <$> format_output format args
  end.

(** What the scanner echoes for one received byte other than a carriage
    return, [acc] being the line accepted before it. *)
Definition echo_step (max_size : Z) (acc : list Z) (c : Z) : list Z :=
  if c =? BS then
    match acc with
    | [] => []
    | _ => [BS; chr " "; BS]
    end
  else if printable c && (Z.of_nat (length acc) <? max_size - 1) then [c]
  else [].

(** What the scanner echoes for the bytes [input]. *)
Fixpoint scan_echo (max_size : Z) (acc input : list Z) : list Z :=
  match input with
  | [] => []
  | c :: input =>
      echo_step max_size acc c
        ++ scan_echo max_size (line_edit max_size acc c) input
  end.

(* ===================================================================== *)
(** * Arrays: basic facts *)
(* ===================================================================== *)

Lemma load_of_nat (a : list Z) (n : nat) : load a (Z.of_nat n) = a !! n.
Proof.
  unfold load. rewrite Nat2Z.id.
  destruct (Z.leb_spec 0 (Z.of_nat n)); [done | lia].
Qed.

Lemma store_of_nat (a : list Z) (n : nat) (v : Z) :
  (n < length a)%nat → store a (Z.of_nat n) v = Some (<[n := v]> a).
Proof.
  intros Hn. unfold store. rewrite Nat2Z.id.
  destruct (Z.leb_spec 0 (Z.of_nat n)); [| lia].
  destruct (Z.ltb_spec (Z.of_nat n) (Z.of_nat (length a))); [done | lia].
Qed.

Lemma store_out_of_bounds (a : list Z) (i v : Z) :
  i < 0 ∨ Z.of_nat (length a) <= i → store a i v = None.
Proof.
  intros Hi. unfold store.
  destruct (Z.leb_spec 0 i); [| done].
  destruct (Z.ltb_spec i (Z.of_nat (length a))); [lia | done].
Qed.

Lemma store_length (a b : list Z) (i v : Z) :
  store a i v = Some b → length b = length a.
Proof.
  unfold store. destruct (_ && _); [| done].
  intros [= <-]. apply length_insert.
Qed.

Lemma lookup_middle_len (l1 l2 : list Z) (c : Z) (n : nat) :
  n = length l1 → (l1 ++ c :: l2) !! n = Some c.
Proof. intros ->. apply list_lookup_middle. done. Qed.

Lemma insert_middle_len (l1 l2 : list Z) (c v : Z) (n : nat) :
  n = length l1 → <[n := v]> (l1 ++ c :: l2) = l1 ++ v :: l2.
Proof.
  intros ->. replace (length l1) with (length l1 + 0)%nat by lia.
  by rewrite insert_app_r.
Qed.

Lemma uint16_small (z : Z) : 0 <= z < 2^16 → uint16_t z = z.
Proof. intros. unfold uint16_t. by apply Z.mod_small. Qed.

Lemma uint32_small (z : Z) : 0 <= z < 2^32 → uint32_t z = z.
Proof. intros. unfold uint32_t. by apply Z.mod_small. Qed.

Lemma int32_small (z : Z) : - 2^31 <= z < 2^31 → int32_t z = z.
Proof. intros. unfold int32_t. rewrite Z.mod_small; lia. Qed.

(* ===================================================================== *)
(** * The decimal converter *)
(* ===================================================================== *)

Lemma load_numbers (d : Z) :
  0 <= d < 10 → load numbers d = Some (chr "0" + d).
Proof.
  intros Hd.
  assert (d = 0 ∨ d = 1 ∨ d = 2 ∨ d = 3 ∨ d = 4 ∨ d = 5 ∨ d = 6 ∨ d = 7
          ∨ d = 8 ∨ d = 9) as Hcases by lia.
  repeat (destruct Hcases as [-> | Hcases]; [reflexivity |]).
  by subst.
Qed.

Lemma itoa_convert_unfold (fuel : nat) (i x : Z) (buffer1 : list Z) :
  i < 10 →
  itoa_convert (S fuel) i x buffer1 =
    c ← load numbers (x mod 10);
    buffer1 ← store buffer1 i c;
    itoa_convert fuel (uint16_t (i + 1)) (x / 10) buffer1.
Proof.
  intros Hi. simpl. destruct (Z.ltb_spec i 10); [done | lia].
Qed.

Lemma itoa_convert_done (fuel : nat) (i x : Z) (buffer1 : list Z) :
  10 <= i → itoa_convert fuel i x buffer1 = Some buffer1.
Proof.
  intros Hi. destruct fuel; simpl; destruct (Z.ltb_spec i 10); done || lia.
Qed.

(** The first loop fills slots [k] to 9 with the digits of [x]. *)
Lemma itoa_convert_spec (n k : nat) (x : Z) (b : list Z) :
  (k + n = 10)%nat → length b = 11%nat →
  itoa_convert n (Z.of_nat k) x b
  = Some (take k b ++ decimal_lsb n x ++ drop 10 b).
Proof.
  revert k x b. induction n as [| n IH]; intros k x b Hk Hb.
  - rewrite itoa_convert_done by lia.
    replace k with 10%nat by lia. simpl. by rewrite take_drop.
  - rewrite itoa_convert_unfold by lia.
    rewrite load_numbers by (apply Z.mod_pos_bound; lia). simpl.
    rewrite store_of_nat by lia. simpl.
    rewrite uint16_small by lia.
    replace (Z.of_nat k + 1) with (Z.of_nat (S k)) by lia.
    rewrite IH by (rewrite ?length_insert; lia).
    f_equal.
    rewrite drop_insert_lt by lia.
    erewrite take_S_r by (apply list_lookup_insert_eq; lia).
    rewrite take_insert_ge by lia.
    by rewrite <- app_assoc.
Qed.

Lemma itoa_strip_zero (fuel : nat) (b : list Z) :
  itoa_strip fuel 0 b = Some (0, b).
Proof. by destruct fuel. Qed.

Lemma itoa_strip_unfold (fuel : nat) (i : Z) (b : list Z) :
  i ≠ 0 →
  itoa_strip (S fuel) i b =
    c ← load b i;
    if c =? chr "0" then
      b ← store b i NUL; itoa_strip fuel (uint16_t (i - 1)) b
    else Some (i, b).
Proof.
  intros Hi. simpl. destruct (Z.eqb_spec i 0); [lia | done].
Qed.

Lemma skip_zeros_cons (c : Z) (s : list Z) :
  s ≠ [] →
  skip_zeros (c :: s) = if c =? chr "0" then skip_zeros s else c :: s.
Proof. by destruct s. Qed.

Lemma skip_zeros_length (s : list Z) :
  (length (skip_zeros s) <= length s)%nat.
Proof.
  induction s as [| c s IH]; [done |].
  destruct s as [| c' s]; [done |].
  rewrite skip_zeros_cons by done.
  destruct (c =? chr "0"); simpl in *; lia.
Qed.

Lemma skip_zeros_nonempty (s : list Z) : s ≠ [] → skip_zeros s ≠ [].
Proof.
  induction s as [| c s IH]; [done |]. intros _.
  destruct s as [| c' s]; [done |].
  rewrite skip_zeros_cons by done.
  destruct (c =? chr "0"); [by apply IH | done].
Qed.

Lemma skip_zeros_Forall (P : Z → Prop) (s : list Z) :
  Forall P s → Forall P (skip_zeros s).
Proof.
  induction 1 as [| c s Hc Hs IH]; [done |].
  destruct s as [| c' s]; [by constructor |].
  rewrite skip_zeros_cons by done.
  destruct (c =? chr "0"); [done | by constructor].
Qed.

Lemma rev_cons_app (c : Z) (m suf : list Z) :
  rev (c :: m) ++ suf = rev m ++ c :: suf.
Proof. simpl. by rewrite <- app_assoc. Qed.

(** The second loop blanks the leading zeros: with the digits [m] given most
    significant first, it keeps [skip_zeros m]. *)
Lemma itoa_strip_spec (m suf : list Z) (fuel : nat) :
  m ≠ [] → (length m <= S fuel)%nat → Z.of_nat (length m) < 2^16 →
  itoa_strip fuel (Z.of_nat (length m) - 1) (rev m ++ suf)
  = Some (Z.of_nat (length (skip_zeros m)) - 1,
          rev (skip_zeros m)
            ++ replicate (length m - length (skip_zeros m)) NUL ++ suf).
Proof.
  revert suf fuel. induction m as [| c m IH]; [done |].
  intros suf fuel _ Hfuel Hlen.
  destruct m as [| c' m].
  { simpl. by rewrite itoa_strip_zero. }
  set (m' := c' :: m) in *.
  assert (m' ≠ []) as Hm' by done.
  assert (length m' ≠ 0%nat) as Hpos by done.
  clearbody m'.
  rewrite skip_zeros_cons by done.
  replace (length (c :: m')) with (S (length m')) in * by done.
  destruct fuel as [| fuel]; [lia |].
  replace (Z.of_nat (S (length m')) - 1) with (Z.of_nat (length m')) by lia.
  rewrite itoa_strip_unfold by lia.
  rewrite rev_cons_app.
  rewrite load_of_nat, lookup_middle_len by (by rewrite length_rev).
  simpl. destruct (c =? chr "0") eqn:Hc.
  - rewrite store_of_nat by (rewrite length_app, length_rev; simpl; lia).
    simpl. rewrite insert_middle_len by (by rewrite length_rev).
    rewrite uint16_small by lia.
    rewrite IH by (done || lia).
    pose proof (skip_zeros_length m').
    replace (S (length m') - length (skip_zeros m'))%nat
      with (S (length m' - length (skip_zeros m'))) by lia.
    rewrite replicate_S_end, <- !app_assoc. done.
  - rewrite Nat.sub_diag, rev_cons_app. simpl. f_equal. f_equal. lia.
Qed.

Lemma itoa_reverse_unfold (fuel : nat) (i j : Z) (b res : list Z) :
  itoa_reverse (S fuel) i j b res =
    c ← load b i;
    '(j, res) ← (if negb (c =? NUL)
                 then res ← store res j c; Some (uint16_t (j + 1), res)
                 else Some (j, res));
    if negb (i =? 0)
    then itoa_reverse fuel (uint16_t (i - 1)) j b res
    else Some (j, res).
Proof. done. Qed.

(** The third loop copies the kept digits [s] to [res], most significant
    first, from offset [j] on. *)
Lemma itoa_reverse_spec (s rest res : list Z) (j fuel : nat) :
  s ≠ [] → Forall (λ c, c ≠ NUL) s →
  (length s <= fuel)%nat → (j + length s <= length res)%nat →
  Z.of_nat (j + length s) < 2^16 →
  itoa_reverse fuel (Z.of_nat (length s) - 1) (Z.of_nat j) (rev s ++ rest) res
  = Some (Z.of_nat (j + length s),
          take j res ++ s ++ drop (j + length s) res).
Proof.
  revert rest res j fuel. induction s as [| c s IH]; [done |].
  intros rest res j fuel _ Hnz Hfuel Hres Hlen.
  apply Forall_cons in Hnz as [Hc Hnz].
  simpl length in *.
  destruct fuel as [| fuel]; [lia |].
  rewrite itoa_reverse_unfold.
  replace (Z.of_nat (S (length s)) - 1) with (Z.of_nat (length s)) by lia.
  rewrite rev_cons_app.
  rewrite load_of_nat, lookup_middle_len by (by rewrite length_rev).
  simpl. destruct (Z.eqb_spec c NUL) as [| _]; [done |]. simpl.
  rewrite store_of_nat by lia. simpl.
  rewrite (uint16_small (Z.of_nat j + 1)) by lia.
  assert (take (S j) (<[j:=c]> res) = take j res ++ [c]) as Htake.
  { erewrite take_S_r by (apply list_lookup_insert_eq; lia).
    by rewrite take_insert_ge by lia. }
  destruct s as [| c' s].
  - simpl. f_equal. f_equal; [lia |].
    replace (j + 1)%nat with (S j) by lia.
    rewrite <- (take_drop (S j) (<[j:=c]> res)) at 1.
    rewrite Htake, drop_insert_lt by lia. by rewrite <- app_assoc.
  - set (s' := c' :: s) in *.
    assert (length s' ≠ 0%nat) by done.
    assert (s' ≠ []) by done.
    clearbody s'.
    destruct (Z.eqb_spec (Z.of_nat (length s')) 0) as [| _]; [lia |]. simpl.
    rewrite uint16_small by lia.
    replace (Z.of_nat j + 1) with (Z.of_nat (S j)) by lia.
    rewrite IH by (rewrite ?length_insert; done || lia).
    f_equal. f_equal; [lia |].
    rewrite Htake, drop_insert_lt by lia.
    rewrite <- app_assoc. simpl.
    by replace (S (j + length s')) with (j + S (length s'))%nat by lia.
Qed.

Lemma decimal_lsb_length (n : nat) (x : Z) : length (decimal_lsb n x) = n.
Proof. revert x. induction n as [| n IH]; intros x; simpl; by rewrite ?IH. Qed.

Lemma decimal_lsb_digits (n : nat) (x : Z) :
  Forall (λ c, chr "0" <= c <= chr "9") (decimal_lsb n x).
Proof.
  revert x. induction n as [| n IH]; intros x; simpl; constructor; [| done].
  pose proof (Z.mod_pos_bound x 10). change (chr "0") with 48.
  change (chr "9") with 57. lia.
Qed.

Lemma decimal_digits (x : Z) :
  Forall (λ c, chr "0" <= c <= chr "9") (decimal x).
Proof.
  apply skip_zeros_Forall, Forall_rev, decimal_lsb_digits.
Qed.

Lemma decimal_length (x : Z) : (1 <= length (decimal x) <= 10)%nat.
Proof.
  unfold decimal. split.
  - assert (skip_zeros (rev (decimal_lsb 10 x)) ≠ []) as Hne.
    { apply skip_zeros_nonempty. intros Hnil.
      apply (f_equal length) in Hnil.
      by rewrite length_rev, decimal_lsb_length in Hnil. }
    destruct (skip_zeros _); [done | simpl; lia].
  - etrans; [apply skip_zeros_length |].
    by rewrite length_rev, decimal_lsb_length.
Qed.

(** The converter writes [decimal x] and a terminator to the start of
    [res], whatever [buffer1] and [res] held. *)
Lemma itoa_eq (buffer1 res : list Z) (x : Z) :
  length buffer1 = 11%nat → (11 <= length res)%nat →
  __neorv32_uart_itoa buffer1 x res
  = Some (decimal x ++ NUL :: drop (S (length (decimal x))) (<[10%nat := NUL]> res)).
Proof.
  intros Hb Hres. unfold __neorv32_uart_itoa.
  rewrite (store_of_nat buffer1 10), (store_of_nat res 10) by lia.
  cbn [mbind option_bind].
  rewrite (itoa_convert_spec 10 0) by (rewrite ?length_insert; done).
  cbn [mbind option_bind]. rewrite take_0, app_nil_l.
  assert (drop 10 (<[10%nat:=NUL]> buffer1) = [NUL]) as ->.
  { do 12 (destruct buffer1 as [| ? buffer1]; try done). }
  set (m := rev (decimal_lsb 10 x)).
  assert (length m = 10%nat) as Hm
    by (unfold m; by rewrite length_rev, decimal_lsb_length).
  replace (decimal_lsb 10 x) with (rev m) by apply rev_involutive.
  pose proof (itoa_strip_spec m [NUL] 9) as Hstrip.
  rewrite Hm in Hstrip. change (Z.of_nat 10 - 1) with 9 in Hstrip.
  rewrite Hstrip by (done || (by intros ->)).
  clear Hstrip. cbn [mbind option_bind].
  change (skip_zeros m) with (decimal x). pose proof (decimal_length x) as Hlen.
  set (res0 := <[10%nat:=NUL]> res).
  assert (length res0 = length res) as Hres0 by apply length_insert.
  rewrite (itoa_reverse_spec _ _ _ 0).
  - cbn [mbind option_bind Nat.add]. rewrite take_0, app_nil_l.
    rewrite store_of_nat by (rewrite length_app, length_drop; lia).
    f_equal.
    replace (length (decimal x)) with (length (decimal x) + 0)%nat at 1 by lia.
    rewrite insert_app_r.
    f_equal.
    destruct (drop (length (decimal x)) res0) as [| r0 rs] eqn:Hdrop.
    { apply (f_equal length) in Hdrop. rewrite length_drop in Hdrop.
      simpl in Hdrop. lia. }
    simpl. f_equal.
    replace (S (length (decimal x))) with (length (decimal x) + 1)%nat by lia.
    by rewrite <- drop_drop, Hdrop.
  - intros Hnil. rewrite Hnil in Hlen. simpl in Hlen. lia.
  - eapply Forall_impl; [apply decimal_digits |].
    intros c. change (chr "0") with 48. unfold NUL. lia.
  - lia.
  - simpl. lia.
  - simpl. lia.
Qed.

(** ** Reading a converted number back *)

Lemma cstring_app (s rest : list Z) :
  Forall (λ c, c ≠ NUL) s → cstring (s ++ NUL :: rest) = Some s.
Proof.
  induction 1 as [| c s Hc _ IH]; [done |].
  simpl. destruct (Z.eqb_spec c NUL); [done |]. by rewrite IH.
Qed.

Lemma parse_digits_app (digit : Z → option Z) (base acc : Z) (s1 s2 : list Z) :
  parse_digits digit base acc (s1 ++ s2)
  = a ← parse_digits digit base acc s1; parse_digits digit base a s2.
Proof.
  revert acc. induction s1 as [| c s1 IH]; intros acc; [done |].
  simpl. destruct (digit c); [apply IH | done].
Qed.

Lemma decimal_digit_chr (d : Z) :
  0 <= d < 10 → decimal_digit (chr "0" + d) = Some d.
Proof.
  intros Hd. unfold decimal_digit. change (chr "0") with 48.
  change (chr "9") with 57.
  destruct (Z.leb_spec 48 (48 + d)); [| lia].
  destruct (Z.leb_spec (48 + d) 57); [| lia].
  simpl. f_equal. lia.
Qed.

(** Read most significant digit first, the [n] low digits of [x] give
    [x mod 10^n]. *)
Lemma parse_decimal_lsb (n : nat) (acc x : Z) :
  parse_digits decimal_digit 10 acc (rev (decimal_lsb n x))
  = Some (10 ^ Z.of_nat n * acc + x mod 10 ^ Z.of_nat n).
Proof.
  revert acc x. induction n as [| n IH]; intros acc x.
  - simpl. rewrite Z.mod_1_r. f_equal. lia.
  - cbn [decimal_lsb rev]. rewrite parse_digits_app, IH.
    cbn [mbind option_bind parse_digits].
    rewrite decimal_digit_chr by (apply Z.mod_pos_bound; lia).
    cbn [mbind option_bind]. f_equal.
    rewrite Nat2Z.inj_succ, Z.pow_succ_r by lia.
    rewrite (Z.rem_mul_r x 10 (10 ^ Z.of_nat n)) by lia.
    lia.
Qed.

Lemma parse_skip_zeros (s : list Z) :
  parse_digits decimal_digit 10 0 (skip_zeros s)
  = parse_digits decimal_digit 10 0 s.
Proof.
  induction s as [| c s IH]; [done |].
  destruct s as [| c' s]; [done |].
  rewrite skip_zeros_cons by done.
  destruct (Z.eqb_spec c (chr "0")) as [-> | _]; [| done].
  by rewrite IH.
Qed.

Lemma skip_zeros_head (s : list Z) :
  head (skip_zeros s) = Some (chr "0") → skip_zeros s = [chr "0"].
Proof.
  induction s as [| c s IH]; [done |].
  destruct s as [| c' s]; [by intros [= ->] |].
  rewrite skip_zeros_cons by done.
  destruct (Z.eqb_spec c (chr "0")) as [| Hc]; [done |].
  by intros [= ?].
Qed.

Lemma parse_decimal_decimal (x : Z) :
  0 <= x < 10^10 → parse_decimal (decimal x) = Some x.
Proof.
  intros Hx. pose proof (decimal_length x) as Hlen.
  unfold parse_decimal. destruct (decimal x) eqn:Hd; [simpl in Hlen; lia |].
  rewrite <- Hd. unfold decimal.
  rewrite parse_skip_zeros, parse_decimal_lsb.
  f_equal. change (10 ^ Z.of_nat 10) with (10 ^ 10).
  rewrite Z.mod_small; lia.
Qed.

(** C1: applied to any unsigned 32-bit value [x], the decimal converter
    returns, and leaves in [res] a zero-terminated string [s] of decimal
    digits that parses back to [x], has no leading ['0'] unless it is exactly
    "0", has between one and ten digits, and is "0" when [x] is zero. *)
Theorem itoa_decimal_roundtrip (buffer1 res : list Z) (x : Z) :
  0 <= x < 2^32 → length buffer1 = 11%nat → (11 <= length res)%nat →
  ∃ res' s,
    __neorv32_uart_itoa buffer1 x res = Some res'
    ∧ cstring res' = Some s
    ∧ parse_decimal s = Some x
    ∧ (head s = Some (chr "0") → s = bytes "0")
    ∧ (1 <= length s <= 10)%nat
    ∧ Forall (λ c, chr "0" <= c <= chr "9") s
    ∧ (x = 0 → s = bytes "0").
Proof.
  intros Hx Hb Hres. eexists _, (decimal x).
  split; [by apply itoa_eq |].
  split.
  { apply cstring_app. eapply Forall_impl; [apply decimal_digits |].
    intros c. change (chr "0") with 48. unfold NUL. lia. }
  split; [apply parse_decimal_decimal; lia |].
  split; [apply skip_zeros_head |].
  split; [apply decimal_length |].
  split; [apply decimal_digits |].
  by intros ->.
Qed.

Lemma itoa_decimal_roundtrip_witness :
  ∃ res' s,
    __neorv32_uart_itoa (replicate 11 7) 4294967295 (replicate 12 9) = Some res'
    ∧ cstring res' = Some s
    ∧ parse_decimal s = Some 4294967295
    ∧ (head s = Some (chr "0") → s = bytes "0")
    ∧ (1 <= length s <= 10)%nat
    ∧ Forall (λ c, chr "0" <= c <= chr "9") s
    ∧ (4294967295 = 0 → s = bytes "0").
Proof.
  apply (itoa_decimal_roundtrip (replicate 11 7) (replicate 12 9) 4294967295);
    [lia | reflexivity | simpl; lia].
Defined.

(* ===================================================================== *)
(** * The hexadecimal converter *)
(* ===================================================================== *)

Lemma land_15_bound (y : Z) : 0 <= Z.land y 0x0f < 16.
Proof.
  change 0x0f with (Z.ones 4). rewrite Z.land_ones by lia.
  apply Z.mod_pos_bound. lia.
Qed.

Lemma load_symbols (d : Z) :
  0 <= d < 16 → load symbols d = Some (hex_symbol d).
Proof.
  intros Hd.
  assert (d = 0 ∨ d = 1 ∨ d = 2 ∨ d = 3 ∨ d = 4 ∨ d = 5 ∨ d = 6 ∨ d = 7
          ∨ d = 8 ∨ d = 9 ∨ d = 10 ∨ d = 11 ∨ d = 12 ∨ d = 13 ∨ d = 14
          ∨ d = 15) as Hcases by lia.
  repeat (destruct Hcases as [-> | Hcases]; [reflexivity |]).
  by subst.
Qed.

Lemma hex_symbol_lower (d : Z) :
  0 <= d < 16 →
  let c := hex_symbol d in
  chr "0" <= c <= chr "9" ∨ chr "a" <= c <= chr "f".
Proof.
  intros Hd. unfold hex_symbol. change (chr "0") with 48.
  change (chr "9") with 57. change (chr "a") with 97.
  change (chr "f") with 102. simpl.
  destruct (Z.ltb_spec d 10); lia.
Qed.

Lemma lower_hex_digit_symbol (d : Z) :
  0 <= d < 16 → lower_hex_digit (hex_symbol d) = Some d.
Proof.
  intros Hd. unfold lower_hex_digit, hex_symbol. change (chr "0") with 48.
  change (chr "9") with 57. change (chr "a") with 97.
  change (chr "f") with 102.
  destruct (Z.ltb_spec d 10).
  - destruct (Z.leb_spec 48 (48 + d)); [| lia].
    destruct (Z.leb_spec (48 + d) 57); [| lia]. simpl. f_equal. lia.
  - destruct (Z.leb_spec 48 (97 + (d - 10))); [| lia].
    destruct (Z.leb_spec (97 + (d - 10)) 57); [lia |].
    destruct (Z.leb_spec 97 (97 + (d - 10))); [| lia].
    destruct (Z.leb_spec (97 + (d - 10)) 102); [| lia]. simpl. f_equal. lia.
Qed.

Lemma tohex_loop_unfold (fuel : nat) (i x : Z) (res : list Z) :
  i < 8 →
  tohex_loop (S fuel) i x res =
    c ← load symbols (Z.land (Z.shiftr x (4 * i)) 0x0f);
    res ← store res (7 - i) c;
    tohex_loop fuel (i + 1) x res.
Proof.
  intros Hi. simpl. destruct (Z.ltb_spec i 8); [done | lia].
Qed.

Lemma tohex_loop_done (fuel : nat) (i x : Z) (res : list Z) :
  8 <= i → tohex_loop fuel i x res = Some res.
Proof.
  intros Hi. destruct fuel; simpl; destruct (Z.ltb_spec i 8); done || lia.
Qed.

(** With [n] turns to go the loop writes the [n] high nibbles to the first
    [n] slots, most significant first. *)
Lemma tohex_loop_spec (n k : nat) (x : Z) (res : list Z) :
  (k + n = 8)%nat → (n <= length res)%nat →
  tohex_loop n (Z.of_nat k) x res
  = Some (rev (hex_lsb n (Z.shiftr x (4 * Z.of_nat k))) ++ drop n res).
Proof.
  revert k res. induction n as [| n IH]; intros k res Hk Hres.
  - rewrite tohex_loop_done by lia. done.
  - rewrite tohex_loop_unfold by lia.
    rewrite load_symbols by apply land_15_bound.
    cbn [mbind option_bind].
    replace (7 - Z.of_nat k) with (Z.of_nat n) by lia.
    rewrite store_of_nat by lia. cbn [mbind option_bind].
    replace (Z.of_nat k + 1) with (Z.of_nat (S k)) by lia.
    rewrite IH by (rewrite ?length_insert; lia).
    f_equal. cbn [hex_lsb rev]. rewrite <- app_assoc.
    rewrite Z.shiftr_shiftr by lia.
    replace (4 * Z.of_nat k + 4) with (4 * Z.of_nat (S k)) by lia.
    f_equal.
    rewrite drop_insert_ge, Nat.sub_diag by lia.
    destruct (drop n res) as [| r rs] eqn:Hdrop.
    { apply (f_equal length) in Hdrop. rewrite length_drop in Hdrop.
      simpl in Hdrop. lia. }
    simpl. f_equal.
    replace (S n) with (n + 1)%nat by lia.
    by rewrite <- drop_drop, Hdrop.
Qed.

Lemma hex_lsb_length (n : nat) (x : Z) : length (hex_lsb n x) = n.
Proof. revert x. induction n as [| n IH]; intros x; simpl; by rewrite ?IH. Qed.

Lemma hex_lsb_lower (n : nat) (x : Z) :
  Forall (λ c, chr "0" <= c <= chr "9" ∨ chr "a" <= c <= chr "f") (hex_lsb n x).
Proof.
  revert x. induction n as [| n IH]; intros x; simpl; constructor; [| done].
  apply hex_symbol_lower, land_15_bound.
Qed.

(** The converter writes [hex x] and a terminator to the start of [res]. *)
Lemma tohex_eq (x : Z) (res : list Z) :
  (9 <= length res)%nat →
  __neorv32_uart_tohex x res = Some (hex x ++ NUL :: drop 9 res).
Proof.
  intros Hres. unfold __neorv32_uart_tohex.
  rewrite (tohex_loop_spec 8 0) by (done || lia).
  cbn [mbind option_bind]. change (4 * Z.of_nat 0) with 0.
  rewrite Z.shiftr_0_r. fold (hex x).
  assert (length (hex x) = 8%nat) as Hlen
    by (unfold hex; by rewrite length_rev, hex_lsb_length).
  rewrite (store_of_nat _ 8) by (rewrite length_app, length_drop; lia).
  f_equal. rewrite <- Hlen at 1.
  replace (length (hex x)) with (length (hex x) + 0)%nat at 1 by lia.
  rewrite insert_app_r. f_equal.
  destruct (drop 8 res) as [| r rs] eqn:Hdrop.
  { apply (f_equal length) in Hdrop. rewrite length_drop in Hdrop.
    simpl in Hdrop. lia. }
  simpl. f_equal. change 9%nat with (8 + 1)%nat.
  by rewrite <- drop_drop, Hdrop.
Qed.

Lemma parse_hex_lsb (n : nat) (acc x : Z) :
  parse_digits lower_hex_digit 16 acc (rev (hex_lsb n x))
  = Some (16 ^ Z.of_nat n * acc + x mod 16 ^ Z.of_nat n).
Proof.
  revert acc x. induction n as [| n IH]; intros acc x.
  - simpl. rewrite Z.mod_1_r. f_equal. lia.
  - cbn [hex_lsb rev]. rewrite parse_digits_app, IH.
    cbn [mbind option_bind parse_digits].
    rewrite lower_hex_digit_symbol by apply land_15_bound.
    cbn [mbind option_bind]. f_equal.
    rewrite Nat2Z.inj_succ, Z.pow_succ_r by lia.
    rewrite (Z.rem_mul_r x 16 (16 ^ Z.of_nat n)) by lia.
    change 0x0f with (Z.ones 4). rewrite Z.land_ones by lia.
    rewrite Z.shiftr_div_pow2 by lia. change (2 ^ 4) with 16.
    lia.
Qed.

(** The digits of [hex x], nibble 7 (bits 31..28) first. *)
Lemma hex_nibbles (x : Z) :
  hex x = (λ i, hex_symbol (Z.land (Z.shiftr x (4 * i)) 0x0f))
            <$> [7; 6; 5; 4; 3; 2; 1; 0].
Proof.
  unfold hex. cbn [hex_lsb rev app fmap list_fmap].
  rewrite !Z.shiftr_shiftr by lia. rewrite Z.shiftr_0_r. reflexivity.
Qed.

(** C2: applied to any unsigned 32-bit value [x], the hexadecimal converter
    returns, and leaves in [res] a zero-terminated string of exactly eight
    lowercase hexadecimal digits, the most significant nibble first,
    zero-padded, that parses back to [x]; for zero it is "00000000". *)
Theorem tohex_roundtrip (x : Z) (res : list Z) :
  0 <= x < 2^32 → (9 <= length res)%nat →
  ∃ res' s,
    __neorv32_uart_tohex x res = Some res'
    ∧ cstring res' = Some s
    ∧ length s = 8%nat
    ∧ Forall (λ c, chr "0" <= c <= chr "9" ∨ chr "a" <= c <= chr "f") s
    ∧ s = (λ i, hex_symbol (Z.land (Z.shiftr x (4 * i)) 0x0f))
            <$> [7; 6; 5; 4; 3; 2; 1; 0]
    ∧ parse_hex s = Some x
    ∧ (x = 0 → s = bytes "00000000").
Proof.
  intros Hx Hres. eexists _, (hex x).
  split; [by apply tohex_eq |].
  assert (Forall (λ c, chr "0" <= c <= chr "9" ∨ chr "a" <= c <= chr "f")
            (hex x)) as Hlower by apply Forall_rev, hex_lsb_lower.
  assert (length (hex x) = 8%nat) as Hlen
    by (unfold hex; by rewrite length_rev, hex_lsb_length).
  split.
  { apply cstring_app. eapply Forall_impl; [apply Hlower |].
    intros c. change (chr "0") with 48. change (chr "a") with 97.
    unfold NUL. lia. }
  split; [done |]. split; [done |].
  split; [apply hex_nibbles |].
  split.
  - unfold parse_hex. destruct (hex x) eqn:Hhex; [done |].
    rewrite <- Hhex. unfold hex. rewrite parse_hex_lsb.
    f_equal. change (16 ^ Z.of_nat 8) with (2 ^ 32).
    rewrite Z.mod_small; lia.
  - by intros ->.
Qed.

Lemma tohex_roundtrip_witness :
  ∃ res' s,
    __neorv32_uart_tohex 0xdeadbeef (replicate 12 9) = Some res'
    ∧ cstring res' = Some s
    ∧ length s = 8%nat
    ∧ Forall (λ c, chr "0" <= c <= chr "9" ∨ chr "a" <= c <= chr "f") s
    ∧ s = (λ i, hex_symbol (Z.land (Z.shiftr 0xdeadbeef (4 * i)) 0x0f))
            <$> [7; 6; 5; 4; 3; 2; 1; 0]
    ∧ parse_hex s = Some 0xdeadbeef
    ∧ (0xdeadbeef = 0 → s = bytes "00000000").
Proof.
  apply (tohex_roundtrip 0xdeadbeef (replicate 12 9)); [lia | simpl; lia].
Defined.

(* ===================================================================== *)
(** * The case fold *)
(* ===================================================================== *)

Lemma upper_lowercase (c : Z) :
  chr "a" <= c <= chr "z" → upper c = c - 32 ∧ chr "A" <= upper c <= chr "Z".
Proof.
  unfold upper, char. change (chr "a") with 97. change (chr "z") with 122.
  change (chr "A") with 65. change (chr "Z") with 90. intros Hc.
  destruct (Z.leb_spec 97 c); [| lia].
  destruct (Z.leb_spec c 122); [| lia]. simpl.
  rewrite Z.mod_small; lia.
Qed.

Lemma upper_other (c : Z) : ¬ (chr "a" <= c <= chr "z") → upper c = c.
Proof.
  unfold upper. intros Hc.
  destruct (Z.leb_spec (chr "a") c); [| done].
  destruct (Z.leb_spec c (chr "z")); [lia | done].
Qed.

Lemma upper_idemp (c : Z) : upper (upper c) = upper c.
Proof.
  destruct (decide (chr "a" <= c <= chr "z")) as [Hc | Hc].
  - apply upper_lowercase in Hc as [_ Hc]. apply upper_other.
    revert Hc. change (chr "a") with 97. change (chr "A") with 65.
    change (chr "Z") with 90. lia.
  - rewrite (upper_other c Hc). by apply upper_other.
Qed.

(** One turn of the loop stores [upper tmp], or leaves a byte that is its
    own [upper]. *)
Lemma touppercase_turn (mem : list Z) (k : nat) (tmp : Z) :
  mem !! k = Some tmp →
  (if (chr "a" <=? tmp) && (tmp <=? chr "z")
   then store mem (Z.of_nat k) (char (tmp - 32))
   else Some mem) = Some (<[k := upper tmp]> mem).
Proof.
  intros Hk. pose proof (lookup_lt_Some _ _ _ Hk).
  unfold upper. destruct (_ && _).
  - by apply store_of_nat.
  - by rewrite list_insert_id.
Qed.

Lemma touppercase_loop_spec (n k : nat) (mem : list Z) :
  (k + n <= length mem)%nat →
  touppercase_loop n (Z.of_nat k) mem
  = Some (take k mem ++ (upper <$> take n (drop k mem)) ++ drop (k + n) mem).
Proof.
  revert k mem. induction n as [| n IH]; intros k mem Hlen.
  - cbn [touppercase_loop]. rewrite Nat.add_0_r, take_0.
    cbn [fmap list_fmap app]. by rewrite take_drop.
  - cbn [touppercase_loop]. rewrite load_of_nat.
    destruct (mem !! k) as [tmp |] eqn:Hk;
      [| apply lookup_ge_None in Hk; lia].
    cbn [mbind option_bind]. rewrite (touppercase_turn _ _ _ Hk).
    cbn [mbind option_bind].
    replace (Z.of_nat k + 1) with (Z.of_nat (S k)) by lia.
    rewrite IH by (rewrite length_insert; lia). f_equal.
    erewrite take_S_r by (apply list_lookup_insert_eq; lia).
    rewrite take_insert_ge, !drop_insert_lt by lia.
    rewrite (drop_S _ _ _ Hk). cbn [take fmap list_fmap].
    rewrite <- app_assoc. simpl.
    by replace (S (k + n)) with (k + S n)%nat by lia.
Qed.

(** Running past the end of the array is an out-of-bounds read. *)
Lemma touppercase_loop_overrun (n k : nat) (mem : list Z) :
  (k <= length mem < k + n)%nat → touppercase_loop n (Z.of_nat k) mem = None.
Proof.
  revert k mem. induction n as [| n IH]; intros k mem Hlen; [lia |].
  cbn [touppercase_loop]. rewrite load_of_nat.
  destruct (mem !! k) as [tmp |] eqn:Hk; [| done].
  pose proof (lookup_lt_Some _ _ _ Hk).
  cbn [mbind option_bind]. rewrite (touppercase_turn _ _ _ Hk).
  cbn [mbind option_bind].
  replace (Z.of_nat k + 1) with (Z.of_nat (S k)) by lia.
  apply IH. rewrite length_insert. lia.
Qed.

Lemma touppercase_eq (len : Z) (s : list Z) :
  (Z.to_nat len <= length s)%nat →
  __neorv32_uart_touppercase len s
  = Some ((upper <$> take (Z.to_nat len) s) ++ drop (Z.to_nat len) s).
Proof.
  intros Hlen. unfold __neorv32_uart_touppercase.
  by rewrite (touppercase_loop_spec _ 0).
Qed.

(** C9: the case fold is idempotent for every byte string and every length
    bound (a bound beyond the array is an out-of-bounds read both times);
    within the bound it maps ['a'..'z'] to ['A'..'Z'] and leaves every other
    byte as it is, and it leaves the bytes beyond the bound alone. *)
Theorem touppercase_idempotent (len : Z) (s : list Z) :
  (s' ← __neorv32_uart_touppercase len s; __neorv32_uart_touppercase len s')
  = __neorv32_uart_touppercase len s
  ∧ ((Z.to_nat len <= length s)%nat →
     ∃ s', __neorv32_uart_touppercase len s = Some s'
       ∧ length s' = length s
       ∧ ∀ (i : nat) (c : Z), s !! i = Some c →
           (Z.of_nat i < len → chr "a" <= c <= chr "z" →
              s' !! i = Some (c - 32) ∧ chr "A" <= c - 32 <= chr "Z")
           ∧ (Z.of_nat i < len → ¬ (chr "a" <= c <= chr "z") →
              s' !! i = Some c)
           ∧ (len <= Z.of_nat i → s' !! i = Some c)).
Proof.
  set (n := Z.to_nat len).
  assert (∀ t : list Z, (n <= length t)%nat →
            length ((upper <$> take n t) ++ drop n t) = length t) as Hlength.
  { intros t Ht.
    rewrite length_app, length_fmap, length_take, length_drop. lia. }
  split.
  - destruct (decide (n <= length s)%nat) as [Hlen | Hlen].
    + rewrite touppercase_eq by done. cbn [mbind option_bind]. fold n.
      rewrite touppercase_eq by (fold n; by rewrite Hlength). fold n.
      f_equal.
      assert (length (upper <$> take n s) = n) as Hn
        by (rewrite length_fmap, length_take; lia).
      rewrite take_app_length', drop_app_length' by done.
      f_equal. rewrite <- list_fmap_compose.
      apply list_fmap_ext. intros _ c _. apply upper_idemp.
    + unfold __neorv32_uart_touppercase. fold n.
      by rewrite (touppercase_loop_overrun n 0) by (simpl; lia).
  - intros Hlen. eexists. split; [by apply touppercase_eq |]. fold n.
    split; [by apply Hlength |].
    intros i c Hi.
    assert (Z.of_nat i < len ↔ (i < n)%nat) as Hin by (unfold n; lia).
    split; [| split].
    + intros Hlt Hc. apply Hin in Hlt.
      destruct (upper_lowercase c Hc) as [<- Hupper]. split; [| done].
      rewrite lookup_app_l by (rewrite length_fmap, length_take; lia).
      by rewrite list_lookup_fmap, lookup_take_lt, Hi by done.
    + intros Hlt Hc. apply Hin in Hlt.
      rewrite lookup_app_l by (rewrite length_fmap, length_take; lia).
      rewrite list_lookup_fmap, lookup_take_lt, Hi by done.
      simpl. by rewrite upper_other.
    + intros Hge. assert (n <= i)%nat as Hni by (unfold n; lia).
      rewrite lookup_app_r by (rewrite length_fmap, length_take; lia).
      rewrite length_fmap, length_take, lookup_drop.
      rewrite <- Hi. f_equal. lia.
Qed.

Lemma touppercase_idempotent_witness :
  (s' ← __neorv32_uart_touppercase 11 (literal "deadbeef, Ok" );
   __neorv32_uart_touppercase 11 s')
  = __neorv32_uart_touppercase 11 (literal "deadbeef, Ok")
  ∧ ∃ s', __neorv32_uart_touppercase 11 (literal "deadbeef, Ok") = Some s'
       ∧ length s' = length (literal "deadbeef, Ok")
       ∧ ∀ (i : nat) (c : Z), literal "deadbeef, Ok" !! i = Some c →
           (Z.of_nat i < 11 → chr "a" <= c <= chr "z" →
              s' !! i = Some (c - 32) ∧ chr "A" <= c - 32 <= chr "Z")
           ∧ (Z.of_nat i < 11 → ¬ (chr "a" <= c <= chr "z") →
              s' !! i = Some c)
           ∧ (11 <= Z.of_nat i → s' !! i = Some c).
Proof.
  destruct (touppercase_idempotent 11 (literal "deadbeef, Ok")) as [H1 H2].
  split; [exact H1 | apply H2; simpl; lia].
Defined.

(* ===================================================================== *)
(** * Transmitting *)
(* ===================================================================== *)

Lemma putc_transmit (U : neorv32_uart_t) (c : Z) :
  neorv32_uart_putc U c = transmit U [c].
Proof. done. Qed.

Lemma transmit_nil (U : neorv32_uart_t) : transmit U [] = U.
Proof. destruct U. unfold transmit. simpl. by rewrite app_nil_r. Qed.

Lemma transmit_transmit (U : neorv32_uart_t) (l1 l2 : list Z) :
  transmit (transmit U l1) l2 = transmit U (l1 ++ l2).
Proof. unfold transmit. simpl. by rewrite app_assoc. Qed.

(** [neorv32_uart_puts] sends the string up to its terminator, line feeds
    expanded. *)
Lemma puts_cstring (s t : list Z) (U : neorv32_uart_t) :
  cstring s = Some t → neorv32_uart_puts U s = Some (transmit U (crlf t)).
Proof.
  revert t U. induction s as [| c s IH]; intros t U; [done |].
  simpl. destruct (Z.eqb_spec c NUL) as [| Hc].
  - intros [= <-]. by rewrite transmit_nil.
  - destruct (cstring s) as [t' |] eqn:Ht'; [| done].
    intros [= <-]. rewrite (IH t') by done. f_equal.
    rewrite !putc_transmit. cbn [crlf].
    destruct (c =? LF); by rewrite !transmit_transmit.
Qed.

Lemma crlf_no_LF (s : list Z) : Forall (λ c, c ≠ LF) s → crlf s = s.
Proof.
  induction 1 as [| c s Hc _ IH]; [done |].
  simpl. destruct (Z.eqb_spec c LF); [done |]. by rewrite IH.
Qed.

Lemma crlf_decimal (x : Z) : crlf (decimal x) = decimal x.
Proof.
  apply crlf_no_LF. eapply Forall_impl; [apply decimal_digits |].
  intros c. change (chr "0") with 48. unfold LF. lia.
Qed.

Lemma hex_lower (x : Z) :
  Forall (λ c, chr "0" <= c <= chr "9" ∨ chr "a" <= c <= chr "f") (hex x).
Proof. apply Forall_rev, hex_lsb_lower. Qed.

Lemma hex_length (x : Z) : length (hex x) = 8%nat.
Proof. unfold hex. by rewrite length_rev, hex_lsb_length. Qed.

Lemma crlf_hex (x : Z) : crlf (hex x) = hex x.
Proof.
  apply crlf_no_LF. eapply Forall_impl; [apply hex_lower |].
  intros c. change (chr "0") with 48. change (chr "a") with 97.
  unfold LF. lia.
Qed.

Lemma crlf_upper_hex (x : Z) : crlf (upper <$> hex x) = upper <$> hex x.
Proof.
  apply crlf_no_LF, Forall_fmap. eapply Forall_impl; [apply hex_lower |].
  intros c. simpl. unfold upper, char. change (chr "0") with 48.
  change (chr "9") with 57. change (chr "a") with 97.
  change (chr "f") with 102. change (chr "z") with 122. unfold LF.
  intros Hc. destruct (Z.leb_spec 97 c); destruct (Z.leb_spec c 122); simpl;
    rewrite ?Z.mod_small; lia.
Qed.

(* ===================================================================== *)
(** * The format engine, directive by directive *)
(* ===================================================================== *)

Section vprintf_facts.

Variable buffer1 : list Z.
Hypothesis buffer1_size : length buffer1 = 11%nat.

Lemma after_itoa_length (x : Z) (sb : list Z) :
  length sb = 12%nat → length (after_itoa x sb) = 12%nat.
Proof.
  intros Hsb. unfold after_itoa. pose proof (decimal_length x).
  rewrite length_app. simpl. rewrite length_drop, length_insert. lia.
Qed.

Lemma after_tohex_length (x : Z) (sb : list Z) :
  length sb = 12%nat → length (after_tohex x sb) = 12%nat.
Proof.
  intros Hsb. unfold after_tohex.
  rewrite length_app, hex_length. simpl. rewrite length_drop. lia.
Qed.

Lemma itoa_puts (U : neorv32_uart_t) (x : Z) (sb : list Z) :
  length sb = 12%nat →
  (string_buf ← __neorv32_uart_itoa buffer1 x sb;
   UARTx ← neorv32_uart_puts U string_buf;
   Some (UARTx, string_buf))
  = Some (transmit U (decimal x), after_itoa x sb).
Proof.
  intros Hsb. rewrite itoa_eq by (done || lia). cbn [mbind option_bind].
  fold (after_itoa x sb). unfold after_itoa at 1.
  erewrite puts_cstring; last first.
  { apply cstring_app. eapply Forall_impl; [apply decimal_digits |].
    intros c. change (chr "0") with 48. unfold NUL. lia. }
  cbn [mbind option_bind]. by rewrite crlf_decimal.
Qed.

(** %u *)
Lemma directive_unsigned (U : neorv32_uart_t) (w : Z) (args : va_list)
    (sb : list Z) :
  length sb = 12%nat →
  vprintf_directive buffer1 (chr "u") (VState U (va_word w :: args) sb)
  = Some (VState (transmit U (decimal (uint32_t w))) args
                 (after_itoa (uint32_t w) sb)).
Proof.
  intros Hsb.
  pose proof (itoa_puts U (uint32_t w) sb Hsb) as Hputs.
  change (vprintf_directive buffer1 (chr "u") (VState U (va_word w :: args) sb))
    with (string_buf ← __neorv32_uart_itoa buffer1 (uint32_t w) sb;
          UARTx ← neorv32_uart_puts U string_buf;
          Some (VState UARTx args string_buf)).
  destruct (__neorv32_uart_itoa buffer1 (uint32_t w) sb) as [sb' |];
    [| done].
  cbn [mbind option_bind] in *.
  destruct (neorv32_uart_puts U sb') as [U' |]; [| done].
  cbn [mbind option_bind] in *. by injection Hputs as -> ->.
Qed.

(** %d and %i *)
Lemma directive_signed (c : Z) (U : neorv32_uart_t) (w : Z) (args : va_list)
    (sb : list Z) :
  c = chr "d" ∨ c = chr "i" → length sb = 12%nat →
  vprintf_directive buffer1 c (VState U (va_word w :: args) sb)
  = if int32_t w <? 0
    then Some (VState (transmit U (chr "-" :: decimal (uint32_t (int32_t (- int32_t w)))))
                      args (after_itoa (uint32_t (int32_t (- int32_t w))) sb))
    else Some (VState (transmit U (decimal (uint32_t (int32_t w))))
                      args (after_itoa (uint32_t (int32_t w)) sb)).
Proof.
  intros Hc Hsb.
  assert (vprintf_directive buffer1 c (VState U (va_word w :: args) sb)
          = let n := int32_t w in
            let '(n, UARTx) :=
              if n <? 0
              then (int32_t (- n), neorv32_uart_putc U (chr "-"))
              else (n, U) in
            string_buf ← __neorv32_uart_itoa buffer1 (uint32_t n) sb;
            UARTx ← neorv32_uart_puts UARTx string_buf;
            Some (VState UARTx args string_buf)) as ->
    by (by destruct Hc as [-> | ->]).
  cbv zeta. destruct (int32_t w <? 0).
  - pose proof (itoa_puts (neorv32_uart_putc U (chr "-"))
                  (uint32_t (int32_t (- int32_t w))) sb Hsb) as Hputs.
    destruct (__neorv32_uart_itoa _ _ sb) as [sb' |]; [| done].
    cbn [mbind option_bind] in *.
    destruct (neorv32_uart_puts _ sb') as [U' |]; [| done].
    cbn [mbind option_bind] in *. injection Hputs as -> ->.
    by rewrite putc_transmit, transmit_transmit.
  - pose proof (itoa_puts U (uint32_t (int32_t w)) sb Hsb) as Hputs.
    destruct (__neorv32_uart_itoa _ _ sb) as [sb' |]; [| done].
    cbn [mbind option_bind] in *.
    destruct (neorv32_uart_puts _ sb') as [U' |]; [| done].
    cbn [mbind option_bind] in *. by injection Hputs as -> ->.
Qed.

(** %x and %p *)
Lemma directive_hex (c : Z) (U : neorv32_uart_t) (w : Z) (args : va_list)
    (sb : list Z) :
  c = chr "x" ∨ c = chr "p" → length sb = 12%nat →
  vprintf_directive buffer1 c (VState U (va_word w :: args) sb)
  = Some (VState (transmit U (hex (uint32_t w))) args
                 (after_tohex (uint32_t w) sb)).
Proof.
  intros Hc Hsb.
  assert (vprintf_directive buffer1 c (VState U (va_word w :: args) sb)
          = string_buf ← __neorv32_uart_tohex (uint32_t w) sb;
            UARTx ← neorv32_uart_puts U string_buf;
            Some (VState UARTx args string_buf)) as ->
    by (by destruct Hc as [-> | ->]).
  rewrite tohex_eq by lia. cbn [mbind option_bind].
  fold (after_tohex (uint32_t w) sb). unfold after_tohex at 1.
  erewrite puts_cstring; last first.
  { apply cstring_app. eapply Forall_impl; [apply hex_lower |].
    intros d. change (chr "0") with 48. change (chr "a") with 97.
    unfold NUL. lia. }
  cbn [mbind option_bind]. by rewrite crlf_hex.
Qed.

Lemma upper_hex_nonzero (x : Z) : Forall (λ c, c ≠ NUL) (upper <$> hex x).
Proof.
  apply Forall_fmap. eapply Forall_impl; [apply hex_lower |].
  intros c. simpl. unfold upper, char. change (chr "0") with 48.
  change (chr "9") with 57. change (chr "a") with 97.
  change (chr "f") with 102. change (chr "z") with 122. unfold NUL.
  intros Hc. destruct (Z.leb_spec 97 c); destruct (Z.leb_spec c 122); simpl;
    rewrite ?Z.mod_small; lia.
Qed.

(** %X *)
Lemma directive_upper_hex (U : neorv32_uart_t) (w : Z) (args : va_list)
    (sb : list Z) :
  length sb = 12%nat →
  ∃ sb', length sb' = 12%nat ∧
    vprintf_directive buffer1 (chr "X") (VState U (va_word w :: args) sb)
    = Some (VState (transmit U (upper <$> hex (uint32_t w))) args sb').
Proof.
  intros Hsb.
  change (vprintf_directive buffer1 (chr "X") (VState U (va_word w :: args) sb))
    with (string_buf ← __neorv32_uart_tohex (uint32_t w) sb;
          string_buf ← __neorv32_uart_touppercase 11 string_buf;
          UARTx ← neorv32_uart_puts U string_buf;
          Some (VState UARTx args string_buf)).
  rewrite tohex_eq by lia. cbn [mbind option_bind].
  fold (after_tohex (uint32_t w) sb).
  pose proof (after_tohex_length (uint32_t w) sb Hsb) as Hlen.
  rewrite touppercase_eq by (rewrite Hlen; simpl; lia).
  cbn [mbind option_bind]. change (Z.to_nat 11) with 11%nat.
  set (folded := (upper <$> take 11 (after_tohex (uint32_t w) sb))
                   ++ drop 11 (after_tohex (uint32_t w) sb)).
  assert (∃ rest, folded = (upper <$> hex (uint32_t w)) ++ NUL :: rest)
    as [rest Hfolded].
  { unfold folded, after_tohex.
    pose proof (hex_length (uint32_t w)) as Hhex.
    rewrite take_app_ge by lia. rewrite Hhex.
    change (11 - 8)%nat with 3%nat. cbn [take].
    rewrite fmap_app, <- app_assoc. cbn [fmap list_fmap].
    change (upper NUL) with NUL. rewrite <- app_comm_cons. eauto. }
  exists folded. split.
  { unfold folded.
    rewrite length_app, length_fmap, length_take, length_drop. lia. }
  rewrite Hfolded at 1.
  erewrite puts_cstring by apply cstring_app, upper_hex_nonzero.
  cbn [mbind option_bind]. by rewrite crlf_upper_hex.
Qed.

(** A character that selects no case is sent after the percent sign. *)
Lemma directive_unknown (c : Z) (st : vprintf_state) :
  c ∉ directive_chars →
  vprintf_directive buffer1 c st
  = Some (VState (transmit (v_uart st) [chr "%"; c]) (v_args st)
                 (v_string_buf st)).
Proof.
  intros Hc. unfold directive_chars in Hc. cbn [bytes fmap list_fmap
    list_ascii_of_string] in Hc.
  rewrite !not_elem_of_cons in Hc.
  destruct Hc as (Hs & Hch & Hi & Hd & Hu & Hp & Hx & HX & Hpc & _).
  unfold vprintf_directive.
  repeat match goal with
         | |- context [?a =? ?b] =>
             destruct (Z.eqb_spec a b); [done |]
         end.
  cbn [orb]. by rewrite !putc_transmit, transmit_transmit.
Qed.

(** ** The loop *)

Lemma vprintf_loop_directive (c : Z) (format : list Z) (st : vprintf_state) :
  vprintf_loop buffer1 (chr "%" :: c :: format) st
  = st ← vprintf_directive buffer1 c st; vprintf_loop buffer1 format st.
Proof. done. Qed.

Lemma vprintf_loop_char (c : Z) (format : list Z) (st : vprintf_state) :
  c ≠ NUL → c ≠ chr "%" →
  vprintf_loop buffer1 (c :: format) st
  = vprintf_loop buffer1 format
      (VState (transmit (v_uart st) (crlf [c])) (v_args st) (v_string_buf st)).
Proof.
  intros Hnul Hpc. cbn [vprintf_loop].
  destruct (Z.eqb_spec c NUL); [done |].
  destruct (Z.eqb_spec c (chr "%")); [done |].
  cbn [crlf]. rewrite !putc_transmit.
  destruct (c =? LF); by rewrite ?transmit_transmit.
Qed.

End vprintf_facts.

(* ===================================================================== *)
(** * The format engine: properties *)
(* ===================================================================== *)

Lemma int32_uint32 (n : Z) : - 2^31 <= n < 2^31 → int32_t (uint32_t n) = n.
Proof.
  intros Hn. unfold int32_t, uint32_t.
  rewrite Zplus_mod_idemp_l. rewrite Z.mod_small; lia.
Qed.

(** The magnitude of a negative [int32_t], as [n = -n] and the cast to
    [uint32_t] compute it on a two's-complement machine: the negation of
    the minimum wraps to itself and the cast gives 2^31. *)
Lemma negated_magnitude (n : Z) :
  - 2^31 <= n < 0 → uint32_t (int32_t (- n)) = - n.
Proof.
  intros Hn. unfold int32_t, uint32_t.
  destruct (decide (n = - 2^31)) as [-> | Hne]; [done |].
  rewrite (Z.mod_small (- n + 2^31)) by lia.
  rewrite Z.mod_small; lia.
Qed.

(** C4: for every negative signed 32-bit argument [n], the minimum
    included, %d and %i send a minus sign followed by the decimal
    representation of the magnitude [-n]: the string of the decimal
    converter, which reads back as [-n].  The negation is the one of the
    two's-complement target. *)
Theorem vprintf_signed_negative (buffer1 string_buf : list Z)
    (U : neorv32_uart_t) (c n : Z) (args : va_list) :
  length buffer1 = 11%nat → length string_buf = 12%nat →
  c = chr "d" ∨ c = chr "i" → - 2^31 <= n < 0 →
  (∃ sb',
     vprintf_directive buffer1 c
       (VState U (va_word (uint32_t n) :: args) string_buf)
     = Some (VState (transmit U (chr "-" :: decimal (- n))) args sb'))
  ∧ neorv32_uart_printf buffer1 string_buf U (chr "%" :: c :: [NUL])
      [va_word (uint32_t n)]
    = Some (transmit U (chr "-" :: decimal (- n)))
  ∧ (∃ res', __neorv32_uart_itoa buffer1 (- n) string_buf = Some res'
       ∧ cstring res' = Some (decimal (- n)))
  ∧ parse_decimal (decimal (- n)) = Some (- n).
Proof.
  intros Hb Hsb Hc Hn.
  assert (vprintf_directive buffer1 c
            (VState U (va_word (uint32_t n) :: args) string_buf)
          = Some (VState (transmit U (chr "-" :: decimal (- n))) args
                    (after_itoa (- n) string_buf))) as Hdir.
  { rewrite directive_signed by done.
    rewrite int32_uint32 by lia.
    destruct (Z.ltb_spec n 0); [| lia].
    by rewrite negated_magnitude by done. }
  split; [eauto |]. split; [| split].
  - unfold neorv32_uart_printf, neorv32_uart_vprintf.
    rewrite vprintf_loop_directive.
    destruct Hc as [-> | ->]; rewrite directive_signed by (done || auto);
      rewrite int32_uint32 by lia;
      (destruct (Z.ltb_spec n 0); [| lia]);
      by rewrite negated_magnitude by done.
  - eexists. split; [apply itoa_eq; done || lia |].
    apply cstring_app. eapply Forall_impl; [apply decimal_digits |].
    intros d. change (chr "0") with 48. unfold NUL. lia.
  - apply parse_decimal_decimal. lia.
Qed.

Lemma vprintf_signed_negative_witness :
  (∃ sb',
     vprintf_directive (replicate 11 7) (chr "d")
       (VState (Uart [] [] []) (va_word (uint32_t (-2147483648)) :: [])
          (replicate 12 9))
     = Some (VState (transmit (Uart [] [] [])
                       (chr "-" :: decimal (- -2147483648))) [] sb'))
  ∧ neorv32_uart_printf (replicate 11 7) (replicate 12 9) (Uart [] [] [])
      (chr "%" :: chr "d" :: [NUL]) [va_word (uint32_t (-2147483648))]
    = Some (transmit (Uart [] [] []) (chr "-" :: decimal (- -2147483648)))
  ∧ (∃ res', __neorv32_uart_itoa (replicate 11 7) (- -2147483648)
               (replicate 12 9) = Some res'
       ∧ cstring res' = Some (decimal (- -2147483648)))
  ∧ parse_decimal (decimal (- -2147483648)) = Some (- -2147483648).
Proof.
  apply (vprintf_signed_negative (replicate 11 7) (replicate 12 9)
           (Uart [] [] []) (chr "d") (-2147483648) []);
    [reflexivity | reflexivity | by left | lia].
Defined.

(** C10: when a lone percent sign ends the format string, the engine takes
    the terminator as the directive character, sends the percent sign and
    a NUL byte, and goes on scanning what lies behind the terminator; when
    the memory of the format string ends there, the next read is out of
    bounds. *)
Theorem vprintf_lone_percent (buffer1 string_buf : list Z)
    (U : neorv32_uart_t) (rest : list Z) (args : va_list) :
  neorv32_uart_vprintf buffer1 string_buf U (literal "%" ++ rest) args
  = neorv32_uart_vprintf buffer1 string_buf (transmit U [chr "%"; NUL])
      rest args
  ∧ neorv32_uart_vprintf buffer1 string_buf U (literal "%") args = None
  ∧ neorv32_uart_vprintf buffer1 string_buf U (literal "%" ++ literal "A") args
    = Some (transmit U [chr "%"; NUL; chr "A"]).
Proof.
  assert (∀ rest',
            neorv32_uart_vprintf buffer1 string_buf U (literal "%" ++ rest') args
            = neorv32_uart_vprintf buffer1 string_buf
                (transmit U [chr "%"; NUL]) rest' args) as Hstep.
  { intros rest'. unfold neorv32_uart_vprintf.
    change (literal "%" ++ rest') with (chr "%" :: NUL :: rest').
    rewrite vprintf_loop_directive, directive_unknown; [done |].
    unfold directive_chars. cbn [bytes fmap list_fmap list_ascii_of_string].
    rewrite !not_elem_of_cons. split_and!; try done.
    apply not_elem_of_nil. }
  split; [apply Hstep |]. split.
  - rewrite <- (app_nil_r (literal "%")), Hstep. done.
  - rewrite Hstep. unfold neorv32_uart_vprintf.
    change (literal "A") with (chr "A" :: [NUL]).
    rewrite vprintf_loop_char by done. cbn.
    by rewrite transmit_transmit.
Qed.

(* ===================================================================== *)
(** * The line scanner *)
(* ===================================================================== *)

Lemma puts_erase (U : neorv32_uart_t) :
  neorv32_uart_puts U (BS :: chr " " :: BS :: [NUL])
  = Some (transmit U [BS; chr " "; BS]).
Proof. by apply (puts_cstring _ [BS; chr " "; BS]). Qed.

Lemma removelast_take (l : list Z) : removelast l = take (length l - 1) l.
Proof.
  rewrite removelast_firstn_len. by replace (pred (length l)) with
    (length l - 1)%nat by lia.
Qed.

Section scan_facts.

Variables max_size echo : Z.
Hypothesis max_size_range : 1 <= max_size < 2^31.

Variable buffer : list Z.
Hypothesis buffer_size : max_size <= Z.of_nat (length buffer).

(** A backspace takes the last accepted character away, if there is one. *)
Lemma scan_step_backspace (acc : list Z) (st : scan_state) :
  scan_inv max_size buffer acc st →
  ∃ st', scan_step max_size echo BS st = Some (inl st')
    ∧ scan_inv max_size buffer (removelast acc) st'
    ∧ RX (s_uart st') = RX (s_uart st)
    ∧ CTRL (s_uart st') = CTRL (s_uart st)
    ∧ (echo = 0 ∨ acc = [] → s_uart st' = s_uart st).
Proof.
  intros (Hbuf & Hlen & Hcap & Htake & Hsize & Hdrop).
  unfold scan_step. rewrite Z.eqb_refl, Hlen.
  destruct acc as [| a acc _] using rev_ind.
  { simpl. eexists. split; [done |]. by split_and!. }
  rewrite length_app in *. simpl length in *.
  destruct (Z.eqb_spec (Z.of_nat (length acc + 1)) 0) as [| _]; [lia |].
  cbn [negb]. rewrite removelast_last.
  assert (∃ U', (if negb (echo =? 0)
                 then neorv32_uart_puts (s_uart st) (BS :: chr " " :: BS :: [NUL])
                 else Some (s_uart st)) = Some U'
                ∧ RX U' = RX (s_uart st) ∧ CTRL U' = CTRL (s_uart st)
                ∧ (echo = 0 → U' = s_uart st)) as (U' & -> & HRX & HCTRL & HTX).
  { destruct (Z.eqb_spec echo 0) as [-> | Hecho]; cbn [negb].
    - by eexists.
    - rewrite puts_erase. eexists. by split_and!. }
  cbn [mbind option_bind]. eexists. split; [done |].
  split; [| split_and!; try done].
  - unfold scan_inv. cbn [s_buffer s_length s_mem].
    rewrite int32_small by lia. split_and!; try done; try lia.
    apply (f_equal (take (length acc))) in Htake.
    rewrite take_take, take_app_length in Htake.
    by replace (length acc `min` (length acc + 1))%nat with (length acc)
      in Htake by lia.
  - intros [-> | Hnil]; [by apply HTX |]. by destruct acc.
Qed.

(** Any other byte but a carriage return is appended when it is printable
    and there is room, and dropped otherwise. *)
Lemma scan_step_other (acc : list Z) (st : scan_state) (c : Z) :
  c ≠ BS → c ≠ CR → scan_inv max_size buffer acc st →
  ∃ st', scan_step max_size echo c st = Some (inl st')
    ∧ scan_inv max_size buffer (line_edit max_size acc c) st'
    ∧ RX (s_uart st') = RX (s_uart st)
    ∧ CTRL (s_uart st') = CTRL (s_uart st)
    ∧ (echo = 0 → s_uart st' = s_uart st).
Proof.
  intros Hbs Hcr (Hbuf & Hlen & Hcap & Htake & Hsize & Hdrop).
  unfold scan_step, line_edit.
  destruct (Z.eqb_spec c BS) as [| _]; [done |].
  destruct (Z.eqb_spec c CR) as [| _]; [done |].
  rewrite int32_small, Hlen by lia. fold (printable c).
  destruct (printable c && (Z.of_nat (length acc) <? max_size - 1)) eqn:Hacc.
  - apply andb_true_iff in Hacc as [_ Hroom]. apply Z.ltb_lt in Hroom.
    rewrite Hbuf, store_of_nat by lia. cbn [mbind option_bind].
    eexists. split; [done |]. split; [| split_and!].
    + unfold scan_inv. cbn [s_buffer s_length s_mem].
      rewrite length_app. simpl length.
      rewrite int32_small by lia. split_and!; try lia.
      * replace (length acc + 1)%nat with (S (length acc)) by lia.
        erewrite take_S_r by (apply list_lookup_insert_eq; lia).
        by rewrite take_insert_ge, Htake by lia.
      * by rewrite length_insert.
      * by rewrite drop_insert_lt by lia.
    + cbn [s_uart]. by destruct (negb (echo =? 0)).
    + cbn [s_uart]. by destruct (negb (echo =? 0)).
    + intros ->. done.
  - exists st. split; [done |]. by split_and!.
Qed.

Lemma scan_step_edit (acc : list Z) (st : scan_state) (c : Z) :
  c ≠ CR → scan_inv max_size buffer acc st →
  ∃ st', scan_step max_size echo c st = Some (inl st')
    ∧ scan_inv max_size buffer (line_edit max_size acc c) st'
    ∧ RX (s_uart st') = RX (s_uart st)
    ∧ CTRL (s_uart st') = CTRL (s_uart st)
    ∧ (echo = 0 → s_uart st' = s_uart st).
Proof.
  intros Hcr Hinv. destruct (decide (c = BS)) as [-> | Hbs].
  - destruct (scan_step_backspace acc st Hinv)
      as (st' & Hstep & Hinv' & HRX & HCTRL & HU).
    exists st'. unfold line_edit. rewrite Z.eqb_refl. split_and!; auto.
  - by apply scan_step_other.
Qed.

Lemma scan_inv_uart (acc : list Z) (st : scan_state) (U : neorv32_uart_t) :
  scan_inv max_size buffer acc st →
  scan_inv max_size buffer acc
    (SState U (s_mem st) (s_buffer st) (s_length st)).
Proof. done. Qed.

(** The loop folds [line_edit] over the bytes before the first carriage
    return, and stops there. *)
Lemma scan_loop_spec (pre post acc : list Z) (st : scan_state) (fuel : nat) :
  RX (s_uart st) = pre ++ CR :: post →
  Forall (λ d, char d ≠ CR) pre →
  (length pre < fuel)%nat →
  scan_inv max_size buffer acc st →
  ∃ st', scan_loop max_size echo fuel st = Some st'
    ∧ scan_inv max_size buffer
        (fold_left (line_edit max_size) (char <$> pre) acc) st'
    ∧ RX (s_uart st') = post
    ∧ CTRL (s_uart st') = CTRL (s_uart st)
    ∧ (echo = 0 → TX (s_uart st') = TX (s_uart st)).
Proof.
  revert acc st fuel.
  induction pre as [| d pre IH]; intros acc st fuel HRX Hpre Hfuel Hinv;
    (destruct fuel as [| fuel]; [simpl in Hfuel; lia |]);
    cbn [scan_loop]; unfold neorv32_uart_getc; rewrite HRX;
    cbn [app mbind option_bind].
  - change (char CR) with CR. unfold scan_step.
    change (CR =? BS) with false. rewrite Z.eqb_refl.
    cbn [mbind option_bind]. eexists. split; [done |].
    by split_and!.
  - apply Forall_cons in Hpre as [Hd Hpre].
    set (U1 := {| CTRL := CTRL (s_uart st); TX := TX (s_uart st);
                  RX := pre ++ CR :: post |}).
    destruct (scan_step_edit acc
                (SState U1 (s_mem st) (s_buffer st) (s_length st)) (char d))
      as (st2 & -> & Hinv2 & HRX2 & HCTRL2 & HU2); [done | done |].
    cbn [mbind option_bind].
    destruct (IH (line_edit max_size acc (char d)) st2 fuel)
      as (st' & -> & Hinv' & HRX' & HCTRL' & HTX');
      [done | done | simpl in Hfuel; lia | done |].
    exists st'. split; [done |]. split_and!; try done.
    + by rewrite HCTRL', HCTRL2.
    + intros Hecho. by rewrite HTX', HU2.
Qed.

(** The scanner returns at the first carriage return, with the edited
    line in the array and a terminator behind it. *)
Lemma scan_eq (U : neorv32_uart_t) (pre post : list Z) :
  RX U = pre ++ CR :: post →
  Forall (λ d, char d ≠ CR) pre →
  let acc := fold_left (line_edit max_size) (char <$> pre) [] in
  ∃ mem U',
    neorv32_uart_scan max_size echo U buffer
    = Some (Z.of_nat (length acc), mem, U')
    ∧ Z.of_nat (length acc) <= max_size - 1
    ∧ take (length acc) mem = acc
    ∧ mem !! length acc = Some NUL
    ∧ length mem = length buffer
    ∧ drop (Z.to_nat max_size) mem = drop (Z.to_nat max_size) buffer
    ∧ RX U' = post ∧ CTRL U' = CTRL U
    ∧ (echo = 0 → TX U' = TX U).
Proof.
  intros HRX Hpre acc. unfold neorv32_uart_scan.
  destruct (scan_loop_spec pre post [] (SState U buffer 0 0)
              (S (length (RX U))))
    as (st & -> & Hinv & HRX' & HCTRL & HTX); try done.
  { rewrite HRX, length_app. simpl. lia. }
  { unfold scan_inv. simpl. split_and!; try done. lia. }
  fold acc in Hinv. destruct Hinv as (Hbuf & Hlen & Hcap & Htake & Hsize & Hdrop).
  cbn [mbind option_bind]. rewrite Hbuf, store_of_nat by lia.
  cbn [mbind option_bind]. rewrite Hlen. eexists _, _. split; [done |].
  split_and!; try done.
  - by rewrite take_insert_ge by lia.
  - apply list_lookup_insert_eq. lia.
  - by rewrite length_insert.
  - apply (f_equal (drop 1)) in Hdrop. rewrite !drop_drop in Hdrop.
    replace (Z.to_nat (max_size - 1) + 1)%nat with (Z.to_nat max_size)
      in Hdrop by lia.
    by rewrite drop_insert_lt by lia.
Qed.

End scan_facts.

Lemma fold_line_edit_no_backspace (max_size : Z) (l acc : list Z) :
  Forall (λ c, c ≠ BS) l → Z.of_nat (length acc) <= max_size - 1 →
  fold_left (line_edit max_size) l acc
  = acc ++ take (Z.to_nat (max_size - 1) - length acc) (filter printable l).
Proof.
  intros Hl. revert acc. induction Hl as [| c l Hc _ IH]; intros acc Hacc.
  { cbn [fold_left]. by rewrite filter_nil, take_nil, app_nil_r. }
  cbn [fold_left]. unfold line_edit at 2.
  destruct (Z.eqb_spec c BS) as [| _]; [done |].
  destruct (printable c) eqn:Hp; cbn [andb].
  - rewrite filter_cons_True by (by rewrite Hp).
    destruct (Z.ltb_spec (Z.of_nat (length acc)) (max_size - 1)).
    + rewrite IH by (rewrite length_app; simpl; lia).
      rewrite length_app. simpl length. rewrite <- app_assoc. f_equal.
      replace (Z.to_nat (max_size - 1) - length acc)%nat
        with (S (Z.to_nat (max_size - 1) - (length acc + 1))) by lia.
      done.
    + rewrite IH by done.
      replace (Z.to_nat (max_size - 1) - length acc)%nat with 0%nat by lia.
      done.
  - rewrite filter_cons_False by (rewrite Hp; exact id). by apply IH.
Qed.

Lemma line_edit_printable (max_size : Z) (l acc : list Z) :
  Forall (λ c, printable c) acc →
  Forall (λ c, printable c) (fold_left (line_edit max_size) l acc).
Proof.
  revert acc. induction l as [| c l IH]; intros acc Hacc; [done |].
  cbn [fold_left]. apply IH. unfold line_edit.
  destruct (c =? BS).
  - rewrite removelast_take. by apply Forall_take.
  - destruct (printable c) eqn:Hp; cbn [andb]; [| done].
    destruct (_ <? _); [| done].
    apply Forall_app. split; [done |]. constructor; [by rewrite Hp | done].
Qed.

(** An array whose first [length acc] bytes are the NUL-free [acc] and whose
    next byte is the terminator holds the string [acc]. *)
Lemma cstring_take (mem acc : list Z) :
  take (length acc) mem = acc → mem !! length acc = Some NUL →
  Forall (λ c, c ≠ NUL) acc → cstring mem = Some acc.
Proof.
  intros Htake Hnul Hacc.
  rewrite <- (take_drop (length acc) mem), Htake.
  pose proof (lookup_lt_Some _ _ _ Hnul) as Hlt.
  rewrite <- (take_drop (length acc) mem), Htake in Hnul.
  rewrite lookup_app_r, Nat.sub_diag in Hnul by lia.
  destruct (drop (length acc) mem) as [| z rest]; [done |].
  injection Hnul as ->. by apply cstring_app.
Qed.

(** C6, as stated, fails: with capacity 3 the input "abc", two backspaces
    and a carriage return holds three printable characters, and the scanner
    returns 0, not 2; with capacity 0 the scanner returns 0, which is more
    than capacity - 1. *)
Lemma scan_drops_excess_counterexample :
  neorv32_uart_scan 3 0 (Uart [] [] ((bytes "abc" ++ [BS; BS]) ++ [CR])) [7; 7; 7]
    = Some (0, [0; 98; 7], Uart [] [] [])
  ∧ ¬ scan_drops_excess 3 (bytes "abc" ++ [BS; BS]) [7; 7; 7]
  ∧ neorv32_uart_scan 0 0 (Uart [] [] (bytes "a" ++ [CR])) [7]
    = Some (0, [0], Uart [] [] [])
  ∧ ¬ scan_drops_excess 0 (bytes "a") [7].
Proof.
  split_and!.
  - reflexivity.
  - intros Hclaim.
    destruct (Hclaim 0 [0; 98; 7] (Uart [] [] []) eq_refl) as [_ Hlen].
    assert (3 - 1 < Z.of_nat (length (filter printable (bytes "abc" ++ [BS; BS]))))
      as Hmany by (vm_compute; done).
    specialize (Hlen Hmany). lia.
  - reflexivity.
  - intros Hclaim.
    destruct (Hclaim 0 [0] (Uart [] [] []) eq_refl) as [Hlen _]. lia.
Qed.

(** C6, amended: for a capacity of at least 1, a buffer of at least that
    many bytes and an input that holds a carriage return, the scanner
    returns the accepted length, which is at most capacity - 1; the accepted
    characters lie at the start of the buffer with a terminator at the
    index that equals the returned length, and nothing at index capacity or
    beyond is written.  When no backspace precedes the carriage return, the
    buffer holds the first capacity - 1 printable characters, the rest is
    dropped, and with more than capacity - 1 printable characters the
    returned length is capacity - 1. *)
Theorem scan_bounded (max_size echo : Z) (U : neorv32_uart_t)
    (buffer pre post : list Z) :
  1 <= max_size < 2^31 → max_size <= Z.of_nat (length buffer) →
  RX U = pre ++ CR :: post → Forall (λ d, char d ≠ CR) pre →
  ∃ len mem U',
    neorv32_uart_scan max_size echo U buffer = Some (len, mem, U')
    ∧ 0 <= len <= max_size - 1
    ∧ mem !! Z.to_nat len = Some NUL
    ∧ cstring mem = Some (take (Z.to_nat len) mem)
    ∧ take (Z.to_nat len) mem
      = fold_left (line_edit max_size) (char <$> pre) []
    ∧ length mem = length buffer
    ∧ drop (Z.to_nat max_size) mem = drop (Z.to_nat max_size) buffer
    ∧ RX U' = post
    ∧ (Forall (λ d, char d ≠ BS) pre →
       take (Z.to_nat len) mem
       = take (Z.to_nat (max_size - 1)) (filter printable (char <$> pre))
       ∧ (max_size - 1 < Z.of_nat (length (filter printable (char <$> pre))) →
          len = max_size - 1)).
Proof.
  intros Hmax Hbuf HRX Hpre.
  destruct (scan_eq max_size echo Hmax buffer Hbuf U pre post HRX Hpre)
    as (mem & U' & Hscan & Hcap & Htake & Hnul & Hlen & Hdrop & HRX' & _).
  set (acc := fold_left (line_edit max_size) (char <$> pre) []) in *.
  exists (Z.of_nat (length acc)), mem, U'. rewrite Nat2Z.id.
  split_and!; try done; try lia.
  - rewrite Htake. apply cstring_take; [done | done |].
    eapply Forall_impl.
    + apply (line_edit_printable max_size (char <$> pre) []). constructor.
    + intros c Hc. unfold printable in Hc.
      apply Is_true_true, andb_true_iff in Hc as [Hc _].
      apply Z.leb_le in Hc. revert Hc. change (chr " ") with 32.
      unfold NUL. lia.
  - intros Hbs.
    assert (acc = take (Z.to_nat (max_size - 1))
                    (filter printable (char <$> pre))) as Hacc.
    { unfold acc. rewrite fold_line_edit_no_backspace.
      - simpl. f_equal. lia.
      - by apply Forall_fmap.
      - simpl. lia. }
    split; [by rewrite Htake |].
    intros Hmany. rewrite Hacc, length_take. lia.
Qed.

Lemma scan_bounded_witness :
  ∃ len mem U',
    neorv32_uart_scan 3 1 (Uart [] [] (bytes "abcd" ++ [CR]))
      (replicate 4 7) = Some (len, mem, U')
    ∧ 0 <= len <= 3 - 1
    ∧ mem !! Z.to_nat len = Some NUL
    ∧ cstring mem = Some (take (Z.to_nat len) mem)
    ∧ take (Z.to_nat len) mem
      = fold_left (line_edit 3) (char <$> bytes "abcd") []
    ∧ length mem = length (replicate 4 7)
    ∧ drop (Z.to_nat 3) mem = drop (Z.to_nat 3) (replicate 4 7)
    ∧ RX U' = []
    ∧ (Forall (λ d, char d ≠ BS) (bytes "abcd") →
       take (Z.to_nat len) mem
       = take (Z.to_nat (3 - 1)) (filter printable (char <$> bytes "abcd"))
       ∧ (3 - 1 < Z.of_nat (length (filter printable (char <$> bytes "abcd"))) →
          len = 3 - 1)).
Proof.
  apply (scan_bounded 3 1 (Uart [] [] (bytes "abcd" ++ [CR])) (replicate 4 7)
           (bytes "abcd") []).
  - lia.
  - simpl. lia.
  - reflexivity.
  - repeat constructor; discriminate.
Defined.

(* ===================================================================== *)
(** * Setup: the baud search *)
(* ===================================================================== *)

Lemma baud_search_done (fuel : nat) (prsc_sel baud_div : Z) :
  baud_div < 0x3ff → baud_search fuel prsc_sel baud_div = Some (prsc_sel, baud_div).
Proof.
  intros Hd. destruct fuel; simpl;
    destruct (Z.leb_spec 1023 baud_div); done || lia.
Qed.

Lemma baud_search_unfold (fuel : nat) (prsc_sel baud_div : Z) :
  0x3ff <= baud_div →
  baud_search (S fuel) prsc_sel baud_div
  = baud_search fuel (uint32_t (prsc_sel + 1))
      (if (prsc_sel =? 2) || (prsc_sel =? 4)
       then Z.shiftr baud_div 3 else Z.shiftr baud_div 1).
Proof.
  intros Hd. simpl. destruct (Z.leb_spec 1023 baud_div); done || lia.
Qed.

(** One turn shifts by the distance between two neighbouring taps. *)
Lemma prsc_shift_succ (p : Z) :
  0 <= p →
  prsc_shift (p + 1) - prsc_shift p = if (p =? 2) || (p =? 4) then 3 else 1.
Proof.
  intros Hp. unfold prsc_shift.
  destruct (Z.ltb_spec 2 (p + 1)), (Z.ltb_spec 2 p),
    (Z.ltb_spec 4 (p + 1)), (Z.ltb_spec 4 p),
    (Z.eqb_spec p 2), (Z.eqb_spec p 4); simpl; lia.
Qed.

Lemma prsc_shift_mono (p q : Z) : p <= q → prsc_shift p <= prsc_shift q.
Proof.
  intros Hpq. unfold prsc_shift.
  destruct (Z.ltb_spec 2 p), (Z.ltb_spec 2 q),
    (Z.ltb_spec 4 p), (Z.ltb_spec 4 q); lia.
Qed.

(** The search stops within [fuel] turns at the first tap whose divisor is
    below 1023. *)
Lemma baud_search_spec (fuel : nat) (p bd : Z) :
  0 <= p → p + Z.of_nat fuel < 2^32 → 0 <= bd < 0x3ff * 2 ^ Z.of_nat fuel →
  ∃ p' bd',
    baud_search fuel p bd = Some (p', bd')
    ∧ p <= p' <= p + Z.of_nat fuel
    ∧ bd' = Z.shiftr bd (prsc_shift p' - prsc_shift p)
    ∧ 0 <= bd' < 0x3ff
    ∧ (p < p' → 127 <= bd')
    ∧ (∀ q, p <= q < p' → 0x3ff <= Z.shiftr bd (prsc_shift q - prsc_shift p)).
Proof.
  revert p bd. induction fuel as [| fuel IH]; intros p bd Hp Hpf Hbd.
  - change (2 ^ Z.of_nat 0) with 1 in Hbd.
    rewrite baud_search_done by lia. exists p, bd.
    rewrite Z.sub_diag, Z.shiftr_0_r. split_and!; try done; lia.
  - destruct (Z.lt_ge_cases bd 0x3ff) as [Hsmall | Hbig].
    { rewrite baud_search_done by lia. exists p, bd.
      rewrite Z.sub_diag, Z.shiftr_0_r. split_and!; try done; lia. }
    rewrite baud_search_unfold by lia.
    rewrite uint32_small by lia.
    pose proof (prsc_shift_succ p ltac:(lia)) as Hsucc.
    set (s := if (p =? 2) || (p =? 4) then 3 else 1) in *.
    assert (s = 1 ∨ s = 3) as Hs by (unfold s; destruct (_ || _); auto).
    assert ((if (p =? 2) || (p =? 4)
             then Z.shiftr bd 3 else Z.shiftr bd 1) = Z.shiftr bd s) as ->.
    { unfold s. by destruct (_ || _). }
    rewrite Nat2Z.inj_succ, Z.pow_succ_r in Hbd by lia.
    assert (0 < 2 ^ Z.of_nat fuel) as Hpow by (apply Z.pow_pos_nonneg; lia).
    assert (127 <= Z.shiftr bd s ∧ Z.shiftr bd s < 0x3ff * 2 ^ Z.of_nat fuel)
      as [Hlow Hhigh].
    { rewrite Z.shiftr_div_pow2 by lia.
      destruct Hs as [-> | ->]; [change (2 ^ 1) with 2 | change (2 ^ 3) with 8];
        split.
      - apply Z.div_le_lower_bound; lia.
      - apply Z.div_lt_upper_bound; lia.
      - apply Z.div_le_lower_bound; lia.
      - apply Z.div_lt_upper_bound; lia. }
    destruct (IH (p + 1) (Z.shiftr bd s)) as (p' & bd' & -> & Hp' & Hbd' & Hr & Hlo & Hmin);
      [lia | lia | lia |].
    exists p', bd'. split; [done |].
    pose proof (prsc_shift_mono (p + 1) p' ltac:(lia)) as Hmono.
    split_and!; try lia.
    + rewrite Hbd', Z.shiftr_shiftr by lia. f_equal. lia.
    + intros _. destruct (decide (p + 1 = p')) as [<- | Hne]; [| apply Hlo; lia].
      rewrite Hbd', Z.sub_diag, Z.shiftr_0_r. lia.
    + intros q Hq. destruct (decide (q = p)) as [-> | Hqp].
      * by rewrite Z.sub_diag, Z.shiftr_0_r.
      * specialize (Hmin q ltac:(lia)).
        pose proof (prsc_shift_mono (p + 1) q ltac:(lia)).
        rewrite Z.shiftr_shiftr in Hmin by lia.
        by replace (s + (prsc_shift q - prsc_shift (p + 1)))
          with (prsc_shift q - prsc_shift p) in Hmin by lia.
Qed.

(** From prescaler select 0, and for a raw divisor within what the eight
    taps can reach, the pair fits the register. *)
Lemma baud_search_in_range (raw : Z) :
  1 <= raw < 0x3ff * 2^11 →
  ∃ prsc_sel baud_div,
    baud_search 32 0 raw = Some (prsc_sel, baud_div)
    ∧ 0 <= prsc_sel <= 7
    ∧ 1 <= baud_div < 0x3ff
    ∧ baud_div = Z.shiftr raw (prsc_shift prsc_sel)
    ∧ (∀ q, 0 <= q < prsc_sel → 0x3ff <= Z.shiftr raw (prsc_shift q)).
Proof.
  intros Hraw.
  destruct (baud_search_spec 32 0 raw) as (p & bd & Hs & Hp & Hbd & Hr & Hlo & Hmin);
    [lia | simpl; lia | change (2 ^ Z.of_nat 32) with (2^32); lia |].
  change (prsc_shift 0) with 0 in *. rewrite Z.sub_0_r in Hbd.
  exists p, bd. split; [done |].
  assert (p <= 7) as Hp7.
  { destruct (Z.le_gt_cases p 7) as [| Hgt]; [done |].
    specialize (Hmin 7 ltac:(lia)). rewrite Z.sub_0_r in Hmin.
    change (prsc_shift 7) with 11 in Hmin.
    rewrite Z.shiftr_div_pow2 in Hmin by lia.
    assert (raw / 2^11 < 0x3ff) by (apply Z.div_lt_upper_bound; lia). lia. }
  split_and!; try lia; try done.
  - destruct (decide (p = 0)) as [-> | Hne]; [| lia].
    rewrite Hbd. change (prsc_shift 0) with 0. rewrite Z.shiftr_0_r. lia.
  - intros q Hq. specialize (Hmin q Hq). by rewrite Z.sub_0_r in Hmin.
Qed.

(** The search ends for every 32-bit raw divisor. *)
Lemma baud_search_total (raw : Z) :
  0 <= raw < 2^32 →
  ∃ prsc_sel baud_div,
    baud_search 32 0 raw = Some (prsc_sel, baud_div)
    ∧ 0 <= prsc_sel <= 32 ∧ 0 <= baud_div < 0x3ff.
Proof.
  intros Hraw.
  destruct (baud_search_spec 32 0 raw) as (p & bd & Hs & Hp & Hbd & Hr & _);
    [lia | simpl; lia | change (2 ^ Z.of_nat 32) with (2^32); lia |].
  exists p, bd. split; [done |]. simpl in Hp. lia.
Qed.

(* ===================================================================== *)
(** * Setup: the control register *)
(* ===================================================================== *)

Lemma testbit_ones (w i : Z) :
  0 <= w → 0 <= i → Z.testbit (Z.ones w) i = (i <? w).
Proof.
  intros Hw Hi. destruct (Z.ltb_spec i w).
  - apply Z.ones_spec_low. lia.
  - apply Z.ones_spec_high. lia.
Qed.

Lemma testbit_field (v lo w i : Z) :
  0 <= lo → 0 <= w → 0 <= i →
  Z.testbit (field v lo w) i = Z.testbit v (i + lo) && (i <? w).
Proof.
  intros Hlo Hw Hi. unfold field.
  by rewrite Z.land_spec, Z.shiftr_spec, testbit_ones by lia.
Qed.

(** A value masked to [w] bits and shifted to bit [lo] of a 32-bit word. *)
Lemma testbit_shl_ones (v lo w i : Z) :
  0 <= lo → 0 <= w → lo + w <= 32 → 0 <= i →
  Z.testbit (uint32_t (Z.shiftl (Z.land v (Z.ones w)) lo)) i
  = (lo <=? i) && (i <? lo + w) && Z.testbit v (i - lo).
Proof.
  intros Hlo Hw Hfit Hi. unfold uint32_t.
  destruct (Z.lt_ge_cases i 32) as [Hlt | Hge].
  - rewrite Z.mod_pow2_bits_low, Z.shiftl_spec, Z.land_spec by lia.
    destruct (Z.leb_spec lo i).
    + rewrite testbit_ones by lia.
      destruct (Z.ltb_spec (i - lo) w), (Z.ltb_spec i (lo + w));
        simpl; rewrite ?andb_true_r, ?andb_false_r; done || lia.
    + by rewrite (Z.testbit_neg_r v) by lia.
  - rewrite Z.mod_pow2_bits_high by lia.
    destruct (Z.ltb_spec i (lo + w)); [lia |]. by rewrite andb_false_r.
Qed.

Lemma field_lor (a b lo w : Z) :
  field (Z.lor a b) lo w = Z.lor (field a lo w) (field b lo w).
Proof. unfold field. by rewrite Z.shiftr_lor, Z.land_lor_distr_l. Qed.

(** Reading a field back where it was written, through a window at least
    as wide. *)
Lemma field_shl_same (v lo w w' : Z) :
  0 <= lo → 0 <= w <= w' → lo + w <= 32 →
  field (uint32_t (Z.shiftl (Z.land v (Z.ones w)) lo)) lo w'
  = Z.land v (Z.ones w).
Proof.
  intros Hlo Hw Hfit. apply Z.bits_inj'. intros i Hi.
  rewrite testbit_field, testbit_shl_ones, Z.land_spec, testbit_ones by lia.
  replace (i + lo - lo) with i by lia.
  destruct (Z.leb_spec lo (i + lo)); [| lia].
  destruct (Z.ltb_spec (i + lo) (lo + w)), (Z.ltb_spec i w), (Z.ltb_spec i w');
    simpl; rewrite ?andb_true_r, ?andb_false_r; done || lia.
Qed.

(** Reading a field where nothing of another one was written. *)
Lemma field_shl_apart (v lo w lo' w' : Z) :
  0 <= lo → 0 <= w → lo + w <= 32 → 0 <= lo' → 0 <= w' →
  lo + w <= lo' ∨ lo' + w' <= lo →
  field (uint32_t (Z.shiftl (Z.land v (Z.ones w)) lo)) lo' w' = 0.
Proof.
  intros Hlo Hw Hfit Hlo' Hw' Hapart. apply Z.bits_inj'. intros i Hi.
  rewrite testbit_field, testbit_shl_ones, Z.bits_0 by lia.
  destruct (Z.leb_spec lo (i + lo')), (Z.ltb_spec (i + lo') (lo + w)),
    (Z.ltb_spec i w'); simpl; rewrite ?andb_false_r; done || lia.
Qed.

Lemma shl32_in_range (a n : Z) :
  0 <= n < 32 → shl32 a n = Some (uint32_t (Z.shiftl a n)).
Proof.
  intros Hn. unfold shl32.
  destruct (Z.leb_spec 0 n); [| lia]. destruct (Z.ltb_spec n 32); [done | lia].
Qed.

Lemma bind_Some {A B : Type} (x : A) (f : A → option B) : Some x ≫= f = f x.
Proof. reflexivity. Qed.

Lemma bind_None {A B : Type} (f : A → option B) : None ≫= f = None.
Proof. reflexivity. Qed.

Lemma udiv32_nonzero (a b : Z) : b ≠ 0 → udiv32 a b = Some (a / b).
Proof. intros Hb. unfold udiv32. by destruct (Z.eqb_spec b 0). Qed.

Section setup_facts.

Context `{UartCtrlBits}.
Hypothesis bits_ok : ctrl_bits_ok.

(** The four fragments that setup ORs together. *)
Lemma setup_ctrl_eq (prsc_sel baud_div irq_mask : Z) :
  setup_ctrl prsc_sel baud_div irq_mask
  = Some (Z.lor
            (Z.lor
               (Z.lor (uint32_t (Z.shiftl (Z.land 1 (Z.ones 1)) UART_CTRL_EN))
                  (uint32_t (Z.shiftl (Z.land prsc_sel (Z.ones 2)) UART_CTRL_PRSC0)))
               (uint32_t (Z.shiftl (Z.land (uint32_t (baud_div - 1)) (Z.ones 10))
                            UART_CTRL_BAUD0)))
            (Z.land irq_mask
               (uint32_t (Z.shiftl (Z.land 0x1f (Z.ones 5))
                            UART_CTRL_IRQ_RX_NEMPTY)))).
Proof.
  destruct bits_ok as (Hen & Hprsc & Hbaud & Hirq & Htop).
  unfold setup_ctrl. rewrite !shl32_in_range by lia. reflexivity.
Qed.

Lemma field_irq_fragment (irq_mask lo w : Z) :
  0 <= lo → 0 <= w →
  field (Z.land irq_mask
           (uint32_t (Z.shiftl (Z.land 0x1f (Z.ones 5)) UART_CTRL_IRQ_RX_NEMPTY)))
        lo w
  = Z.land (field irq_mask lo w)
      (field (uint32_t (Z.shiftl (Z.land 0x1f (Z.ones 5)) UART_CTRL_IRQ_RX_NEMPTY))
         lo w).
Proof.
  intros Hlo Hw. apply Z.bits_inj'. intros i Hi.
  rewrite Z.land_spec, !testbit_field, Z.land_spec by lia.
  destruct (i <? w); rewrite ?andb_true_r, ?andb_false_r; done.
Qed.

(** What each field of the written value holds. *)
Lemma setup_ctrl_fields (prsc_sel baud_div irq_mask : Z) :
  ∃ tmp,
    setup_ctrl prsc_sel baud_div irq_mask = Some tmp
    ∧ field tmp UART_CTRL_EN 1 = 1
    ∧ field tmp UART_CTRL_PRSC0 3 = Z.land prsc_sel 3
    ∧ field tmp UART_CTRL_BAUD0 10 = Z.land (uint32_t (baud_div - 1)) 0x3ff
    ∧ field tmp UART_CTRL_IRQ_RX_NEMPTY 5
      = field irq_mask UART_CTRL_IRQ_RX_NEMPTY 5.
Proof.
  pose proof bits_ok as (Hen & Hprsc & Hbaud & Hirq & Htop).
  eexists. split; [apply setup_ctrl_eq |].
  split_and!; rewrite !field_lor, field_irq_fragment by lia.
  - rewrite field_shl_same by lia.
    rewrite !field_shl_apart by lia.
    by rewrite Z.land_0_r.
  - rewrite (field_shl_same prsc_sel) by lia.
    rewrite !field_shl_apart by lia.
    by rewrite Z.land_0_r, !Z.lor_0_r, Z.lor_0_l.
  - rewrite (field_shl_same (uint32_t (baud_div - 1))) by lia.
    rewrite !field_shl_apart by lia.
    by rewrite Z.land_0_r, Z.lor_0_r, !Z.lor_0_l.
  - rewrite (field_shl_same 0x1f) by lia.
    rewrite !field_shl_apart by lia.
    rewrite !Z.lor_0_l.
    change (Z.land 31 (Z.ones 5)) with (Z.ones 5).
    unfold field. by rewrite <- Z.land_assoc, Z.land_diag.
Qed.

(** Only the five bits of [irq_mask] at the interrupt enables count. *)
Lemma irq_fragment_field (irq_mask irq_mask' : Z) :
  field irq_mask UART_CTRL_IRQ_RX_NEMPTY 5
  = field irq_mask' UART_CTRL_IRQ_RX_NEMPTY 5 →
  Z.land irq_mask
    (uint32_t (Z.shiftl (Z.land 0x1f (Z.ones 5)) UART_CTRL_IRQ_RX_NEMPTY))
  = Z.land irq_mask'
      (uint32_t (Z.shiftl (Z.land 0x1f (Z.ones 5)) UART_CTRL_IRQ_RX_NEMPTY)).
Proof.
  pose proof bits_ok as (Hen & Hprsc & Hbaud & Hirq & Htop).
  intros Hfield. apply Z.bits_inj'. intros i Hi.
  rewrite !Z.land_spec, testbit_shl_ones by lia.
  destruct (Z.leb_spec UART_CTRL_IRQ_RX_NEMPTY i);
    [| by rewrite !andb_false_r].
  destruct (Z.ltb_spec i (UART_CTRL_IRQ_RX_NEMPTY + 5));
    [| by rewrite !andb_false_r].
  apply (f_equal (λ v, Z.testbit v (i - UART_CTRL_IRQ_RX_NEMPTY))) in Hfield.
  rewrite !testbit_field in Hfield by lia.
  replace (i - UART_CTRL_IRQ_RX_NEMPTY + UART_CTRL_IRQ_RX_NEMPTY) with i
    in Hfield by lia.
  destruct (Z.ltb_spec (i - UART_CTRL_IRQ_RX_NEMPTY) 5); [| lia].
  rewrite !andb_true_r in Hfield. by rewrite Hfield.
Qed.

(** Setup returns whenever the division is defined. *)
Lemma setup_eq (clock : Z) (U : neorv32_uart_t) (baudrate irq_mask : Z) :
  0 <= clock < 2^32 → uint32_t (2 * baudrate) ≠ 0 →
  ∃ prsc_sel baud_div tmp,
    baud_search 32 0 (clock / uint32_t (2 * baudrate))
    = Some (prsc_sel, baud_div)
    ∧ setup_ctrl prsc_sel baud_div irq_mask = Some tmp
    ∧ neorv32_uart_setup clock U baudrate irq_mask
      = Some (write_CTRL (write_CTRL U 0) tmp).
Proof.
  intros Hclock Hbaud.
  assert (0 < uint32_t (2 * baudrate)) as Hpos.
  { unfold uint32_t in *. pose proof (Z.mod_pos_bound (2 * baudrate) (2^32)).
    lia. }
  destruct (baud_search_total (clock / uint32_t (2 * baudrate)))
    as (p & bd & Hsearch & _).
  { split; [apply Z.div_pos; lia |].
    apply Z.div_lt_upper_bound; [lia |]. nia. }
  destruct (setup_ctrl_fields p bd irq_mask) as (tmp & Htmp & _).
  exists p, bd, tmp. split; [exact Hsearch |]. split; [exact Htmp |].
  unfold neorv32_uart_setup.
  rewrite udiv32_nonzero, bind_Some, Hsearch, bind_Some, Htmp, bind_Some
    by done.
  reflexivity.
Qed.

End setup_facts.

Lemma neorv32_ctrl_bits_ok : @ctrl_bits_ok neorv32_ctrl_bits.
Proof. unfold ctrl_bits_ok. simpl. lia. Qed.

(** Two interrupt masks that agree on the five bits at the interrupt
    enables make setup write the same value. *)
Lemma setup_same_irq_field `{UartCtrlBits} (clock : Z) (U : neorv32_uart_t)
    (baudrate m m' : Z) :
  ctrl_bits_ok →
  field m UART_CTRL_IRQ_RX_NEMPTY 5 = field m' UART_CTRL_IRQ_RX_NEMPTY 5 →
  neorv32_uart_setup clock U baudrate m = neorv32_uart_setup clock U baudrate m'.
Proof.
  intros Hok Hm. unfold neorv32_uart_setup.
  destruct (udiv32 clock (uint32_t (2 * baudrate))) as [raw |];
    [| by rewrite !bind_None].
  rewrite !bind_Some.
  destruct (baud_search 32 0 raw) as [[p' bd'] |]; [| by rewrite !bind_None].
  rewrite !bind_Some.
  by rewrite !(setup_ctrl_eq Hok), (irq_fragment_field Hok m m' Hm).
Qed.

(** With the interrupt enables at bit 5 or above, the low five bits of the
    mask do not reach the register. *)
Lemma setup_low_irq_bits_dropped `{UartCtrlBits} (clock : Z)
    (U : neorv32_uart_t) (baudrate irq_mask : Z) :
  ctrl_bits_ok → 5 <= UART_CTRL_IRQ_RX_NEMPTY →
  neorv32_uart_setup clock U baudrate (Z.land irq_mask 0x1f)
  = neorv32_uart_setup clock U baudrate 0.
Proof.
  intros Hok Hhigh. apply setup_same_irq_field; [done |].
  apply Z.bits_inj'. intros i Hi.
  rewrite !testbit_field by lia. change 0x1f with (Z.ones 5).
  rewrite Z.land_spec, testbit_ones, Z.bits_0 by lia.
  destruct (Z.ltb_spec (i + UART_CTRL_IRQ_RX_NEMPTY) 5); [lia |].
  by rewrite andb_false_r.
Qed.

(** C7, as stated, fails: with the interrupt enables at bit 22, an
    [irq_mask] of 0x1f (its low five bits set) enables no interrupt: the
    written value is the one for an [irq_mask] of 0, and its interrupt
    enable field is 0, not 0x1f.  The same holds wherever the fields lie,
    as long as they lie in the order of [ctrl_bits_ok]. *)
Lemma setup_irq_low_bits_counterexample :
  ∃ tmp,
    @neorv32_uart_setup neorv32_ctrl_bits 100000000 (Uart [] [] []) 19200 0x1f
    = Some (Uart [0; tmp] [] [])
    ∧ @neorv32_uart_setup neorv32_ctrl_bits 100000000 (Uart [] [] []) 19200 0
      = Some (Uart [0; tmp] [] [])
    ∧ field tmp (@UART_CTRL_IRQ_RX_NEMPTY neorv32_ctrl_bits) 5 = 0
    ∧ field tmp (@UART_CTRL_IRQ_RX_NEMPTY neorv32_ctrl_bits) 5 ≠ Z.land 0x1f 0x1f
    ∧ (∀ (bits : UartCtrlBits) clock U baudrate,
         @ctrl_bits_ok bits →
         @neorv32_uart_setup bits clock U baudrate 0x1f
         = @neorv32_uart_setup bits clock U baudrate 0).
Proof.
  eexists. split_and!; [reflexivity | reflexivity | reflexivity | done |].
  intros bits clock U baudrate Hok.
  change 0x1f with (Z.land 0x1f 0x1f) at 1.
  apply setup_low_irq_bits_dropped; [done |].
  destruct Hok as (? & ? & ? & ? & ?). lia.
Qed.

(** C7, amended: setup copies the five bits of [irq_mask] that lie at the
    positions of the interrupt enables of the control register, unshifted,
    to these positions, and masks all other bits of [irq_mask] off: two
    masks that agree on these five bits give the same register value, and
    when the enables lie at bit 5 or above the low five bits of [irq_mask]
    are among the bits masked off. *)
Theorem setup_irq_mask `{UartCtrlBits} (clock : Z) (U : neorv32_uart_t)
    (baudrate irq_mask : Z) :
  ctrl_bits_ok → 0 <= clock < 2^32 → uint32_t (2 * baudrate) ≠ 0 →
  ∃ tmp,
    neorv32_uart_setup clock U baudrate irq_mask
    = Some (write_CTRL (write_CTRL U 0) tmp)
    ∧ field tmp UART_CTRL_IRQ_RX_NEMPTY 5
      = field irq_mask UART_CTRL_IRQ_RX_NEMPTY 5
    ∧ (∀ i, UART_CTRL_IRQ_RX_NEMPTY <= i < UART_CTRL_IRQ_RX_NEMPTY + 5 →
         Z.testbit tmp i = Z.testbit irq_mask i)
    ∧ (∀ irq_mask',
         field irq_mask' UART_CTRL_IRQ_RX_NEMPTY 5
         = field irq_mask UART_CTRL_IRQ_RX_NEMPTY 5 →
         neorv32_uart_setup clock U baudrate irq_mask'
         = neorv32_uart_setup clock U baudrate irq_mask)
    ∧ (5 <= UART_CTRL_IRQ_RX_NEMPTY →
         neorv32_uart_setup clock U baudrate (Z.land irq_mask 0x1f)
         = neorv32_uart_setup clock U baudrate 0).
Proof.
  intros Hok Hclock Hbaud.
  pose proof Hok as (Hen & Hprsc & Hbd & Hirq & Htop).
  destruct (setup_eq Hok clock U baudrate irq_mask Hclock Hbaud)
    as (p & bd & tmp & Hsearch & Htmp & Hsetup).
  destruct (setup_ctrl_fields Hok p bd irq_mask)
    as (tmp' & Htmp' & _ & _ & _ & Hfield).
  assert (tmp' = tmp) as -> by congruence.
  exists tmp. split_and!; try done.
  - intros i Hi.
    apply (f_equal (λ v, Z.testbit v (i - UART_CTRL_IRQ_RX_NEMPTY))) in Hfield.
    rewrite !testbit_field in Hfield by lia.
    replace (i - UART_CTRL_IRQ_RX_NEMPTY + UART_CTRL_IRQ_RX_NEMPTY) with i
      in Hfield by lia.
    destruct (Z.ltb_spec (i - UART_CTRL_IRQ_RX_NEMPTY) 5); [| lia].
    by rewrite !andb_true_r in Hfield.
  - intros irq_mask' Hm. by apply setup_same_irq_field.
  - intros Hhigh. by apply setup_low_irq_bits_dropped.
Qed.

Lemma setup_irq_mask_witness :
  ∃ tmp,
    @neorv32_uart_setup neorv32_ctrl_bits 100000000 (Uart [] [] []) 19200
      (Z.shiftl 0x1f 22)
    = Some (write_CTRL (write_CTRL (Uart [] [] []) 0) tmp)
    ∧ field tmp (@UART_CTRL_IRQ_RX_NEMPTY neorv32_ctrl_bits) 5
      = field (Z.shiftl 0x1f 22) (@UART_CTRL_IRQ_RX_NEMPTY neorv32_ctrl_bits) 5
    ∧ (∀ i, @UART_CTRL_IRQ_RX_NEMPTY neorv32_ctrl_bits <= i
            < @UART_CTRL_IRQ_RX_NEMPTY neorv32_ctrl_bits + 5 →
         Z.testbit tmp i = Z.testbit (Z.shiftl 0x1f 22) i)
    ∧ (∀ irq_mask',
         field irq_mask' (@UART_CTRL_IRQ_RX_NEMPTY neorv32_ctrl_bits) 5
         = field (Z.shiftl 0x1f 22) (@UART_CTRL_IRQ_RX_NEMPTY neorv32_ctrl_bits) 5 →
         @neorv32_uart_setup neorv32_ctrl_bits 100000000 (Uart [] [] []) 19200
           irq_mask'
         = @neorv32_uart_setup neorv32_ctrl_bits 100000000 (Uart [] [] []) 19200
             (Z.shiftl 0x1f 22))
    ∧ (5 <= @UART_CTRL_IRQ_RX_NEMPTY neorv32_ctrl_bits →
         @neorv32_uart_setup neorv32_ctrl_bits 100000000 (Uart [] [] []) 19200
           (Z.land (Z.shiftl 0x1f 22) 0x1f)
         = @neorv32_uart_setup neorv32_ctrl_bits 100000000 (Uart [] [] []) 19200 0).
Proof.
  apply (@setup_irq_mask neorv32_ctrl_bits 100000000 (Uart [] [] []) 19200
           (Z.shiftl 0x1f 22)).
  - unfold ctrl_bits_ok. simpl. lia.
  - lia.
  - vm_compute. discriminate.
Defined.

(** C8, as stated, fails: a clock of 1 MHz and a baud rate of 921600 give
    the divisor 0, which is not in [1, 1024), and a clock of 100 MHz and a
    baud rate of 10 give the prescaler select 9, which is not in {0..7}. *)
Lemma baud_pair_fits_counterexample :
  baud_search 32 0 (1000000 / uint32_t (2 * 921600)) = Some (0, 0)
  ∧ ¬ baud_pair_fits 1000000 921600
  ∧ baud_search 32 0 (100000000 / uint32_t (2 * 10)) = Some (9, 610)
  ∧ ¬ baud_pair_fits 100000000 10.
Proof.
  split_and!.
  - reflexivity.
  - intros (p & bd & Hs & Hp & Hbd).
    change (baud_search 32 0 (1000000 / uint32_t (2 * 921600))) with (Some (0, 0))
      in Hs.
    injection Hs as <- <-. lia.
  - reflexivity.
  - intros (p & bd & Hs & Hp & Hbd).
    change (baud_search 32 0 (100000000 / uint32_t (2 * 10)))
      with (Some (9, 610)) in Hs.
    injection Hs as <- <-. lia.
Qed.

(** C8, amended: when the raw divisor clock / (2 * baud) lies in
    [1, 1023 * 2^11), the search shifts it right (by 3 when the prescaler
    select is 2 or 4, by 1 otherwise) until it is below 1023 and stops at
    the first prescaler select for which it is; the prescaler select is in
    {0..7} and the divisor in [1, 1023).  Setup then writes, after the reset
    value 0, one value to the control register that holds the enable bit,
    divisor - 1 in the baud field and the interrupt bits of [irq_mask]. *)
Theorem setup_baud_search `{UartCtrlBits} (clock : Z) (U : neorv32_uart_t)
    (baudrate irq_mask : Z) :
  ctrl_bits_ok → 0 <= clock < 2^32 → uint32_t (2 * baudrate) ≠ 0 →
  1 <= clock / uint32_t (2 * baudrate) < 0x3ff * 2^11 →
  let raw := clock / uint32_t (2 * baudrate) in
  ∃ prsc_sel baud_div tmp,
    baud_search 32 0 raw = Some (prsc_sel, baud_div)
    ∧ 0 <= prsc_sel <= 7
    ∧ 1 <= baud_div < 0x3ff
    ∧ baud_div = Z.shiftr raw (prsc_shift prsc_sel)
    ∧ (∀ q, 0 <= q < prsc_sel → 0x3ff <= Z.shiftr raw (prsc_shift q))
    ∧ (∀ q, 0 <= q →
         prsc_shift 0 = 0
         ∧ prsc_shift (q + 1) - prsc_shift q
           = if (q =? 2) || (q =? 4) then 3 else 1)
    ∧ neorv32_uart_setup clock U baudrate irq_mask
      = Some (write_CTRL (write_CTRL U 0) tmp)
    ∧ CTRL (write_CTRL (write_CTRL U 0) tmp) = CTRL U ++ [0; tmp]
    ∧ field tmp UART_CTRL_EN 1 = 1
    ∧ field tmp UART_CTRL_BAUD0 10 = baud_div - 1
    ∧ field tmp UART_CTRL_IRQ_RX_NEMPTY 5
      = field irq_mask UART_CTRL_IRQ_RX_NEMPTY 5.
Proof.
  intros Hok Hclock Hbaud Hraw raw.
  destruct (baud_search_in_range raw Hraw)
    as (p & bd & Hsearch & Hp & Hbd & Hshift & Hmin).
  destruct (setup_eq Hok clock U baudrate irq_mask Hclock Hbaud)
    as (p' & bd' & tmp & Hsearch' & Htmp & Hsetup).
  fold raw in Hsearch'. rewrite Hsearch in Hsearch'.
  injection Hsearch' as <- <-.
  destruct (setup_ctrl_fields Hok p bd irq_mask)
    as (tmp' & Htmp' & Hfen & _ & Hfbaud & Hfirq).
  assert (tmp' = tmp) as -> by congruence.
  exists p, bd, tmp. split_and!; try done; try lia.
  - intros q Hq. split; [done | by apply prsc_shift_succ].
  - simpl. by rewrite <- app_assoc.
  - rewrite Hfbaud, uint32_small by lia.
    change 0x3ff with (Z.ones 10). rewrite Z.land_ones by lia.
    apply Z.mod_small. lia.
Qed.

Lemma setup_baud_search_witness :
  let raw := 100000000 / uint32_t (2 * 19200) in
  ∃ prsc_sel baud_div tmp,
    baud_search 32 0 raw = Some (prsc_sel, baud_div)
    ∧ 0 <= prsc_sel <= 7
    ∧ 1 <= baud_div < 0x3ff
    ∧ baud_div = Z.shiftr raw (prsc_shift prsc_sel)
    ∧ (∀ q, 0 <= q < prsc_sel → 0x3ff <= Z.shiftr raw (prsc_shift q))
    ∧ (∀ q, 0 <= q →
         prsc_shift 0 = 0
         ∧ prsc_shift (q + 1) - prsc_shift q
           = if (q =? 2) || (q =? 4) then 3 else 1)
    ∧ @neorv32_uart_setup neorv32_ctrl_bits 100000000 (Uart [] [] []) 19200 0
      = Some (write_CTRL (write_CTRL (Uart [] [] []) 0) tmp)
    ∧ CTRL (write_CTRL (write_CTRL (Uart [] [] []) 0) tmp) = [] ++ [0; tmp]
    ∧ field tmp (@UART_CTRL_EN neorv32_ctrl_bits) 1 = 1
    ∧ field tmp (@UART_CTRL_BAUD0 neorv32_ctrl_bits) 10 = baud_div - 1
    ∧ field tmp (@UART_CTRL_IRQ_RX_NEMPTY neorv32_ctrl_bits) 5
      = field 0 (@UART_CTRL_IRQ_RX_NEMPTY neorv32_ctrl_bits) 5.
Proof.
  apply (@setup_baud_search neorv32_ctrl_bits 100000000 (Uart [] [] []) 19200 0).
  - unfold ctrl_bits_ok. simpl. lia.
  - lia.
  - vm_compute. discriminate.
  - vm_compute. split; discriminate || reflexivity.
Defined.

(** With a clock of 100 MHz and a baud rate of 1200 the search stops at
    prescaler select 4, and the mask 3 that setup applies leaves 0 in the
    prescaler field of the written value. *)
Example setup_prescaler_select_4 :
  baud_search 32 0 (100000000 / uint32_t (2 * 1200)) = Some (4, 651)
  ∧ ∃ tmp,
      @neorv32_uart_setup neorv32_ctrl_bits 100000000 (Uart [] [] []) 1200 0
      = Some (Uart [0; tmp] [] [])
      ∧ field tmp (@UART_CTRL_PRSC0 neorv32_ctrl_bits) 3 = 0
      ∧ field tmp (@UART_CTRL_BAUD0 neorv32_ctrl_bits) 10 = 650.
Proof. split; [reflexivity |]. eexists. split_and!; reflexivity. Qed.

(* ===================================================================== *)
(** * Sending strings *)
(* ===================================================================== *)

Lemma cstring_Some_split (s t : list Z) :
  cstring s = Some t ↔ Forall (λ c, c ≠ NUL) t ∧ ∃ rest, s = t ++ NUL :: rest.
Proof.
  split.
  - revert t. induction s as [| c s IH]; intros t; [done |].
    simpl. destruct (Z.eqb_spec c NUL) as [-> | Hc].
    + intros [= <-]. split; [constructor | by exists s].
    + destruct (cstring s) as [t' |]; [| done]. intros [= <-].
      destruct (IH t' eq_refl) as (Ht' & rest & ->).
      split; [by constructor | by exists rest].
  - intros (Ht & rest & ->). by apply cstring_app.
Qed.

Lemma cstring_None (s : list Z) : cstring s = None ↔ NUL ∉ s.
Proof.
  induction s as [| c s IH]; simpl.
  - split; [intros _; apply not_elem_of_nil | done].
  - destruct (Z.eqb_spec c NUL) as [-> | Hc].
    + split; [done |]. intros Hnot. destruct Hnot. by left.
    + rewrite not_elem_of_cons. destruct (cstring s).
      * split; [done |]. intros [_ Hs]. by apply IH in Hs.
      * split; [| done]. intros _. split; [done | by apply IH].
Qed.

Lemma puts_None (U : neorv32_uart_t) (s : list Z) :
  cstring s = None → neorv32_uart_puts U s = None.
Proof.
  revert U. induction s as [| c s IH]; intros U; [done |].
  simpl. destruct (c =? NUL); [done |].
  destruct (cstring s); [done |]. intros _. by apply IH.
Qed.

Lemma crlf_app (s1 s2 : list Z) : crlf (s1 ++ s2) = crlf s1 ++ crlf s2.
Proof.
  induction s1 as [| c s1 IH]; [done |].
  simpl. rewrite IH. by destruct (c =? LF).
Qed.

Lemma crlf_no_NUL (t : list Z) : NUL ∉ t → NUL ∉ crlf t.
Proof.
  induction t as [| c t IH]; [done |].
  rewrite not_elem_of_cons. intros [Hc Ht]. simpl.
  destruct (c =? LF); simpl; rewrite !not_elem_of_cons; auto.
Qed.

(** X1: [neorv32_uart_puts] sends the bytes of the string up to its first
    NUL, each line feed as carriage return, line feed, and nothing else: the
    terminator is not sent, what was sent before stays, and the control
    register and the receiver are not touched. *)
Theorem puts_sends_string (U : neorv32_uart_t) (s t : list Z) :
  cstring s = Some t →
  ∃ U',
    neorv32_uart_puts U s = Some U'
    ∧ TX U' = TX U ++ crlf t
    ∧ CTRL U' = CTRL U ∧ RX U' = RX U
    ∧ (NUL ∉ crlf t)
    ∧ length (crlf t) = (length t + length (filter (λ c, c = LF) t))%nat.
Proof.
  intros Hs. exists (transmit U (crlf t)).
  split; [by apply puts_cstring |]. split_and!; try done.
  - apply crlf_no_NUL. apply cstring_Some_split in Hs as [Ht _].
    intros Hin. by apply (Forall_forall _ _ ) with (x := NUL) in Ht.
  - clear Hs. induction t as [| c t IH]; [done |].
    cbn [crlf]. rewrite length_app, IH.
    destruct (Z.eqb_spec c LF) as [-> | Hc].
    + rewrite filter_cons_True by done. simpl. lia.
    + rewrite filter_cons_False by done. simpl. lia.
Qed.

Lemma puts_sends_string_witness :
  ∃ U',
    neorv32_uart_puts (Uart [] [] []) (bytes "ok" ++ LF :: literal "!")
    = Some U'
    ∧ TX U' = TX (Uart [] [] []) ++ crlf (bytes "ok" ++ LF :: bytes "!")
    ∧ CTRL U' = CTRL (Uart [] [] []) ∧ RX U' = RX (Uart [] [] [])
    ∧ (NUL ∉ crlf (bytes "ok" ++ LF :: bytes "!"))
    ∧ length (crlf (bytes "ok" ++ LF :: bytes "!"))
      = (length (bytes "ok" ++ LF :: bytes "!")
         + length (filter (λ c, c = LF) (bytes "ok" ++ LF :: bytes "!")))%nat.
Proof.
  apply (puts_sends_string (Uart [] [] []) (bytes "ok" ++ LF :: literal "!")
           (bytes "ok" ++ LF :: bytes "!")).
  reflexivity.
Defined.

(** X2: [neorv32_uart_puts] returns exactly when the memory it is given
    holds a NUL byte; without one it reads past the end of that memory. *)
Theorem puts_needs_terminator (U : neorv32_uart_t) (s : list Z) :
  neorv32_uart_puts U s = None ↔ NUL ∉ s.
Proof.
  rewrite <- cstring_None. split.
  - intros Hputs. destruct (cstring s) as [t |] eqn:Hs; [| done].
    by rewrite (puts_cstring s t U Hs) in Hputs.
  - apply puts_None.
Qed.

(** X3: sending a string that starts with the NUL-free bytes [s1] is
    sending [s1] and then the rest: the output of the first part is
    complete before the second part is read. *)
Theorem puts_app (U : neorv32_uart_t) (s1 s2 : list Z) :
  NUL ∉ s1 →
  neorv32_uart_puts U (s1 ++ s2)
  = neorv32_uart_puts (transmit U (crlf s1)) s2.
Proof.
  revert U. induction s1 as [| c s1 IH]; intros U Hs1.
  - simpl. by rewrite transmit_nil.
  - apply not_elem_of_cons in Hs1 as [Hc Hs1].
    cbn [app neorv32_uart_puts crlf].
    destruct (Z.eqb_spec c NUL); [done |].
    rewrite IH by done. rewrite !putc_transmit.
    destruct (c =? LF); by rewrite !transmit_transmit.
Qed.

Lemma puts_app_witness :
  neorv32_uart_puts (Uart [] [] []) (bytes "ab" ++ literal "cd")
  = neorv32_uart_puts (transmit (Uart [] [] []) (crlf (bytes "ab")))
      (literal "cd").
Proof.
  apply (puts_app (Uart [] [] []) (bytes "ab") (literal "cd")).
  apply cstring_None. reflexivity.
Defined.

Lemma crlf_LF_after_CR (t : list Z) (i : nat) :
  crlf t !! i = Some LF → ∃ j, i = S j ∧ crlf t !! j = Some CR.
Proof.
  revert i. induction t as [| c t IH]; intros i; [done |].
  cbn [crlf]. destruct (Z.eqb_spec c LF) as [-> | Hc].
  - destruct i as [| [| i]]; simpl.
    + done.
    + intros _. by exists 0%nat.
    + intros Hi. destruct (IH i Hi) as (j & -> & Hj). by exists (S (S j)).
  - destruct i as [| i]; simpl.
    + by intros [= ->].
    + intros Hi. destruct (IH i Hi) as (j & -> & Hj). by exists (S j).
Qed.

(** X4: in what [neorv32_uart_puts] sends, every line feed comes directly
    after a carriage return: no bare line feed reaches the terminal. *)
Theorem puts_no_bare_LF (U : neorv32_uart_t) (s t : list Z) :
  cstring s = Some t →
  ∃ out,
    neorv32_uart_puts U s = Some (transmit U out)
    ∧ ∀ i : nat, out !! i = Some LF →
        ∃ j : nat, i = S j ∧ out !! j = Some CR.
Proof.
  intros Hs. exists (crlf t). split; [by apply puts_cstring |].
  apply crlf_LF_after_CR.
Qed.

Lemma puts_no_bare_LF_witness :
  ∃ out,
    neorv32_uart_puts (Uart [] [] []) (LF :: LF :: literal "x")
    = Some (transmit (Uart [] [] []) out)
    ∧ ∀ i : nat, out !! i = Some LF →
        ∃ j : nat, i = S j ∧ out !! j = Some CR.
Proof.
  apply (puts_no_bare_LF (Uart [] [] []) (LF :: LF :: literal "x")
           (LF :: LF :: bytes "x")).
  reflexivity.
Defined.

(* ===================================================================== *)
(** * The converters and their buffers *)
(* ===================================================================== *)

(** X5: the decimal converter writes within the first eleven bytes of
    [res] only: the length of the array and everything from index 11 on
    stay as they were, and index 10 holds a NUL afterwards. *)
Theorem itoa_footprint (buffer1 res : list Z) (x : Z) :
  length buffer1 = 11%nat → (11 <= length res)%nat →
  ∃ res',
    __neorv32_uart_itoa buffer1 x res = Some res'
    ∧ length res' = length res
    ∧ drop 11 res' = drop 11 res
    ∧ res' !! 10%nat = Some NUL.
Proof.
  intros Hb Hres. eexists. split; [by apply itoa_eq |].
  pose proof (decimal_length x) as Hlen.
  set (d := decimal x) in *. set (n := length d) in *.
  split_and!.
  - rewrite length_app. simpl. rewrite length_drop, length_insert. lia.
  - rewrite drop_app_ge by lia. fold n.
    replace (11 - n)%nat with (S (10 - n)) by lia. simpl.
    rewrite drop_drop.
    replace (S n + (10 - n))%nat with 11%nat by lia.
    by rewrite drop_insert_lt by lia.
  - rewrite lookup_app_r by lia. fold n.
    destruct (decide (n = 10%nat)) as [-> | Hn]; [done |].
    replace (10 - n)%nat with (S (9 - n)) by lia. simpl.
    rewrite lookup_drop.
    replace (S n + (9 - n))%nat with 10%nat by lia.
    apply list_lookup_insert_eq. lia.
Qed.

Lemma itoa_footprint_witness :
  ∃ res',
    __neorv32_uart_itoa (replicate 11 7) 4294967295 (replicate 12 9) = Some res'
    ∧ length res' = length (replicate 12 9)
    ∧ drop 11 res' = drop 11 (replicate 12 9)
    ∧ res' !! 10%nat = Some NUL.
Proof.
  apply (itoa_footprint (replicate 11 7) (replicate 12 9) 4294967295);
    [reflexivity | simpl; lia].
Defined.

(** X6: what the local array [buffer1] holds on entry has no influence on
    the result of the decimal converter, and what [res] held before has none
    on the string it holds afterwards: no uninitialised byte is read. *)
Theorem itoa_ignores_junk (buffer1 buffer1' res res2 : list Z) (x : Z) :
  length buffer1 = 11%nat → length buffer1' = 11%nat →
  (11 <= length res)%nat → (11 <= length res2)%nat →
  ∃ r r2,
    __neorv32_uart_itoa buffer1 x res = Some r
    ∧ __neorv32_uart_itoa buffer1' x res = Some r
    ∧ __neorv32_uart_itoa buffer1' x res2 = Some r2
    ∧ cstring r2 = cstring r.
Proof.
  intros Hb Hb' Hres Hres2. eexists _, _.
  split; [by apply itoa_eq |]. split; [by apply itoa_eq |].
  split; [by apply itoa_eq |].
  assert (Forall (λ c, c ≠ NUL) (decimal x)) as Hnz.
  { eapply Forall_impl; [apply decimal_digits |].
    intros c. change (chr "0") with 48. unfold NUL. lia. }
  by rewrite !cstring_app.
Qed.

Lemma itoa_ignores_junk_witness :
  ∃ r r2,
    __neorv32_uart_itoa (replicate 11 7) 305 (replicate 12 9) = Some r
    ∧ __neorv32_uart_itoa (replicate 11 48) 305 (replicate 12 9) = Some r
    ∧ __neorv32_uart_itoa (replicate 11 48) 305 (replicate 11 0) = Some r2
    ∧ cstring r2 = cstring r.
Proof.
  apply (itoa_ignores_junk (replicate 11 7) (replicate 11 48)
           (replicate 12 9) (replicate 11 0) 305);
    reflexivity || (simpl; lia).
Defined.

Lemma decimal_digit_Some (c d : Z) :
  decimal_digit c = Some d → 48 <= c <= 57 ∧ d = c - 48.
Proof.
  unfold decimal_digit. change (chr "0") with 48. change (chr "9") with 57.
  destruct (Z.leb_spec 48 c), (Z.leb_spec c 57); simpl; try done.
  intros [= <-]. lia.
Qed.

Lemma parse_digits_bound (s : list Z) (acc v : Z) :
  0 <= acc →
  parse_digits decimal_digit 10 acc s = Some v →
  10 ^ Z.of_nat (length s) * acc <= v
  < 10 ^ Z.of_nat (length s) * (acc + 1).
Proof.
  revert acc v. induction s as [| c s IH]; intros acc v Hacc.
  - simpl. intros [= <-]. lia.
  - cbn [parse_digits].
    destruct (decimal_digit c) as [d |] eqn:Hd; [| done].
    apply decimal_digit_Some in Hd as [Hc ->]. cbn [mbind option_bind].
    intros Hv. apply IH in Hv; [| lia].
    rewrite length_cons, Nat2Z.inj_succ, Z.pow_succ_r by lia.
    assert (0 < 10 ^ Z.of_nat (length s)) by (apply Z.pow_pos_nonneg; lia).
    nia.
Qed.

(** X7: for a value that is not zero the decimal converter produces as many
    digits as the value has: with [k] digits written,
    10^(k-1) <= x < 10^k. *)
Theorem itoa_digit_count (buffer1 res : list Z) (x : Z) :
  0 < x < 2^32 → length buffer1 = 11%nat → (11 <= length res)%nat →
  ∃ res' s,
    __neorv32_uart_itoa buffer1 x res = Some res'
    ∧ cstring res' = Some s
    ∧ 10 ^ (Z.of_nat (length s) - 1) <= x < 10 ^ Z.of_nat (length s).
Proof.
  intros Hx Hb Hres. eexists _, (decimal x).
  split; [by apply itoa_eq |]. split.
  { apply cstring_app. eapply Forall_impl; [apply decimal_digits |].
    intros c. change (chr "0") with 48. unfold NUL. lia. }
  pose proof (parse_decimal_decimal x ltac:(lia)) as Hparse.
  pose proof (decimal_digits x) as Hdigits.
  pose proof (skip_zeros_head (rev (decimal_lsb 10 x))) as Hhead.
  fold (decimal x) in Hhead.
  destruct (decimal x) as [| c s] eqn:Hd; [done |].
  unfold parse_decimal in Hparse. cbn [parse_digits] in Hparse.
  apply Forall_cons in Hdigits as [Hc _].
  assert (c ≠ chr "0") as Hc0.
  { intros ->. specialize (Hhead eq_refl). injection Hhead as ->.
    simpl in Hparse. injection Hparse as <-. lia. }
  destruct (decimal_digit c) as [d |] eqn:Hdc; [| done].
  apply decimal_digit_Some in Hdc as [Hc' ->].
  cbn [mbind option_bind] in Hparse.
  revert Hc0. change (chr "0") with 48. intros Hc0.
  apply parse_digits_bound in Hparse; [| lia].
  rewrite length_cons, Nat2Z.inj_succ, Z.pow_succ_r by lia.
  replace (Z.succ (Z.of_nat (length s)) - 1) with (Z.of_nat (length s)) by lia.
  assert (0 < 10 ^ Z.of_nat (length s)) by (apply Z.pow_pos_nonneg; lia).
  nia.
Qed.

Lemma itoa_digit_count_witness :
  ∃ res' s,
    __neorv32_uart_itoa (replicate 11 7) 1000 (replicate 12 9) = Some res'
    ∧ cstring res' = Some s
    ∧ 10 ^ (Z.of_nat (length s) - 1) <= 1000 < 10 ^ Z.of_nat (length s).
Proof.
  apply (itoa_digit_count (replicate 11 7) (replicate 12 9) 1000);
    [lia | reflexivity | simpl; lia].
Defined.

(** X8: the hexadecimal converter writes the first nine bytes of [res]
    only: the length of the array and everything from index 9 on stay as
    they were. *)
Theorem tohex_footprint (x : Z) (res : list Z) :
  (9 <= length res)%nat →
  ∃ res',
    __neorv32_uart_tohex x res = Some res'
    ∧ length res' = length res
    ∧ drop 9 res' = drop 9 res
    ∧ res' !! 8%nat = Some NUL.
Proof.
  intros Hres. eexists. split; [by apply tohex_eq |].
  pose proof (hex_length x) as Hlen. split_and!.
  - rewrite length_app, Hlen. simpl. rewrite length_drop. lia.
  - rewrite drop_app_ge, Hlen by lia. done.
  - rewrite lookup_app_r, Hlen by lia. done.
Qed.

Lemma tohex_footprint_witness :
  ∃ res',
    __neorv32_uart_tohex 255 (replicate 12 9) = Some res'
    ∧ length res' = length (replicate 12 9)
    ∧ drop 9 res' = drop 9 (replicate 12 9)
    ∧ res' !! 8%nat = Some NUL.
Proof. apply (tohex_footprint 255 (replicate 12 9)). simpl. lia. Defined.

(** X9: both converters write their fixed slots whatever the value: with
    fewer than eleven bytes the decimal converter, and with fewer than nine
    the hexadecimal converter, writes out of bounds, also for the value 0. *)
Theorem converters_need_room (buffer1 res : list Z) (x : Z) :
  ((length res < 11)%nat → __neorv32_uart_itoa buffer1 x res = None)
  ∧ ((length res < 9)%nat → __neorv32_uart_tohex x res = None).
Proof.
  split; intros Hres.
  - unfold __neorv32_uart_itoa.
    destruct (store buffer1 10 NUL); [| done]. cbn [mbind option_bind].
    by rewrite (store_out_of_bounds res 10) by lia.
  - unfold __neorv32_uart_tohex.
    destruct (decide (length res = 8%nat)) as [Hlen | Hlen].
    + rewrite (tohex_loop_spec 8 0) by (done || lia).
      cbn [mbind option_bind]. apply store_out_of_bounds.
      rewrite length_app, length_rev, hex_lsb_length, length_drop. lia.
    + rewrite (tohex_loop_unfold 7 0) by lia.
      rewrite load_symbols by apply land_15_bound.
      cbn [mbind option_bind].
      by rewrite (store_out_of_bounds res (7 - 0)) by lia.
Qed.

Lemma converters_need_room_witness :
  __neorv32_uart_itoa (replicate 11 7) 0 (replicate 10 9) = None
  ∧ __neorv32_uart_tohex 0 (replicate 8 9) = None.
Proof.
  destruct (converters_need_room (replicate 11 7) (replicate 10 9) 0) as [H1 _].
  destruct (converters_need_room (replicate 11 7) (replicate 8 9) 0) as [_ H2].
  split; [apply H1 | apply H2]; simpl; lia.
Defined.

(* ===================================================================== *)
(** * The format engine against its expansion *)
(* ===================================================================== *)

Lemma int32_range (w : Z) : - 2^31 <= int32_t w < 2^31.
Proof.
  unfold int32_t. pose proof (Z.mod_pos_bound (w + 2^31) (2^32)). lia.
Qed.

Lemma char_int32 (w : Z) : char (int32_t w) = char w.
Proof.
  unfold char, int32_t.
  change (2^8) with 256. change (2^31) with 2147483648.
  change (2^32) with 4294967296.
  Z.to_euclidean_division_equations. lia.
Qed.

Lemma directive_output_unknown (c : Z) (args : va_list) :
  c ∉ directive_chars → directive_output c args = Some ([chr "%"; c], args).
Proof.
  intros Hc. unfold directive_chars in Hc.
  cbn [bytes fmap list_fmap list_ascii_of_string] in Hc.
  rewrite !not_elem_of_cons in Hc.
  destruct Hc as (Hs & Hch & Hi & Hd & Hu & Hp & Hx & HX & Hpc & _).
  unfold directive_output.
  repeat match goal with
         | |- context [?a =? ?b] => destruct (Z.eqb_spec a b); [done |]
         end.
  done.
Qed.

Lemma directive_chars_cases (c : Z) :
  c = chr "s" ∨ c = chr "c" ∨ c = chr "i" ∨ c = chr "d" ∨ c = chr "u"
  ∨ c = chr "p" ∨ c = chr "x" ∨ c = chr "X" ∨ c = chr "%"
  ∨ c ∉ directive_chars.
Proof.
  destruct (decide (c ∈ directive_chars)) as [Hc | Hc]; [| tauto].
  unfold directive_chars in Hc.
  cbn [bytes fmap list_fmap list_ascii_of_string] in Hc.
  rewrite !elem_of_cons in Hc. rewrite elem_of_nil in Hc. tauto.
Qed.

Section format_engine_output.

Variable buffer1 : list Z.
Hypothesis buffer1_size : length buffer1 = 11%nat.

(** Each case of the switch sends the expansion of its directive and leaves
    [string_buf] twelve bytes long. *)
Lemma vprintf_directive_output (c : Z) (st : vprintf_state) :
  length (v_string_buf st) = 12%nat →
  match directive_output c (v_args st) with
  | Some (out, args') =>
      ∃ sb', length sb' = 12%nat
        ∧ vprintf_directive buffer1 c st
          = Some (VState (transmit (v_uart st) out) args' sb')
  | None => vprintf_directive buffer1 c st = None
  end.
Proof.
  destruct st as [U args sb]. cbn [v_string_buf v_args v_uart]. intros Hsb.
  destruct (directive_chars_cases c)
    as [-> | [-> | [-> | [-> | [-> | [-> | [-> | [-> | [-> | Hc]]]]]]]]].
  - (* %s *)
    destruct args as [| [w | s] args]; [done | done |].
    change (directive_output (chr "s") (va_ptr s :: args))
      with (t ← cstring s; Some (crlf t, args)).
    change (vprintf_directive buffer1 (chr "s") (VState U (va_ptr s :: args) sb))
      with (UARTx ← neorv32_uart_puts U s; Some (VState UARTx args sb)).
    destruct (cstring s) as [t |] eqn:Hs; cbn [mbind option_bind].
    + rewrite (puts_cstring s t U Hs). cbn [mbind option_bind]. eauto.
    + by rewrite (puts_None U s Hs).
  - (* %c *)
    destruct args as [| [w | s] args]; [done | | done].
    change (directive_output (chr "c") (va_word w :: args))
      with (Some ([char w], args)).
    change (vprintf_directive buffer1 (chr "c") (VState U (va_word w :: args) sb))
      with (Some (VState (neorv32_uart_putc U (char (int32_t w))) args sb)).
    rewrite char_int32, putc_transmit. eauto.
  - (* %i *)
    destruct args as [| [w | s] args]; [done | | done].
    change (directive_output (chr "i") (va_word w :: args))
      with (Some (signed_decimal w, args)).
    rewrite directive_signed by auto. unfold signed_decimal.
    pose proof (int32_range w) as Hn.
    destruct (Z.ltb_spec (int32_t w) 0).
    + rewrite negated_magnitude by lia.
      eexists. split; [| done]. by apply (after_itoa_length buffer1).
    + rewrite uint32_small by lia.
      eexists. split; [| done]. by apply (after_itoa_length buffer1).
  - (* %d *)
    destruct args as [| [w | s] args]; [done | | done].
    change (directive_output (chr "d") (va_word w :: args))
      with (Some (signed_decimal w, args)).
    rewrite directive_signed by auto. unfold signed_decimal.
    pose proof (int32_range w) as Hn.
    destruct (Z.ltb_spec (int32_t w) 0).
    + rewrite negated_magnitude by lia.
      eexists. split; [| done]. by apply (after_itoa_length buffer1).
    + rewrite uint32_small by lia.
      eexists. split; [| done]. by apply (after_itoa_length buffer1).
  - (* %u *)
    destruct args as [| [w | s] args]; [done | | done].
    change (directive_output (chr "u") (va_word w :: args))
      with (Some (decimal (uint32_t w), args)).
    rewrite directive_unsigned by done.
    eexists. split; [| done]. by apply (after_itoa_length buffer1).
  - (* %p *)
    destruct args as [| [w | s] args]; [done | | done].
    change (directive_output (chr "p") (va_word w :: args))
      with (Some (hex (uint32_t w), args)).
    rewrite directive_hex by auto.
    eexists. split; [| done]. by apply (after_tohex_length buffer1).
  - (* %x *)
    destruct args as [| [w | s] args]; [done | | done].
    change (directive_output (chr "x") (va_word w :: args))
      with (Some (hex (uint32_t w), args)).
    rewrite directive_hex by auto.
    eexists. split; [| done]. by apply (after_tohex_length buffer1).
  - (* %X *)
    destruct args as [| [w | s] args]; [done | | done].
    change (directive_output (chr "X") (va_word w :: args))
      with (Some (upper <$> hex (uint32_t w), args)).
    destruct (directive_upper_hex buffer1 buffer1_size U w args sb Hsb)
      as (sb' & Hsb' & ->).
    eauto.
  - (* %% *)
    exists sb. split; [done |]. by rewrite <- putc_transmit.
  - rewrite directive_output_unknown by done.
    exists sb. split; [done |]. by rewrite directive_unknown.
Qed.

Lemma vprintf_loop_output (n : nat) (format : list Z) (st : vprintf_state) :
  (length format <= n)%nat → length (v_string_buf st) = 12%nat →
  v_uart <$> vprintf_loop buffer1 format st
  = transmit (v_uart st) <$> format_output format (v_args st).
Proof.
  revert format st. induction n as [| n IH]; intros format st Hn Hsb.
  { destruct format; [done | simpl in Hn; lia]. }
  destruct format as [| c format]; [done |].
  cbn [vprintf_loop format_output].
  destruct (Z.eqb_spec c NUL) as [| Hnul].
  { simpl. by rewrite transmit_nil. }
  destruct (Z.eqb_spec c (chr "%")) as [-> | Hpc].
  - destruct format as [| d format]; [done |].
    pose proof (vprintf_directive_output d st Hsb) as Hdir.
    destruct (directive_output d (v_args st)) as [[out args'] |].
    + destruct Hdir as (sb' & Hsb' & ->). cbn [mbind option_bind].
      rewrite IH by (done || (simpl in Hn; lia)).
      cbn [v_uart v_args].
      destruct (format_output format args') as [rest |]; [| done].
      simpl. by rewrite transmit_transmit.
    + by rewrite Hdir.
  - rewrite IH by (done || (simpl in Hn; lia)).
    cbn [v_uart v_args].
    destruct (format_output format (v_args st)) as [rest |]; [| done].
    simpl. rewrite !putc_transmit.
    destruct (c =? LF); by rewrite !transmit_transmit.
Qed.

End format_engine_output.

(** The format engine sends the expansion of its format string. *)
Lemma vprintf_format_output (buffer1 string_buf : list Z) (U : neorv32_uart_t)
    (format : list Z) (args : va_list) :
  length buffer1 = 11%nat → length string_buf = 12%nat →
  neorv32_uart_vprintf buffer1 string_buf U format args
  = transmit U <$> format_output format args.
Proof.
  intros Hb Hsb. unfold neorv32_uart_vprintf.
  by rewrite (vprintf_loop_output buffer1 Hb (length format)).
Qed.

(** X10: with the twelve bytes of [string_buf] the format engine does
    exactly what the expansion says: it returns when [format_output] has a
    value, has then sent that text behind what was sent before and changed
    nothing else of the device, and it does not return otherwise.  No
    conversion overruns [string_buf]. *)
Theorem vprintf_expansion (buffer1 string_buf : list Z) (U : neorv32_uart_t)
    (format : list Z) (args : va_list) :
  length buffer1 = 11%nat → length string_buf = 12%nat →
  neorv32_uart_vprintf buffer1 string_buf U format args
  = transmit U <$> format_output format args.
Proof.
  intros Hb Hsb. by apply vprintf_format_output.
Qed.

Lemma vprintf_expansion_witness :
  neorv32_uart_vprintf (replicate 11 7) (replicate 12 9) (Uart [] [] [])
    (literal "%s=%d (%X)") [va_ptr (literal "n"); va_word 7; va_word 7]
  = transmit (Uart [] [] [])
      <$> format_output (literal "%s=%d (%X)")
            [va_ptr (literal "n"); va_word 7; va_word 7].
Proof.
  apply (vprintf_expansion (replicate 11 7) (replicate 12 9) (Uart [] [] [])
           (literal "%s=%d (%X)")
           [va_ptr (literal "n"); va_word 7; va_word 7]);
    reflexivity.
Defined.

(* ===================================================================== *)
(** * The format engine, directive by directive *)
(* ===================================================================== *)

(** One directive: the engine sends its expansion and goes on with the rest
    of the format string and of the arguments. *)
Lemma vprintf_directive_step (buffer1 string_buf : list Z)
    (U : neorv32_uart_t) (c : Z) (format : list Z) (args args' : va_list)
    (out : list Z) :
  length buffer1 = 11%nat → length string_buf = 12%nat →
  directive_output c args = Some (out, args') →
  neorv32_uart_vprintf buffer1 string_buf U (chr "%" :: c :: format) args
  = neorv32_uart_vprintf buffer1 string_buf (transmit U out) format args'.
Proof.
  intros Hb Hsb Hout. rewrite !vprintf_format_output by done.
  change (format_output (chr "%" :: c :: format) args)
    with ('(out, args) ← directive_output c args;
          (out ++.) <$> format_output format args).
  rewrite Hout. cbn [mbind option_bind].
  destruct (format_output format args') as [rest |]; [| done].
  cbn [fmap option_fmap option_map]. by rewrite transmit_transmit.
Qed.

(** C3: the format engine expands each directive as specified and passes an
    unknown directive through.  The examples: "%d" with -5 gives "-5", "%u"
    with 5 gives "5", "%x" with 255 gives "000000ff", "%X" with 255 gives
    "000000FF", "%%" gives "%", "%q" gives "%q", and "a\nb" gives "a\r\nb".
    In general, at any place of any format string and for every argument:
    %s sends the string it is given up to its terminator, line feeds
    expanded; %c sends the low byte of its argument; %d and %i send the
    decimal digits of the argument read as a signed number, after a minus
    sign when it is negative; %u sends the decimal digits of the unsigned
    argument; %x and %p send its eight lowercase hexadecimal digits; %X
    sends these digits case-folded; %% sends one percent sign; a percent
    sign followed by a character that selects no directive is sent as these
    two bytes; and every other character is copied with a line feed
    expanded to carriage return, line feed.  After each of them the engine
    goes on with the rest of the format and the remaining arguments. *)
Theorem vprintf_expansions (buffer1 string_buf : list Z) (U : neorv32_uart_t) :
  length buffer1 = 11%nat → length string_buf = 12%nat →
  let printf := neorv32_uart_printf buffer1 string_buf in
  printf U (literal "%d") [va_word (uint32_t (-5))]
    = Some (transmit U (bytes "-5"))
  ∧ printf U (literal "%u") [va_word 5] = Some (transmit U (bytes "5"))
  ∧ printf U (literal "%x") [va_word 255]
    = Some (transmit U (bytes "000000ff"))
  ∧ printf U (literal "%X") [va_word 255]
    = Some (transmit U (bytes "000000FF"))
  ∧ printf U (literal "%%") [] = Some (transmit U (bytes "%"))
  ∧ printf U (literal "%q") [] = Some (transmit U (bytes "%q"))
  ∧ printf U (bytes "a" ++ LF :: literal "b") []
    = Some (transmit U (bytes "a" ++ [CR; LF] ++ bytes "b"))
  ∧ (∀ s t format args, cstring s = Some t →
       printf U (chr "%" :: chr "s" :: format) (va_ptr s :: args)
       = printf (transmit U (crlf t)) format args)
  ∧ (∀ w format args,
       printf U (chr "%" :: chr "c" :: format) (va_word w :: args)
       = printf (transmit U [char w]) format args)
  ∧ (∀ c w format args, c = chr "d" ∨ c = chr "i" →
       printf U (chr "%" :: c :: format) (va_word w :: args)
       = printf (transmit U (if int32_t w <? 0
                             then chr "-" :: decimal (- int32_t w)
                             else decimal (int32_t w)))
           format args)
  ∧ (∀ w format args,
       printf U (chr "%" :: chr "u" :: format) (va_word w :: args)
       = printf (transmit U (decimal (uint32_t w))) format args)
  ∧ (∀ c w format args, c = chr "x" ∨ c = chr "p" →
       printf U (chr "%" :: c :: format) (va_word w :: args)
       = printf (transmit U (hex (uint32_t w))) format args)
  ∧ (∀ w format args,
       printf U (chr "%" :: chr "X" :: format) (va_word w :: args)
       = printf (transmit U (upper <$> hex (uint32_t w))) format args)
  ∧ (∀ format args,
       printf U (chr "%" :: chr "%" :: format) args
       = printf (transmit U [chr "%"]) format args)
  ∧ (∀ c format args, c ∉ directive_chars →
       printf U (chr "%" :: c :: format) args
       = printf (transmit U [chr "%"; c]) format args)
  ∧ (∀ c format args, c ≠ NUL → c ≠ chr "%" →
       printf U (c :: format) args
       = printf (transmit U (if c =? LF then [CR; LF] else [c])) format args).
Proof.
  intros Hb Hsb printf. subst printf. unfold neorv32_uart_printf.
  split_and!.
  - unfold neorv32_uart_vprintf.
    change (literal "%d") with (chr "%" :: chr "d" :: [NUL]).
    rewrite vprintf_loop_directive, directive_signed by (done || auto).
    reflexivity.
  - unfold neorv32_uart_vprintf.
    change (literal "%u") with (chr "%" :: chr "u" :: [NUL]).
    rewrite vprintf_loop_directive, directive_unsigned by done.
    reflexivity.
  - unfold neorv32_uart_vprintf.
    change (literal "%x") with (chr "%" :: chr "x" :: [NUL]).
    rewrite vprintf_loop_directive, directive_hex by (done || auto).
    reflexivity.
  - unfold neorv32_uart_vprintf.
    change (literal "%X") with (chr "%" :: chr "X" :: [NUL]).
    rewrite vprintf_loop_directive.
    destruct (directive_upper_hex buffer1 Hb U 255 [] string_buf Hsb)
      as (sb' & _ & ->).
    reflexivity.
  - reflexivity.
  - unfold neorv32_uart_vprintf.
    change (literal "%q") with (chr "%" :: chr "q" :: [NUL]).
    rewrite vprintf_loop_directive, directive_unknown; [done |].
    unfold directive_chars. cbn [bytes fmap list_fmap list_ascii_of_string].
    rewrite !not_elem_of_cons. split_and!; try done. apply not_elem_of_nil.
  - unfold neorv32_uart_vprintf.
    change (bytes "a" ++ LF :: literal "b")
      with (chr "a" :: LF :: chr "b" :: [NUL]).
    rewrite !vprintf_loop_char by done.
    cbn [crlf v_uart v_args v_string_buf]. by rewrite !transmit_transmit.
  - intros s t format args Hs.
    apply vprintf_directive_step; [done | done |].
    change (directive_output (chr "s") (va_ptr s :: args))
      with (t ← cstring s; Some (crlf t, args)).
    by rewrite Hs.
  - intros w format args. by apply vprintf_directive_step.
  - intros c w format args [-> | ->]; by apply vprintf_directive_step.
  - intros w format args. by apply vprintf_directive_step.
  - intros c w format args [-> | ->]; by apply vprintf_directive_step.
  - intros w format args. by apply vprintf_directive_step.
  - intros format args. by apply vprintf_directive_step.
  - intros c format args Hc. unfold neorv32_uart_vprintf.
    by rewrite vprintf_loop_directive, directive_unknown by done.
  - intros c format args Hnul Hpc. unfold neorv32_uart_vprintf.
    rewrite vprintf_loop_char by done. cbn [crlf v_uart v_args v_string_buf].
    destruct (c =? LF) eqn:Hlf; [| done].
    apply Z.eqb_eq in Hlf as ->. done.
Qed.

Lemma vprintf_expansions_witness :
  let printf := neorv32_uart_printf (replicate 11 7) (replicate 12 9) in
  let U := Uart [] [] [] in
  printf U (literal "%d") [va_word (uint32_t (-5))]
    = Some (transmit U (bytes "-5"))
  ∧ printf U (literal "%u") [va_word 5] = Some (transmit U (bytes "5"))
  ∧ printf U (literal "%x") [va_word 255]
    = Some (transmit U (bytes "000000ff"))
  ∧ printf U (literal "%X") [va_word 255]
    = Some (transmit U (bytes "000000FF"))
  ∧ printf U (literal "%%") [] = Some (transmit U (bytes "%"))
  ∧ printf U (literal "%q") [] = Some (transmit U (bytes "%q"))
  ∧ printf U (bytes "a" ++ LF :: literal "b") []
    = Some (transmit U (bytes "a" ++ [CR; LF] ++ bytes "b"))
  ∧ (∀ s t format args, cstring s = Some t →
       printf U (chr "%" :: chr "s" :: format) (va_ptr s :: args)
       = printf (transmit U (crlf t)) format args)
  ∧ (∀ w format args,
       printf U (chr "%" :: chr "c" :: format) (va_word w :: args)
       = printf (transmit U [char w]) format args)
  ∧ (∀ c w format args, c = chr "d" ∨ c = chr "i" →
       printf U (chr "%" :: c :: format) (va_word w :: args)
       = printf (transmit U (if int32_t w <? 0
                             then chr "-" :: decimal (- int32_t w)
                             else decimal (int32_t w)))
           format args)
  ∧ (∀ w format args,
       printf U (chr "%" :: chr "u" :: format) (va_word w :: args)
       = printf (transmit U (decimal (uint32_t w))) format args)
  ∧ (∀ c w format args, c = chr "x" ∨ c = chr "p" →
       printf U (chr "%" :: c :: format) (va_word w :: args)
       = printf (transmit U (hex (uint32_t w))) format args)
  ∧ (∀ w format args,
       printf U (chr "%" :: chr "X" :: format) (va_word w :: args)
       = printf (transmit U (upper <$> hex (uint32_t w))) format args)
  ∧ (∀ format args,
       printf U (chr "%" :: chr "%" :: format) args
       = printf (transmit U [chr "%"]) format args)
  ∧ (∀ c format args, c ∉ directive_chars →
       printf U (chr "%" :: c :: format) args
       = printf (transmit U [chr "%"; c]) format args)
  ∧ (∀ c format args, c ≠ NUL → c ≠ chr "%" →
       printf U (c :: format) args
       = printf (transmit U (if c =? LF then [CR; LF] else [c])) format args).
Proof.
  apply (vprintf_expansions (replicate 11 7) (replicate 12 9) (Uart [] [] []));
    reflexivity.
Defined.

Lemma vprintf_loop_plain (buffer1 format : list Z) (st : vprintf_state) :
  chr "%" ∉ format →
  v_uart <$> vprintf_loop buffer1 format st
  = neorv32_uart_puts (v_uart st) format.
Proof.
  revert st. induction format as [| c format IH]; intros st Hpc; [done |].
  apply not_elem_of_cons in Hpc as [Hc Hpc].
  cbn [vprintf_loop neorv32_uart_puts].
  destruct (Z.eqb_spec c NUL); [done |].
  destruct (Z.eqb_spec c (chr "%")); [done |].
  by rewrite IH.
Qed.

(** X11: for a format string without a percent sign the format engine is
    [neorv32_uart_puts]: the same bytes are sent, the arguments are not
    looked at, and a format without terminator is read past its end by
    both. *)
Theorem vprintf_plain_text (buffer1 string_buf : list Z) (U : neorv32_uart_t)
    (format : list Z) (args : va_list) :
  chr "%" ∉ format →
  neorv32_uart_vprintf buffer1 string_buf U format args
  = neorv32_uart_puts U format.
Proof. intros Hpc. by apply vprintf_loop_plain. Qed.

Lemma vprintf_plain_text_witness :
  neorv32_uart_vprintf (replicate 11 7) (replicate 12 9) (Uart [] [] [])
    (bytes "up" ++ LF :: literal "down") [va_word 1]
  = neorv32_uart_puts (Uart [] [] []) (bytes "up" ++ LF :: literal "down").
Proof.
  apply (vprintf_plain_text (replicate 11 7) (replicate 12 9) (Uart [] [] [])
           (bytes "up" ++ LF :: literal "down") [va_word 1]).
  intros Hin. apply list_elem_of_In in Hin. simpl in Hin.
  repeat (destruct Hin as [Hin | Hin]; [discriminate |]). exact Hin.
Defined.

(** X12: printing a string with "%s" is [neorv32_uart_puts] of that string,
    also when the string has no terminator. *)
Theorem vprintf_string (buffer1 string_buf : list Z) (U : neorv32_uart_t)
    (s : list Z) :
  neorv32_uart_printf buffer1 string_buf U (literal "%s") [va_ptr s]
  = neorv32_uart_puts U s.
Proof.
  unfold neorv32_uart_printf, neorv32_uart_vprintf.
  change (literal "%s") with (chr "%" :: chr "s" :: [NUL]).
  rewrite vprintf_loop_directive.
  change (vprintf_directive buffer1 (chr "s")
            (VState U [va_ptr s] string_buf))
    with (UARTx ← neorv32_uart_puts U s; Some (VState UARTx [] string_buf)).
  by destruct (neorv32_uart_puts U s).
Qed.

(** X13: "%c" sends the low byte of its argument as it is: one byte, and
    for a line feed no carriage return before it, unlike a line feed in the
    format string itself. *)
Theorem vprintf_char_raw (buffer1 string_buf : list Z) (U : neorv32_uart_t)
    (w : Z) (format : list Z) (args : va_list) :
  neorv32_uart_vprintf buffer1 string_buf U
    (chr "%" :: chr "c" :: format) (va_word w :: args)
  = neorv32_uart_vprintf buffer1 string_buf (transmit U [w mod 2^8])
      format args
  ∧ neorv32_uart_vprintf buffer1 string_buf U (LF :: format) args
    = neorv32_uart_vprintf buffer1 string_buf (transmit U [CR; LF])
        format args.
Proof.
  unfold neorv32_uart_vprintf. split.
  - rewrite vprintf_loop_directive.
    change (vprintf_directive buffer1 (chr "c")
              (VState U (va_word w :: args) string_buf))
      with (Some (VState (neorv32_uart_putc U (char (int32_t w))) args
                    string_buf)).
    by rewrite char_int32, putc_transmit.
  - by rewrite vprintf_loop_char.
Qed.

(** X14: %i is %d and %p is %x, whatever the arguments and the rest of the
    format; %d and %u send the same text for an argument below 2^31. *)
Theorem vprintf_synonyms (buffer1 string_buf : list Z) (U : neorv32_uart_t)
    (format : list Z) (args : va_list) (n : Z) :
  length buffer1 = 11%nat → length string_buf = 12%nat →
  neorv32_uart_vprintf buffer1 string_buf U (chr "%" :: chr "i" :: format) args
  = neorv32_uart_vprintf buffer1 string_buf U (chr "%" :: chr "d" :: format) args
  ∧ neorv32_uart_vprintf buffer1 string_buf U (chr "%" :: chr "p" :: format) args
    = neorv32_uart_vprintf buffer1 string_buf U (chr "%" :: chr "x" :: format) args
  ∧ (0 <= n < 2^31 →
     neorv32_uart_vprintf buffer1 string_buf U (chr "%" :: chr "d" :: format)
       (va_word n :: args)
     = neorv32_uart_vprintf buffer1 string_buf U (chr "%" :: chr "u" :: format)
         (va_word n :: args)).
Proof.
  intros Hb Hsb. rewrite !vprintf_format_output by done. split_and!.
  - reflexivity.
  - reflexivity.
  - intros Hn.
    change (format_output (chr "%" :: chr "d" :: format) (va_word n :: args))
      with ((signed_decimal n ++.) <$> format_output format args).
    change (format_output (chr "%" :: chr "u" :: format) (va_word n :: args))
      with ((decimal (uint32_t n) ++.) <$> format_output format args).
    unfold signed_decimal. rewrite int32_small, uint32_small by lia.
    destruct (Z.ltb_spec n 0); [lia | done].
Qed.

Lemma vprintf_synonyms_witness :
  neorv32_uart_vprintf (replicate 11 7) (replicate 12 9) (Uart [] [] [])
    (chr "%" :: chr "i" :: [NUL]) [va_word 42]
  = neorv32_uart_vprintf (replicate 11 7) (replicate 12 9) (Uart [] [] [])
      (chr "%" :: chr "d" :: [NUL]) [va_word 42]
  ∧ neorv32_uart_vprintf (replicate 11 7) (replicate 12 9) (Uart [] [] [])
      (chr "%" :: chr "p" :: [NUL]) [va_word 42]
    = neorv32_uart_vprintf (replicate 11 7) (replicate 12 9) (Uart [] [] [])
        (chr "%" :: chr "x" :: [NUL]) [va_word 42]
  ∧ neorv32_uart_vprintf (replicate 11 7) (replicate 12 9) (Uart [] [] [])
      (chr "%" :: chr "d" :: [NUL]) (va_word 42 :: [])
    = neorv32_uart_vprintf (replicate 11 7) (replicate 12 9) (Uart [] [] [])
        (chr "%" :: chr "u" :: [NUL]) (va_word 42 :: []).
Proof.
  destruct (vprintf_synonyms (replicate 11 7) (replicate 12 9) (Uart [] [] [])
              [NUL] [va_word 42] 42 eq_refl eq_refl) as (H1 & H2 & H3).
  split; [exact H1 |]. split; [exact H2 |]. apply H3. lia.
Defined.

Lemma upper_hex_digit (c : Z) :
  chr "0" <= c <= chr "9" ∨ chr "a" <= c <= chr "f" →
  chr "0" <= upper c <= chr "9" ∨ chr "A" <= upper c <= chr "F".
Proof.
  unfold upper, char. change (chr "0") with 48. change (chr "9") with 57.
  change (chr "a") with 97. change (chr "f") with 102.
  change (chr "z") with 122. change (chr "A") with 65.
  change (chr "F") with 70. intros Hc.
  destruct (Z.leb_spec 97 c), (Z.leb_spec c 122); simpl;
    rewrite ?Z.mod_small; lia.
Qed.

(** X15: "%X" sends the eight characters of "%x" case-folded: digits and
    the letters A to F only, no lowercase letter. *)
Theorem vprintf_upper_hex (buffer1 string_buf : list Z) (U : neorv32_uart_t)
    (w : Z) :
  length buffer1 = 11%nat → length string_buf = 12%nat →
  ∃ out,
    neorv32_uart_printf buffer1 string_buf U (literal "%x") [va_word w]
    = Some (transmit U out)
    ∧ neorv32_uart_printf buffer1 string_buf U (literal "%X") [va_word w]
      = Some (transmit U (upper <$> out))
    ∧ length out = 8%nat
    ∧ Forall (λ c, chr "0" <= c <= chr "9" ∨ chr "A" <= c <= chr "F")
        (upper <$> out).
Proof.
  intros Hb Hsb. exists (hex (uint32_t w)).
  unfold neorv32_uart_printf. rewrite !vprintf_format_output by done.
  split_and!.
  - change (format_output (literal "%x") [va_word w])
      with (Some (hex (uint32_t w) ++ [])).
    by rewrite app_nil_r.
  - change (format_output (literal "%X") [va_word w])
      with (Some ((upper <$> hex (uint32_t w)) ++ [])).
    by rewrite app_nil_r.
  - apply hex_length.
  - apply Forall_fmap. eapply Forall_impl; [apply hex_lower |].
    intros c. apply upper_hex_digit.
Qed.

Lemma vprintf_upper_hex_witness :
  ∃ out,
    neorv32_uart_printf (replicate 11 7) (replicate 12 9) (Uart [] [] [])
      (literal "%x") [va_word 0xbeef] = Some (transmit (Uart [] [] []) out)
    ∧ neorv32_uart_printf (replicate 11 7) (replicate 12 9) (Uart [] [] [])
        (literal "%X") [va_word 0xbeef]
      = Some (transmit (Uart [] [] []) (upper <$> out))
    ∧ length out = 8%nat
    ∧ Forall (λ c, chr "0" <= c <= chr "9" ∨ chr "A" <= c <= chr "F")
        (upper <$> out).
Proof.
  apply (vprintf_upper_hex (replicate 11 7) (replicate 12 9) (Uart [] [] [])
           0xbeef); reflexivity.
Defined.

(* ===================================================================== *)
(** * The line scanner: waiting, echo, round trip *)
(* ===================================================================== *)

Lemma scan_step_continues (max_size echo c : Z) (st : scan_state)
    (r : scan_state + scan_state) :
  c ≠ CR → scan_step max_size echo c st = Some r →
  ∃ st', r = inl st' ∧ RX (s_uart st') = RX (s_uart st).
Proof.
  intros Hc. unfold scan_step.
  destruct (Z.eqb_spec c BS) as [| _].
  - destruct (negb (s_length st =? 0)).
    + destruct (negb (echo =? 0)).
      * rewrite puts_erase. cbn [mbind option_bind]. intros [= <-]. eauto.
      * cbn [mbind option_bind]. intros [= <-]. eauto.
    + intros [= <-]. eauto.
  - destruct (Z.eqb_spec c CR) as [| _]; [done |].
    destruct (_ && _).
    + destruct (store (s_mem st) (s_buffer st) c); [| done].
      cbn [mbind option_bind]. intros [= <-]. eexists. split; [done |].
      cbn [s_uart]. by destruct (negb (echo =? 0)).
    + intros [= <-]. eauto.
Qed.

Lemma scan_loop_waits (max_size echo : Z) (fuel : nat) (st : scan_state) :
  Forall (λ d, char d ≠ CR) (RX (s_uart st)) →
  scan_loop max_size echo fuel st = None.
Proof.
  revert st. induction fuel as [| fuel IH]; intros st HRX; [done |].
  cbn [scan_loop]. unfold neorv32_uart_getc.
  destruct (RX (s_uart st)) as [| d rx] eqn:Hrx; [done |].
  apply Forall_cons in HRX as [Hd HRX]. cbn [mbind option_bind].
  destruct (scan_step max_size echo (char d) _) as [r |] eqn:Hstep; [| done].
  cbn [mbind option_bind].
  apply scan_step_continues in Hstep as (st' & -> & HRX'); [| done].
  apply IH. by rewrite HRX'.
Qed.

(** X16: the scanner returns only on a carriage return: when none is among
    the bytes to receive, it never returns, whatever the capacity, the
    buffer and the echo setting. *)
Theorem scan_waits_for_CR (max_size echo : Z) (U : neorv32_uart_t)
    (buffer : list Z) :
  Forall (λ d, char d ≠ CR) (RX U) →
  neorv32_uart_scan max_size echo U buffer = None.
Proof.
  intros HRX. unfold neorv32_uart_scan.
  by rewrite scan_loop_waits.
Qed.

Lemma scan_waits_for_CR_witness :
  neorv32_uart_scan 8 1 (Uart [] [] (bytes "help")) (replicate 8 0) = None.
Proof.
  apply (scan_waits_for_CR 8 1 (Uart [] [] (bytes "help")) (replicate 8 0)).
  repeat constructor; discriminate.
Defined.

Section scan_echo_facts.

Variables max_size echo : Z.
Hypothesis max_size_range : 1 <= max_size < 2^31.

Variable buffer : list Z.
Hypothesis buffer_size : max_size <= Z.of_nat (length buffer).

(** One turn sends what [echo_step] says when echo is on, and nothing when
    it is off. *)
Lemma scan_step_echo (acc : list Z) (st : scan_state) (c : Z) :
  c ≠ CR → scan_inv max_size buffer acc st →
  ∃ st', scan_step max_size echo c st = Some (inl st')
    ∧ scan_inv max_size buffer (line_edit max_size acc c) st'
    ∧ RX (s_uart st') = RX (s_uart st)
    ∧ CTRL (s_uart st') = CTRL (s_uart st)
    ∧ TX (s_uart st')
      = TX (s_uart st)
          ++ (if echo =? 0 then [] else echo_step max_size acc c).
Proof.
  intros Hcr Hinv.
  destruct (scan_step_edit max_size echo max_size_range buffer buffer_size
              acc st c Hcr Hinv) as (st' & Hstep & Hinv' & HRX & HCTRL & HU).
  exists st'. split_and!; try done.
  destruct Hinv as (Hbuf & Hlen & Hcap & _).
  revert Hstep. unfold scan_step, echo_step.
  destruct (Z.eqb_spec c BS) as [| _].
  - rewrite Hlen. destruct acc as [| a acc].
    + simpl. intros [= <-]. destruct (echo =? 0); by rewrite app_nil_r.
    + simpl length.
      destruct (Z.eqb_spec (Z.of_nat (S (length acc))) 0) as [| _]; [lia |].
      cbn [negb]. destruct (echo =? 0); cbn [negb mbind option_bind].
      * intros [= <-]. by rewrite app_nil_r.
      * rewrite puts_erase. cbn [mbind option_bind]. by intros [= <-].
  - destruct (Z.eqb_spec c CR) as [| _]; [done |].
    rewrite int32_small, Hlen by lia. fold (printable c).
    destruct (printable c && (Z.of_nat (length acc) <? max_size - 1)).
    + destruct (store (s_mem st) (s_buffer st) c); [| done].
      cbn [mbind option_bind]. intros [= <-]. cbn [s_uart].
      destruct (echo =? 0); cbn [negb]; [by rewrite app_nil_r | done].
    + intros [= <-]. destruct (echo =? 0); by rewrite app_nil_r.
Qed.

Lemma scan_loop_echo (pre post acc : list Z) (st : scan_state) (fuel : nat) :
  RX (s_uart st) = pre ++ CR :: post →
  Forall (λ d, char d ≠ CR) pre →
  (length pre < fuel)%nat →
  scan_inv max_size buffer acc st →
  ∃ st', scan_loop max_size echo fuel st = Some st'
    ∧ scan_inv max_size buffer
        (fold_left (line_edit max_size) (char <$> pre) acc) st'
    ∧ RX (s_uart st') = post
    ∧ CTRL (s_uart st') = CTRL (s_uart st)
    ∧ TX (s_uart st')
      = TX (s_uart st)
          ++ (if echo =? 0 then []
              else scan_echo max_size acc (char <$> pre)).
Proof.
  revert acc st fuel.
  induction pre as [| d pre IH]; intros acc st fuel HRX Hpre Hfuel Hinv;
    (destruct fuel as [| fuel]; [simpl in Hfuel; lia |]);
    cbn [scan_loop]; unfold neorv32_uart_getc; rewrite HRX;
    cbn [app mbind option_bind].
  - change (char CR) with CR. unfold scan_step.
    change (CR =? BS) with false. rewrite Z.eqb_refl.
    cbn [mbind option_bind]. eexists. split; [done |].
    split_and!; try done. cbn [s_uart TX fmap list_fmap scan_echo].
    destruct (echo =? 0); by rewrite app_nil_r.
  - apply Forall_cons in Hpre as [Hd Hpre].
    set (U1 := {| CTRL := CTRL (s_uart st); TX := TX (s_uart st);
                  RX := pre ++ CR :: post |}).
    destruct (scan_step_echo acc
                (SState U1 (s_mem st) (s_buffer st) (s_length st)) (char d))
      as (st2 & -> & Hinv2 & HRX2 & HCTRL2 & HTX2); [done | done |].
    cbn [mbind option_bind].
    destruct (IH (line_edit max_size acc (char d)) st2 fuel)
      as (st' & -> & Hinv' & HRX' & HCTRL' & HTX');
      [done | done | simpl in Hfuel; lia | done |].
    exists st'. split; [done |]. split_and!; try done.
    + by rewrite HCTRL', HCTRL2.
    + rewrite HTX', HTX2. cbn [s_uart TX U1 fmap list_fmap scan_echo].
      destruct (echo =? 0); by rewrite <- ?app_assoc.
Qed.

(** The scanner, with everything it does to the buffer and the device. *)
Lemma scan_full (U : neorv32_uart_t) (pre post : list Z) :
  RX U = pre ++ CR :: post →
  Forall (λ d, char d ≠ CR) pre →
  let acc := fold_left (line_edit max_size) (char <$> pre) [] in
  ∃ mem,
    neorv32_uart_scan max_size echo U buffer
    = Some (Z.of_nat (length acc), mem,
            Uart (CTRL U)
              (TX U ++ (if echo =? 0 then []
                        else scan_echo max_size [] (char <$> pre)))
              post)
    ∧ Z.of_nat (length acc) <= max_size - 1
    ∧ take (length acc) mem = acc
    ∧ mem !! length acc = Some NUL
    ∧ length mem = length buffer
    ∧ drop (Z.to_nat max_size) mem = drop (Z.to_nat max_size) buffer.
Proof.
  intros HRX Hpre acc. unfold neorv32_uart_scan.
  destruct (scan_loop_echo pre post [] (SState U buffer 0 0)
              (S (length (RX U))))
    as (st & -> & Hinv & HRX' & HCTRL & HTX); try done.
  { rewrite HRX, length_app. simpl. lia. }
  { unfold scan_inv. simpl. split_and!; try done. lia. }
  fold acc in Hinv. destruct Hinv as (Hbuf & Hlen & Hcap & Htake & Hsize & Hdrop).
  cbn [mbind option_bind]. rewrite Hbuf, store_of_nat by lia.
  cbn [mbind option_bind]. rewrite Hlen.
  destruct (s_uart st) as [ctrl' tx' rx']. simpl in HRX', HCTRL, HTX.
  subst ctrl' tx' rx'.
  eexists. split; [done |]. split_and!; try done.
  - by rewrite take_insert_ge by lia.
  - apply list_lookup_insert_eq. lia.
  - by rewrite length_insert.
  - apply (f_equal (drop 1)) in Hdrop. rewrite !drop_drop in Hdrop.
    replace (Z.to_nat (max_size - 1) + 1)%nat with (Z.to_nat max_size)
      in Hdrop by lia.
    by rewrite drop_insert_lt by lia.
Qed.

End scan_echo_facts.

Lemma char_printable (d : Z) : printable d → char d = d.
Proof.
  unfold printable, char. change (chr " ") with 32. change (chr "~") with 126.
  intros Hd. apply Is_true_true, andb_true_iff in Hd as [Hlo Hhi].
  apply Z.leb_le in Hlo, Hhi. apply Z.mod_small. lia.
Qed.

Lemma fmap_char_printable (s : list Z) :
  Forall (λ d, printable d) s → char <$> s = s.
Proof.
  induction 1 as [| d s Hd _ IH]; [done |].
  cbn [fmap list_fmap]. fold (fmap char s). by rewrite char_printable, IH.
Qed.

Lemma printable_not_control (d : Z) :
  printable d → d ≠ NUL ∧ d ≠ BS ∧ d ≠ CR ∧ d ≠ LF.
Proof.
  unfold printable. change (chr " ") with 32.
  intros Hd. apply Is_true_true, andb_true_iff in Hd as [Hlo _].
  apply Z.leb_le in Hlo. unfold NUL, BS, CR, LF. lia.
Qed.

(** A printable line that fits is accepted and echoed as it is. *)
Lemma scan_printable_line (max_size : Z) (s acc : list Z) :
  Forall (λ d, printable d) s →
  Z.of_nat (length acc + length s) <= max_size - 1 →
  fold_left (line_edit max_size) s acc = acc ++ s
  ∧ scan_echo max_size acc s = s.
Proof.
  intros Hs. revert acc. induction Hs as [| c s Hc _ IH]; intros acc Hroom.
  { simpl. by rewrite app_nil_r. }
  simpl length in Hroom. cbn [fold_left scan_echo].
  pose proof (printable_not_control c Hc) as (_ & Hbs & _).
  assert (line_edit max_size acc c = acc ++ [c]
          ∧ echo_step max_size acc c = [c]) as [-> ->].
  { unfold line_edit, echo_step.
    destruct (Z.eqb_spec c BS) as [| _]; [done |].
    apply Is_true_true in Hc. rewrite Hc.
    destruct (Z.ltb_spec (Z.of_nat (length acc)) (max_size - 1)); [done | lia]. }
  destruct (IH (acc ++ [c])) as [-> ->].
  { rewrite length_app. simpl. lia. }
  by rewrite <- app_assoc.
Qed.

(** X17: with echo off the scanner sends nothing; with echo on it sends
    each accepted character once, backspace-space-backspace for each
    backspace that removes a character, and nothing for a byte it drops.
    The control register is not touched, and exactly the bytes up to and
    including the first carriage return are taken from the receiver. *)
Theorem scan_echo_trace (max_size echo : Z) (U : neorv32_uart_t)
    (buffer pre post : list Z) :
  1 <= max_size < 2^31 → max_size <= Z.of_nat (length buffer) →
  RX U = pre ++ CR :: post → Forall (λ d, char d ≠ CR) pre →
  ∃ len mem U',
    neorv32_uart_scan max_size echo U buffer = Some (len, mem, U')
    ∧ TX U'
      = TX U ++ (if echo =? 0 then []
                 else scan_echo max_size [] (char <$> pre))
    ∧ CTRL U' = CTRL U
    ∧ RX U' = post.
Proof.
  intros Hmax Hbuf HRX Hpre.
  destruct (scan_full max_size echo Hmax buffer Hbuf U pre post HRX Hpre)
    as (mem & Hscan & _).
  by eexists _, mem, _.
Qed.

Lemma scan_echo_trace_witness :
  ∃ len mem U',
    neorv32_uart_scan 3 1
      (Uart [] [] (bytes "abc" ++ BS :: BS :: BS :: bytes "x" ++ [CR]))
      (replicate 3 0) = Some (len, mem, U')
    ∧ TX U'
      = TX (Uart [] [] (bytes "abc" ++ BS :: BS :: BS :: bytes "x" ++ [CR]))
          ++ (if 1 =? 0 then []
              else scan_echo 3 []
                     (char <$> bytes "abc" ++ BS :: BS :: BS :: bytes "x"))
    ∧ CTRL U'
      = CTRL (Uart [] [] (bytes "abc" ++ BS :: BS :: BS :: bytes "x" ++ [CR]))
    ∧ RX U' = [].
Proof.
  apply (scan_echo_trace 3 1
           (Uart [] [] (bytes "abc" ++ BS :: BS :: BS :: bytes "x" ++ [CR]))
           (replicate 3 0) (bytes "abc" ++ BS :: BS :: BS :: bytes "x") []).
  - lia.
  - simpl. lia.
  - reflexivity.
  - repeat constructor; discriminate.
Defined.

(** X18: a line of printable characters that fits the buffer (at most
    capacity - 1 characters) comes back as typed: the scanner returns its
    length, the buffer holds it zero-terminated, with echo on exactly the
    line is sent back, and what follows the carriage return stays in the
    receiver. *)
Theorem scan_round_trip (max_size echo : Z) (U : neorv32_uart_t)
    (buffer s post : list Z) :
  1 <= max_size < 2^31 → max_size <= Z.of_nat (length buffer) →
  Forall (λ d, printable d) s → Z.of_nat (length s) <= max_size - 1 →
  RX U = s ++ CR :: post →
  ∃ mem,
    neorv32_uart_scan max_size echo U buffer
    = Some (Z.of_nat (length s), mem,
            Uart (CTRL U) (TX U ++ (if echo =? 0 then [] else s)) post)
    ∧ cstring mem = Some s.
Proof.
  intros Hmax Hbuf Hs Hfit HRX.
  assert (Forall (λ d, char d ≠ CR) s) as Hcr.
  { eapply Forall_impl; [apply Hs |]. intros d Hd. simpl.
    rewrite char_printable by done. by apply printable_not_control. }
  destruct (scan_full max_size echo Hmax buffer Hbuf U s post HRX Hcr)
    as (mem & Hscan & _ & Htake & Hnul & _).
  rewrite fmap_char_printable in Hscan, Htake, Hnul by done.
  destruct (scan_printable_line max_size s [] Hs) as [Hfold Hecho];
    [simpl; lia |].
  rewrite Hfold in Hscan, Htake, Hnul. rewrite Hecho in Hscan.
  simpl in Hscan, Htake, Hnul.
  exists mem. split; [done |].
  apply cstring_take; [done | done |].
  eapply Forall_impl; [apply Hs |]. intros d Hd.
  by apply printable_not_control.
Qed.

Lemma scan_round_trip_witness :
  ∃ mem,
    neorv32_uart_scan 8 1 (Uart [] [] (bytes "run 42" ++ CR :: bytes "next"))
      (replicate 8 0)
    = Some (Z.of_nat (length (bytes "run 42")), mem,
            Uart (CTRL (Uart [] [] (bytes "run 42" ++ CR :: bytes "next")))
              (TX (Uart [] [] (bytes "run 42" ++ CR :: bytes "next"))
                 ++ (if 1 =? 0 then [] else bytes "run 42"))
              (bytes "next"))
    ∧ cstring mem = Some (bytes "run 42").
Proof.
  apply (scan_round_trip 8 1
           (Uart [] [] (bytes "run 42" ++ CR :: bytes "next"))
           (replicate 8 0) (bytes "run 42") (bytes "next")).
  - lia.
  - simpl. lia.
  - repeat constructor.
  - simpl. lia.
  - reflexivity.
Defined.

(** X19: whatever bytes arrive, the string the scanner leaves in the buffer
    holds printable ASCII characters (0x20 to 0x7e) only, and as many as the
    returned length says: control characters, bytes of 0x7f and above and
    NUL bytes never get in. *)
Theorem scan_result_printable (max_size echo : Z) (U : neorv32_uart_t)
    (buffer pre post : list Z) :
  1 <= max_size < 2^31 → max_size <= Z.of_nat (length buffer) →
  RX U = pre ++ CR :: post → Forall (λ d, char d ≠ CR) pre →
  ∃ len mem U' line,
    neorv32_uart_scan max_size echo U buffer = Some (len, mem, U')
    ∧ cstring mem = Some line
    ∧ len = Z.of_nat (length line)
    ∧ Forall (λ c, chr " " <= c <= chr "~") line.
Proof.
  intros Hmax Hbuf HRX Hpre.
  destruct (scan_full max_size echo Hmax buffer Hbuf U pre post HRX Hpre)
    as (mem & Hscan & _ & Htake & Hnul & _).
  set (acc := fold_left (line_edit max_size) (char <$> pre) []) in *.
  assert (Forall (λ c, printable c) acc) as Hacc
    by (apply line_edit_printable; constructor).
  eexists (Z.of_nat (length acc)), mem, _, acc.
  split; [exact Hscan |]. split_and!; try done.
  - apply cstring_take; [done | done |].
    eapply Forall_impl; [apply Hacc |]. intros d Hd.
    by apply printable_not_control.
  - eapply Forall_impl; [apply Hacc |]. intros d Hd. simpl.
    unfold printable in Hd.
    apply Is_true_true, andb_true_iff in Hd as [Hlo Hhi].
    apply Z.leb_le in Hlo, Hhi. done.
Qed.

Lemma scan_result_printable_witness :
  ∃ len mem U' line,
    neorv32_uart_scan 8 0 (Uart [] [] [7; 200; 65; 0; 27; 66; CR])
      (replicate 8 0) = Some (len, mem, U')
    ∧ cstring mem = Some line
    ∧ len = Z.of_nat (length line)
    ∧ Forall (λ c, chr " " <= c <= chr "~") line.
Proof.
  apply (scan_result_printable 8 0 (Uart [] [] [7; 200; 65; 0; 27; 66; CR])
           (replicate 8 0) [7; 200; 65; 0; 27; 66] []).
  - lia.
  - simpl. lia.
  - reflexivity.
  - repeat constructor; discriminate.
Defined.

Lemma scan_step_no_room (max_size echo c : Z) (st : scan_state) :
  - 2^31 < max_size <= 1 → s_length st = 0 → c ≠ CR →
  scan_step max_size echo c st = Some (inl st).
Proof.
  intros Hmax Hlen Hc. unfold scan_step. rewrite Hlen.
  destruct (c =? BS); [done |].
  destruct (Z.eqb_spec c CR); [done |].
  rewrite int32_small by lia.
  destruct (Z.ltb_spec 0 (max_size - 1)); [lia |].
  by rewrite andb_false_r.
Qed.

Lemma scan_loop_no_room (max_size echo : Z) (pre post mem : list Z)
    (ctrl tx : list Z) (buf : Z) (fuel : nat) :
  - 2^31 < max_size <= 1 → Forall (λ d, char d ≠ CR) pre →
  (length pre < fuel)%nat →
  scan_loop max_size echo fuel (SState (Uart ctrl tx (pre ++ CR :: post)) mem buf 0)
  = Some (SState (Uart ctrl tx post) mem buf 0).
Proof.
  intros Hmax Hpre. revert fuel.
  induction Hpre as [| d pre Hd _ IH]; intros fuel Hfuel;
    (destruct fuel as [| fuel]; [simpl in Hfuel; lia |]).
  - reflexivity.
  - cbn [scan_loop]. unfold neorv32_uart_getc.
    cbn [RX s_uart app mbind option_bind CTRL TX s_mem s_buffer s_length].
    rewrite scan_step_no_room by done. cbn [mbind option_bind].
    apply IH. simpl in Hfuel. lia.
Qed.

(** At a capacity of -2^31 the bound [max_size - 1] of the guard wraps
    around to 2^31 - 1, and characters are accepted. *)
Example scan_capacity_INT_MIN :
  neorv32_uart_scan (- 2^31) 0 (Uart [] [] (bytes "ab" ++ [CR])) [7; 7; 7]
  = Some (2, [97; 98; 0], Uart [] [] []).
Proof. vm_compute. reflexivity. Qed.

(** X20: with a capacity [max_size] of 1 or less, but above -2^31, there is
    no room for a character: every byte before the carriage return is
    dropped without echo, the scanner returns 0 and writes the terminator to
    the first byte of the buffer, also when the capacity is 0 or negative.
    The lower bound is needed: at -2^31 the subtraction [max_size - 1]
    wraps around and characters are accepted, [scan_capacity_INT_MIN]. *)
Theorem scan_no_room (max_size echo : Z) (ctrl tx pre post buffer : list Z) :
  - 2^31 < max_size <= 1 → buffer ≠ [] →
  Forall (λ d, char d ≠ CR) pre →
  neorv32_uart_scan max_size echo (Uart ctrl tx (pre ++ CR :: post)) buffer
  = Some (0, <[0%nat := NUL]> buffer, Uart ctrl tx post).
Proof.
  intros Hmax Hbuf Hpre. unfold neorv32_uart_scan.
  rewrite scan_loop_no_room; [| done | done |].
  - cbn [mbind option_bind s_mem s_buffer s_length s_uart].
    rewrite (store_of_nat buffer 0) by (destruct buffer; simpl; done || lia).
    done.
  - cbn [RX]. rewrite length_app. simpl. lia.
Qed.

Lemma scan_no_room_witness :
  neorv32_uart_scan 0 1 (Uart [] [] (bytes "abc" ++ CR :: [])) (replicate 2 7)
  = Some (0, <[0%nat := NUL]> (replicate 2 7), Uart [] [] []).
Proof.
  apply (scan_no_room 0 1 [] [] (bytes "abc") [] (replicate 2 7)).
  - lia.
  - discriminate.
  - repeat constructor; discriminate.
Defined.

(* ===================================================================== *)
(** * The scanner and the backspace *)
(* ===================================================================== *)

Lemma scan_echo_app (max_size : Z) (l1 l2 acc : list Z) :
  scan_echo max_size acc (l1 ++ l2)
  = scan_echo max_size acc l1
      ++ scan_echo max_size (fold_left (line_edit max_size) l1 acc) l2.
Proof.
  revert acc. induction l1 as [| c l1 IH]; intros acc; [done |].
  simpl. by rewrite IH, app_assoc.
Qed.

Lemma line_edit_BS (max_size : Z) (acc : list Z) :
  line_edit max_size acc BS = removelast acc
  ∧ echo_step max_size acc BS
    = match acc with [] => [] | _ => [BS; chr " "; BS] end.
Proof. unfold line_edit, echo_step. by rewrite Z.eqb_refl. Qed.

Lemma removelast_length (acc : list Z) :
  Z.of_nat (length (removelast acc)) = Z.max 0 (Z.of_nat (length acc) - 1).
Proof. rewrite removelast_take, length_take. lia. Qed.

(** The scanner on an input with a carriage return: the length it returns,
    the string it leaves and what it does to the device. *)
Lemma scan_string (max_size echo : Z) (buffer ctrl tx pre post : list Z) :
  1 <= max_size < 2^31 → max_size <= Z.of_nat (length buffer) →
  Forall (λ d, char d ≠ CR) pre →
  ∃ mem,
    neorv32_uart_scan max_size echo (Uart ctrl tx (pre ++ CR :: post)) buffer
    = Some (Z.of_nat
              (length (fold_left (line_edit max_size) (char <$> pre) [])),
            mem,
            Uart ctrl
              (tx ++ (if echo =? 0 then []
                      else scan_echo max_size [] (char <$> pre)))
              post)
    ∧ cstring mem = Some (fold_left (line_edit max_size) (char <$> pre) []).
Proof.
  intros Hmax Hbuf Hpre.
  destruct (scan_full max_size echo Hmax buffer Hbuf
              (Uart ctrl tx (pre ++ CR :: post)) pre post eq_refl Hpre)
    as (mem & Hscan & _ & Htake & Hnul & _).
  exists mem. split; [exact Hscan |].
  apply cstring_take; [done | done |].
  eapply Forall_impl.
  - apply (line_edit_printable max_size (char <$> pre) []). constructor.
  - intros c Hc. by apply printable_not_control.
Qed.

(** The same for an input with a backspace before the carriage return. *)
Lemma scan_string_backspace (max_size echo : Z)
    (buffer ctrl tx pre mid post : list Z) :
  1 <= max_size < 2^31 → max_size <= Z.of_nat (length buffer) →
  Forall (λ d, char d ≠ CR) pre → Forall (λ d, char d ≠ CR) mid →
  let acc := fold_left (line_edit max_size) (char <$> pre) [] in
  let line := fold_left (line_edit max_size) (char <$> mid) (removelast acc) in
  ∃ mem,
    neorv32_uart_scan max_size echo
      (Uart ctrl tx (pre ++ BS :: mid ++ CR :: post)) buffer
    = Some (Z.of_nat (length line), mem,
            Uart ctrl
              (tx ++ (if echo =? 0 then []
                      else scan_echo max_size [] (char <$> pre)
                           ++ match acc with
                              | [] => []
                              | _ => [BS; chr " "; BS]
                              end
                           ++ scan_echo max_size (removelast acc)
                                (char <$> mid)))
              post)
    ∧ cstring mem = Some line.
Proof.
  intros Hmax Hbuf Hpre Hmid acc line.
  destruct (scan_string max_size echo buffer ctrl tx (pre ++ BS :: mid) post)
    as (mem & Hscan & Hstr); [done | done | |].
  { apply Forall_app. split; [done |]. by constructor. }
  revert Hscan Hstr.
  rewrite <- app_assoc, <- app_comm_cons, fmap_app, fmap_cons.
  change (char BS) with BS.
  rewrite fold_left_app, scan_echo_app. cbn [fold_left scan_echo].
  fold acc. destruct (line_edit_BS max_size acc) as [-> ->]. fold line.
  intros Hscan Hstr. by exists mem.
Qed.

(** C5: with echo off and a buffer of ten bytes, the input "ab\bc\r" makes
    the scanner return 2 and leave the zero-terminated string "ac" in the
    buffer.  In general a backspace received while the accepted length is not
    zero (the write position being that length, inside the array) takes one from the length and the last character from the accepted
    line (with echo on it also sends backspace, space, backspace), and a
    backspace received while the length is zero changes nothing.

    For the scanner as a whole, with any capacity of at least 1, any echo
    setting and any input: where the scanner would return the line [acc]
    had the carriage return come, a backspace followed by the carriage
    return makes it return [acc] without its last character and a length
    that is one less, or the empty line and 0 when [acc] is empty; with
    echo on, backspace, space, backspace is sent in the first case and
    nothing in the second.  Bytes that follow the backspace are then taken
    as if the line had been typed without that character; for printable
    lines [s] and [t] that fit, [s], a backspace, [t] and a carriage return
    give [s] without its last character followed by [t]. *)
Theorem scan_backspace (buffer ctrl tx : list Z) :
  length buffer = 10%nat →
  (∃ mem,
     neorv32_uart_scan 10 0
       (Uart ctrl tx (bytes "ab" ++ BS :: bytes "c" ++ [CR])) buffer
     = Some (2, mem, Uart ctrl tx [])
     ∧ cstring mem = Some (bytes "ac"))
  ∧ (∀ max_size echo st,
       0 < s_length st < 2^31 → s_buffer st = s_length st →
       s_buffer st <= Z.of_nat (length (s_mem st)) →
       ∃ st', scan_step max_size echo BS st = Some (inl st')
         ∧ s_length st' = s_length st - 1
         ∧ accepted st' = removelast (accepted st)
         ∧ s_mem st' = s_mem st
         ∧ s_uart st'
           = if echo =? 0 then s_uart st
             else transmit (s_uart st) [BS; chr " "; BS])
  ∧ (∀ max_size echo st,
       s_length st = 0 → scan_step max_size echo BS st = Some (inl st))
  ∧ (∀ max_size echo (buf pre post : list Z),
       1 <= max_size < 2^31 → max_size <= Z.of_nat (length buf) →
       Forall (λ d, char d ≠ CR) pre →
       ∃ acc e mem0 mem1,
         neorv32_uart_scan max_size echo
           (Uart ctrl tx (pre ++ CR :: post)) buf
         = Some (Z.of_nat (length acc), mem0, Uart ctrl (tx ++ e) post)
         ∧ cstring mem0 = Some acc
         ∧ neorv32_uart_scan max_size echo
             (Uart ctrl tx (pre ++ BS :: CR :: post)) buf
           = Some (Z.max 0 (Z.of_nat (length acc) - 1), mem1,
                   Uart ctrl
                     (tx ++ e ++ (if echo =? 0 then []
                                  else match acc with
                                       | [] => []
                                       | _ => [BS; chr " "; BS]
                                       end))
                     post)
         ∧ cstring mem1 = Some (removelast acc))
  ∧ (∀ max_size echo (buf pre mid post : list Z),
       1 <= max_size < 2^31 → max_size <= Z.of_nat (length buf) →
       Forall (λ d, char d ≠ CR) pre → Forall (λ d, char d ≠ CR) mid →
       ∃ acc mem0 U0 mem1 U1,
         neorv32_uart_scan max_size echo
           (Uart ctrl tx (pre ++ CR :: post)) buf
         = Some (Z.of_nat (length acc), mem0, U0)
         ∧ cstring mem0 = Some acc
         ∧ neorv32_uart_scan max_size echo
             (Uart ctrl tx (pre ++ BS :: mid ++ CR :: post)) buf
           = Some (Z.of_nat
                     (length (fold_left (line_edit max_size) (char <$> mid)
                                (removelast acc))),
                   mem1, U1)
         ∧ cstring mem1
           = Some (fold_left (line_edit max_size) (char <$> mid)
                     (removelast acc))
         ∧ RX U1 = post)
  ∧ (∀ max_size echo (buf s t post : list Z),
       1 <= max_size < 2^31 → max_size <= Z.of_nat (length buf) →
       Forall (λ d, printable d) s → Forall (λ d, printable d) t →
       Z.of_nat (length s) <= max_size - 1 →
       Z.of_nat (length (removelast s ++ t)) <= max_size - 1 →
       ∃ mem,
         neorv32_uart_scan max_size echo
           (Uart ctrl tx (s ++ BS :: t ++ CR :: post)) buf
         = Some (Z.of_nat (length (removelast s ++ t)), mem,
                 Uart ctrl
                   (tx ++ (if echo =? 0 then []
                           else s ++ match s with
                                     | [] => []
                                     | _ => [BS; chr " "; BS]
                                     end ++ t))
                   post)
         ∧ cstring mem = Some (removelast s ++ t)).
Proof.
  intros Hbuf. split_and!.
  - destruct (scan_eq 10 0 ltac:(lia) buffer ltac:(lia)
                (Uart ctrl tx (bytes "ab" ++ BS :: bytes "c" ++ [CR]))
                (bytes "ab" ++ BS :: bytes "c") [])
      as (mem & U' & Hscan & _ & Htake & Hnul & _ & _ & HRX & HCTRL & HTX).
    { reflexivity. }
    { repeat constructor; discriminate. }
    change (fold_left (line_edit 10) (char <$> bytes "ab" ++ BS :: bytes "c") [])
      with (bytes "ac") in *.
    destruct U' as [ctrl' tx' rx']. simpl in HRX, HCTRL, HTX.
    rewrite HTX in Hscan by done. subst ctrl' rx'.
    exists mem. split; [exact Hscan |].
    apply cstring_take; [done | done |].
    repeat constructor; discriminate.
  - intros max_size echo st Hlen Hptr Hin. unfold scan_step.
    rewrite Z.eqb_refl.
    destruct (Z.eqb_spec (s_length st) 0) as [| _]; [lia |]. cbn [negb].
    assert ((if negb (echo =? 0)
             then neorv32_uart_puts (s_uart st) (BS :: chr " " :: BS :: [NUL])
             else Some (s_uart st))
            = Some (if echo =? 0 then s_uart st
                    else transmit (s_uart st) [BS; chr " "; BS])) as ->.
    { destruct (echo =? 0); cbn [negb]; [done | apply puts_erase]. }
    cbn [mbind option_bind]. eexists. split; [done |].
    cbn [s_length s_mem s_uart]. split_and!; try done.
    + apply int32_small. lia.
    + unfold accepted. cbn [s_buffer s_mem]. rewrite Hptr.
      rewrite removelast_take, length_take, take_take.
      f_equal. lia.
  - intros max_size echo st Hlen. unfold scan_step.
    by rewrite Z.eqb_refl, Hlen.
  - intros max_size echo buf pre post Hmax Hroom Hpre.
    destruct (scan_string max_size echo buf ctrl tx pre post Hmax Hroom Hpre)
      as (mem0 & Hscan0 & Hstr0).
    destruct (scan_string_backspace max_size echo buf ctrl tx pre [] post
                Hmax Hroom Hpre ltac:(constructor))
      as (mem1 & Hscan1 & Hstr1).
    cbn [fmap list_fmap fold_left scan_echo app] in Hscan1, Hstr1.
    set (acc := fold_left (line_edit max_size) (char <$> pre) []) in *.
    exists acc, (if echo =? 0 then []
                 else scan_echo max_size [] (char <$> pre)), mem0, mem1.
    split; [exact Hscan0 |]. split; [exact Hstr0 |].
    split; [| exact Hstr1].
    rewrite Hscan1, removelast_length. do 3 f_equal.
    destruct (echo =? 0); by rewrite ?app_nil_r.
  - intros max_size echo buf pre mid post Hmax Hroom Hpre Hmid.
    destruct (scan_string max_size echo buf ctrl tx pre post Hmax Hroom Hpre)
      as (mem0 & Hscan0 & Hstr0).
    destruct (scan_string_backspace max_size echo buf ctrl tx pre mid post
                Hmax Hroom Hpre Hmid)
      as (mem1 & Hscan1 & Hstr1).
    eexists _, mem0, _, mem1, _.
    split; [exact Hscan0 |]. split; [exact Hstr0 |].
    split; [exact Hscan1 |]. split; [exact Hstr1 |]. done.
  - intros max_size echo buf s t post Hmax Hroom Hs Ht Hfit Hfit2.
    assert (∀ l, Forall (λ d, printable d) l → Forall (λ d, char d ≠ CR) l)
      as Hcr.
    { intros l Hl. eapply Forall_impl; [apply Hl |]. intros d Hd. simpl.
      rewrite char_printable by done. by apply printable_not_control. }
    destruct (scan_string_backspace max_size echo buf ctrl tx s t post
                Hmax Hroom (Hcr s Hs) (Hcr t Ht))
      as (mem & Hscan & Hstr).
    revert Hscan Hstr. rewrite !fmap_char_printable by done.
    destruct (scan_printable_line max_size s [] Hs) as [-> ->];
      [simpl; lia |].
    cbn [app].
    destruct (scan_printable_line max_size t (removelast s) Ht) as [-> ->].
    { rewrite length_app in Hfit2. lia. }
    intros Hscan Hstr. by exists mem.
Qed.

Lemma scan_backspace_witness :
  (∃ mem,
     neorv32_uart_scan 10 0
       (Uart [] [] (bytes "ab" ++ BS :: bytes "c" ++ [CR])) (replicate 10 7)
     = Some (2, mem, Uart [] [] [])
     ∧ cstring mem = Some (bytes "ac"))
  ∧ (∀ max_size echo st,
       0 < s_length st < 2^31 → s_buffer st = s_length st →
       s_buffer st <= Z.of_nat (length (s_mem st)) →
       ∃ st', scan_step max_size echo BS st = Some (inl st')
         ∧ s_length st' = s_length st - 1
         ∧ accepted st' = removelast (accepted st)
         ∧ s_mem st' = s_mem st
         ∧ s_uart st'
           = if echo =? 0 then s_uart st
             else transmit (s_uart st) [BS; chr " "; BS])
  ∧ (∀ max_size echo st,
       s_length st = 0 → scan_step max_size echo BS st = Some (inl st))
  ∧ (∀ max_size echo (buf pre post : list Z),
       1 <= max_size < 2^31 → max_size <= Z.of_nat (length buf) →
       Forall (λ d, char d ≠ CR) pre →
       ∃ acc e mem0 mem1,
         neorv32_uart_scan max_size echo
           (Uart [] [] (pre ++ CR :: post)) buf
         = Some (Z.of_nat (length acc), mem0, Uart [] ([] ++ e) post)
         ∧ cstring mem0 = Some acc
         ∧ neorv32_uart_scan max_size echo
             (Uart [] [] (pre ++ BS :: CR :: post)) buf
           = Some (Z.max 0 (Z.of_nat (length acc) - 1), mem1,
                   Uart []
                     ([] ++ e ++ (if echo =? 0 then []
                                  else match acc with
                                       | [] => []
                                       | _ => [BS; chr " "; BS]
                                       end))
                     post)
         ∧ cstring mem1 = Some (removelast acc))
  ∧ (∀ max_size echo (buf pre mid post : list Z),
       1 <= max_size < 2^31 → max_size <= Z.of_nat (length buf) →
       Forall (λ d, char d ≠ CR) pre → Forall (λ d, char d ≠ CR) mid →
       ∃ acc mem0 U0 mem1 U1,
         neorv32_uart_scan max_size echo
           (Uart [] [] (pre ++ CR :: post)) buf
         = Some (Z.of_nat (length acc), mem0, U0)
         ∧ cstring mem0 = Some acc
         ∧ neorv32_uart_scan max_size echo
             (Uart [] [] (pre ++ BS :: mid ++ CR :: post)) buf
           = Some (Z.of_nat
                     (length (fold_left (line_edit max_size) (char <$> mid)
                                (removelast acc))),
                   mem1, U1)
         ∧ cstring mem1
           = Some (fold_left (line_edit max_size) (char <$> mid)
                     (removelast acc))
         ∧ RX U1 = post)
  ∧ (∀ max_size echo (buf s t post : list Z),
       1 <= max_size < 2^31 → max_size <= Z.of_nat (length buf) →
       Forall (λ d, printable d) s → Forall (λ d, printable d) t →
       Z.of_nat (length s) <= max_size - 1 →
       Z.of_nat (length (removelast s ++ t)) <= max_size - 1 →
       ∃ mem,
         neorv32_uart_scan max_size echo
           (Uart [] [] (s ++ BS :: t ++ CR :: post)) buf
         = Some (Z.of_nat (length (removelast s ++ t)), mem,
                 Uart []
                   ([] ++ (if echo =? 0 then []
                           else s ++ match s with
                                     | [] => []
                                     | _ => [BS; chr " "; BS]
                                     end ++ t))
                   post)
         ∧ cstring mem = Some (removelast s ++ t)).
Proof. apply (scan_backspace (replicate 10 7) [] []). reflexivity. Defined.

(* ===================================================================== *)
(** * Setup: division, rounding, the bits it leaves clear *)
(* ===================================================================== *)

Lemma setup_no_divisor `{UartCtrlBits} (clock : Z) (U : neorv32_uart_t)
    (baudrate irq_mask : Z) :
  uint32_t (2 * baudrate) = 0 →
  neorv32_uart_setup clock U baudrate irq_mask = None.
Proof.
  intros Hzero. unfold neorv32_uart_setup, udiv32. rewrite Hzero.
  change (0 =? 0) with true. cbv iota. apply bind_None.
Qed.

(** X21: setup divides the clock by twice the baud rate in 32-bit
    arithmetic: it returns unless that divisor is 0, which happens for a
    baud rate of 0 and, by wrap-around, for a baud rate of 2^31. *)
Theorem setup_division_by_zero `{UartCtrlBits} (clock : Z)
    (U : neorv32_uart_t) (baudrate irq_mask : Z) :
  ctrl_bits_ok → 0 <= clock < 2^32 → 0 <= baudrate < 2^32 →
  (neorv32_uart_setup clock U baudrate irq_mask = None
   ↔ baudrate = 0 ∨ baudrate = 2^31).
Proof.
  intros Hok Hclock Hbaud.
  assert (uint32_t (2 * baudrate) = 0 ↔ baudrate = 0 ∨ baudrate = 2^31)
    as Hzero.
  { unfold uint32_t. change (2^32) with 4294967296.
    change (2^31) with 2147483648 in *.
    Z.to_euclidean_division_equations. lia. }
  rewrite <- Hzero. split.
  - intros Hnone.
    destruct (decide (uint32_t (2 * baudrate) = 0)) as [| Hne]; [done |].
    destruct (setup_eq Hok clock U baudrate irq_mask Hclock Hne)
      as (p & bd & tmp & _ & _ & Hsome).
    by rewrite Hsome in Hnone.
  - apply setup_no_divisor.
Qed.

Lemma setup_division_by_zero_witness :
  @neorv32_uart_setup neorv32_ctrl_bits 100000000 (Uart [] [] [])
    2147483648 0 = None
  ↔ 2147483648 = 0 ∨ 2147483648 = 2^31.
Proof.
  apply (@setup_division_by_zero neorv32_ctrl_bits 100000000 (Uart [] [] [])
           2147483648 0).
  - unfold ctrl_bits_ok. simpl. lia.
  - lia.
  - lia.
Defined.

Lemma prsc_shift_nonneg (p : Z) : 0 <= p → 0 <= prsc_shift p.
Proof.
  intros Hp. unfold prsc_shift.
  destruct (2 <? p), (4 <? p); lia.
Qed.

(** X22: the baud search ends for every 32-bit raw divisor, and the divisor
    it keeps is the raw divisor divided by two to the total shift, rounded
    down: it never exceeds the exact quotient and is less than one below
    it.  A raw divisor below 1023 is kept as it is, with prescaler select
    0. *)
Theorem baud_search_rounds_down (raw : Z) :
  0 <= raw < 2^32 →
  ∃ prsc_sel baud_div,
    baud_search 32 0 raw = Some (prsc_sel, baud_div)
    ∧ 0 <= prsc_sel
    ∧ 0 <= baud_div < 0x3ff
    ∧ baud_div * 2 ^ prsc_shift prsc_sel <= raw
      < (baud_div + 1) * 2 ^ prsc_shift prsc_sel
    ∧ (raw < 0x3ff → prsc_sel = 0 ∧ baud_div = raw).
Proof.
  intros Hraw.
  destruct (baud_search_spec 32 0 raw)
    as (p & bd & Hsearch & Hp & Hbd & Hr & _ & Hmin);
    [lia | simpl; lia | change (2 ^ Z.of_nat 32) with (2^32); lia |].
  change (prsc_shift 0) with 0 in *. rewrite Z.sub_0_r in Hbd.
  exists p, bd. split; [done |].
  pose proof (prsc_shift_nonneg p ltac:(lia)) as Hshift.
  rewrite Z.shiftr_div_pow2 in Hbd by done.
  assert (0 < 2 ^ prsc_shift p) as Hpow by (by apply Z.pow_pos_nonneg).
  split_and!; try lia.
  - rewrite Hbd, Z.mul_comm. apply Z.mul_div_le. done.
  - rewrite Hbd, Z.mul_comm. apply Z.mul_succ_div_gt. done.
  - intros Hsmall.
    assert (p = 0) as ->.
    { destruct (decide (p = 0)) as [| Hne]; [done |].
      specialize (Hmin 0 ltac:(lia)).
      rewrite Z.sub_0_r, Z.shiftr_0_r in Hmin. lia. }
    split; [done |]. rewrite Hbd. change (prsc_shift 0) with 0.
    by rewrite Z.pow_0_r, Z.div_1_r.
Qed.

Lemma baud_search_rounds_down_witness :
  ∃ prsc_sel baud_div,
    baud_search 32 0 (100000000 / (2 * 9600)) = Some (prsc_sel, baud_div)
    ∧ 0 <= prsc_sel
    ∧ 0 <= baud_div < 0x3ff
    ∧ baud_div * 2 ^ prsc_shift prsc_sel <= 100000000 / (2 * 9600)
      < (baud_div + 1) * 2 ^ prsc_shift prsc_sel
    ∧ (100000000 / (2 * 9600) < 0x3ff
       → prsc_sel = 0 ∧ baud_div = 100000000 / (2 * 9600)).
Proof.
  apply (baud_search_rounds_down (100000000 / (2 * 9600))).
  vm_compute. split; discriminate || reflexivity.
Defined.

(** In the regular build only the enable bit, the two low bits of the
    prescaler select, the ten bits of the baud divisor and the five
    interrupt enables can be set in the value that setup writes. *)
Lemma setup_other_bits `{UartCtrlBits} (clock : Z)
    (U : neorv32_uart_t) (baudrate irq_mask : Z) :
  ctrl_bits_ok → 0 <= clock < 2^32 → uint32_t (2 * baudrate) ≠ 0 →
  ∃ prsc_sel baud_div tmp,
    baud_search 32 0 (clock / uint32_t (2 * baudrate))
    = Some (prsc_sel, baud_div)
    ∧ setup_ctrl prsc_sel baud_div irq_mask = Some tmp
    ∧ neorv32_uart_setup clock U baudrate irq_mask
      = Some (write_CTRL (write_CTRL U 0) tmp)
    ∧ ∀ i, 0 <= i →
        i ≠ UART_CTRL_EN →
        ¬ (UART_CTRL_PRSC0 <= i < UART_CTRL_PRSC0 + 2) →
        ¬ (UART_CTRL_BAUD0 <= i < UART_CTRL_BAUD0 + 10) →
        ¬ (UART_CTRL_IRQ_RX_NEMPTY <= i < UART_CTRL_IRQ_RX_NEMPTY + 5) →
        Z.testbit tmp i = false.
Proof.
  intros Hok Hclock Hbaud.
  pose proof Hok as (Hen & Hprsc & Hbd & Hirq & Htop).
  destruct (setup_eq Hok clock U baudrate irq_mask Hclock Hbaud)
    as (p & bd & tmp & Hsearch & Htmp & Hsetup).
  exists p, bd, tmp. split; [done |]. split; [done |]. split; [done |].
  rewrite (setup_ctrl_eq Hok) in Htmp. injection Htmp as <-.
  intros i Hi Hnen Hnprsc Hnbaud Hnirq.
  rewrite !Z.lor_spec, Z.land_spec, !testbit_shl_ones by lia.
  destruct (Z.leb_spec UART_CTRL_EN i), (Z.ltb_spec i (UART_CTRL_EN + 1)),
    (Z.leb_spec UART_CTRL_PRSC0 i), (Z.ltb_spec i (UART_CTRL_PRSC0 + 2)),
    (Z.leb_spec UART_CTRL_BAUD0 i), (Z.ltb_spec i (UART_CTRL_BAUD0 + 10)),
    (Z.leb_spec UART_CTRL_IRQ_RX_NEMPTY i),
    (Z.ltb_spec i (UART_CTRL_IRQ_RX_NEMPTY + 5));
    simpl; rewrite ?andb_false_r; done || lia.
Qed.

Lemma testbit_shl32_one (n i : Z) :
  0 <= n < 32 → 0 <= i → Z.testbit (uint32_t (Z.shiftl 1 n)) i = (i =? n).
Proof.
  intros Hn Hi. change 1 with (Z.land 1 (Z.ones 1)) at 1.
  rewrite testbit_shl_ones by lia.
  destruct (Z.eqb_spec i n) as [-> | Hne].
  - rewrite Z.sub_diag. destruct (Z.leb_spec n n); [| lia].
    destruct (Z.ltb_spec n (n + 1)); [done | lia].
  - destruct (Z.leb_spec n i); [| done].
    destruct (Z.ltb_spec i (n + 1)); [lia | done].
Qed.

(** X23: in every build, the value that setup writes after resetting the
    register to 0 has, outside the enable bit, the two low bits of the
    prescaler select, the ten bits of the baud divisor and the five
    interrupt enables, no bit set but the simulation mode bit, and that
    one exactly when the build defines UART0_SIM_MODE and the handle is
    UART0, or UART1_SIM_MODE and the handle is UART1; the simulation mode
    bit is then set.  Otherwise, as in a build that defines neither macro,
    the value is the one of the regular build, in which every other bit,
    the third bit of the prescaler select included, is 0. *)
Theorem setup_clears_other_bits `{UartCtrlBits} `{UartSimBits}
    (UART0_SIM_MODE UART1_SIM_MODE : bool) (UARTx_addr clock : Z)
    (U : neorv32_uart_t) (baudrate irq_mask : Z) :
  ctrl_bits_ok → 0 <= UART_CTRL_SIM_MODE < 32 →
  0 <= clock < 2^32 → uint32_t (2 * baudrate) ≠ 0 →
  let sim := (UART0_SIM_MODE && (UARTx_addr =? NEORV32_UART0_BASE))
             || (UART1_SIM_MODE && (UARTx_addr =? NEORV32_UART1_BASE)) in
  ∃ tmp,
    neorv32_uart_setup_sim UART0_SIM_MODE UART1_SIM_MODE UARTx_addr clock U
      baudrate irq_mask
    = Some (write_CTRL (write_CTRL U 0) tmp)
    ∧ (∀ i, 0 <= i →
         i ≠ UART_CTRL_EN →
         ¬ (UART_CTRL_PRSC0 <= i < UART_CTRL_PRSC0 + 2) →
         ¬ (UART_CTRL_BAUD0 <= i < UART_CTRL_BAUD0 + 10) →
         ¬ (UART_CTRL_IRQ_RX_NEMPTY <= i < UART_CTRL_IRQ_RX_NEMPTY + 5) →
         Z.testbit tmp i = sim && (i =? UART_CTRL_SIM_MODE))
    ∧ (sim = true → Z.testbit tmp UART_CTRL_SIM_MODE = true)
    ∧ (sim = false →
       neorv32_uart_setup clock U baudrate irq_mask
       = Some (write_CTRL (write_CTRL U 0) tmp)).
Proof.
  intros Hok Hsim Hclock Hbaud sim.
  destruct (setup_other_bits clock U baudrate irq_mask Hok Hclock Hbaud)
    as (p & bd & tmp & Hsearch & Htmp & Hsetup & Hbits).
  set (m := uint32_t (Z.shiftl 1 UART_CTRL_SIM_MODE)).
  assert (neorv32_uart_setup_sim UART0_SIM_MODE UART1_SIM_MODE UARTx_addr
            clock U baudrate irq_mask
          = Some (write_CTRL (write_CTRL U 0)
                    (if sim then Z.lor tmp m else tmp))) as Heq.
  { unfold neorv32_uart_setup_sim.
    rewrite udiv32_nonzero, bind_Some, Hsearch, bind_Some, Htmp, bind_Some
      by done.
    rewrite shl32_in_range by done. fold m. rewrite !bind_Some.
    subst sim.
    destruct UART0_SIM_MODE, (UARTx_addr =? NEORV32_UART0_BASE),
      UART1_SIM_MODE, (UARTx_addr =? NEORV32_UART1_BASE);
      rewrite ?bind_Some; cbn [andb orb];
      rewrite <- ?Z.lor_assoc, ?Z.lor_diag; reflexivity. }
  exists (if sim then Z.lor tmp m else tmp). split; [exact Heq |].
  split_and!.
  - intros i Hi Hnen Hnprsc Hnbaud Hnirq.
    destruct sim; cbn [andb]; [| by apply Hbits].
    rewrite Z.lor_spec, Hbits by done. unfold m.
    by rewrite testbit_shl32_one.
  - intros ->. rewrite Z.lor_spec. unfold m.
    rewrite testbit_shl32_one, Z.eqb_refl by lia. apply orb_true_r.
  - intros ->. exact Hsetup.
Qed.

Lemma setup_clears_other_bits_witness :
  ∃ tmp,
    @neorv32_uart_setup_sim neorv32_ctrl_bits neorv32_sim_bits true false
      0xffffff50 100000000 (Uart [] [] []) 19200 0xffffffff
    = Some (write_CTRL (write_CTRL (Uart [] [] []) 0) tmp)
    ∧ (∀ i, 0 <= i →
         i ≠ @UART_CTRL_EN neorv32_ctrl_bits →
         ¬ (@UART_CTRL_PRSC0 neorv32_ctrl_bits <= i
            < @UART_CTRL_PRSC0 neorv32_ctrl_bits + 2) →
         ¬ (@UART_CTRL_BAUD0 neorv32_ctrl_bits <= i
            < @UART_CTRL_BAUD0 neorv32_ctrl_bits + 10) →
         ¬ (@UART_CTRL_IRQ_RX_NEMPTY neorv32_ctrl_bits <= i
            < @UART_CTRL_IRQ_RX_NEMPTY neorv32_ctrl_bits + 5) →
         Z.testbit tmp i
         = true && (i =? @UART_CTRL_SIM_MODE neorv32_sim_bits))
    ∧ (true = true →
       Z.testbit tmp (@UART_CTRL_SIM_MODE neorv32_sim_bits) = true)
    ∧ (true = false →
       @neorv32_uart_setup neorv32_ctrl_bits 100000000 (Uart [] [] []) 19200
         0xffffffff
       = Some (write_CTRL (write_CTRL (Uart [] [] []) 0) tmp)).
Proof.
  apply (@setup_clears_other_bits neorv32_ctrl_bits neorv32_sim_bits
           true false 0xffffff50 100000000 (Uart [] [] []) 19200 0xffffffff).
  - unfold ctrl_bits_ok. simpl. lia.
  - simpl. lia.
  - lia.
  - vm_compute. discriminate.
Defined.

(** X24: the prescaler field of the written value holds the prescaler
    select of the search modulo 4.  For a raw divisor below 1023 * 32 the
    search stops at 3 or below and the field holds the prescaler select
    itself. *)
Theorem setup_prescaler_field `{UartCtrlBits} (clock : Z)
    (U : neorv32_uart_t) (baudrate irq_mask : Z) :
  ctrl_bits_ok → 0 <= clock < 2^32 → uint32_t (2 * baudrate) ≠ 0 →
  ∃ prsc_sel baud_div tmp,
    baud_search 32 0 (clock / uint32_t (2 * baudrate))
    = Some (prsc_sel, baud_div)
    ∧ neorv32_uart_setup clock U baudrate irq_mask
      = Some (write_CTRL (write_CTRL U 0) tmp)
    ∧ field tmp UART_CTRL_PRSC0 3 = prsc_sel mod 4
    ∧ (clock / uint32_t (2 * baudrate) < 0x3ff * 2^5 →
       0 <= prsc_sel <= 3 ∧ field tmp UART_CTRL_PRSC0 3 = prsc_sel).
Proof.
  intros Hok Hclock Hbaud.
  destruct (setup_eq Hok clock U baudrate irq_mask Hclock Hbaud)
    as (p & bd & tmp & Hsearch & Htmp & Hsetup).
  destruct (setup_ctrl_fields Hok p bd irq_mask)
    as (tmp' & Htmp' & _ & Hfprsc & _).
  assert (tmp' = tmp) as -> by congruence.
  exists p, bd, tmp. split; [done |]. split; [done |].
  assert (field tmp UART_CTRL_PRSC0 3 = p mod 4) as Hfield.
  { rewrite Hfprsc. change 3 with (Z.ones 2). by rewrite Z.land_ones by lia. }
  split; [done |]. intros Hsmall.
  set (raw := clock / uint32_t (2 * baudrate)) in *.
  assert (0 < uint32_t (2 * baudrate)) as Hpos.
  { unfold uint32_t in *. pose proof (Z.mod_pos_bound (2 * baudrate) (2^32)).
    lia. }
  assert (0 <= raw) as Hraw by (apply Z.div_pos; lia).
  destruct (baud_search_spec 32 0 raw)
    as (p' & bd' & Hsearch' & Hp & _ & _ & _ & Hmin);
    [lia | simpl; lia | change (2 ^ Z.of_nat 32) with (2^32); lia |].
  rewrite Hsearch in Hsearch'. injection Hsearch' as <- <-.
  assert (p <= 3) as Hp3.
  { destruct (Z.le_gt_cases p 3) as [| Hgt]; [done |].
    specialize (Hmin 3 ltac:(lia)). rewrite Z.sub_0_r in Hmin.
    change (prsc_shift 3) with 5 in Hmin.
    rewrite Z.shiftr_div_pow2 in Hmin by lia.
    assert (raw / 2^5 < 0x3ff) by (apply Z.div_lt_upper_bound; lia). lia. }
  split; [lia |]. rewrite Hfield. apply Z.mod_small. lia.
Qed.

Lemma setup_prescaler_field_witness :
  ∃ prsc_sel baud_div tmp,
    baud_search 32 0 (100000000 / uint32_t (2 * 19200))
    = Some (prsc_sel, baud_div)
    ∧ @neorv32_uart_setup neorv32_ctrl_bits 100000000 (Uart [] [] []) 19200 0
      = Some (write_CTRL (write_CTRL (Uart [] [] []) 0) tmp)
    ∧ field tmp (@UART_CTRL_PRSC0 neorv32_ctrl_bits) 3 = prsc_sel mod 4
    ∧ (100000000 / uint32_t (2 * 19200) < 0x3ff * 2^5 →
       0 <= prsc_sel <= 3
       ∧ field tmp (@UART_CTRL_PRSC0 neorv32_ctrl_bits) 3 = prsc_sel).
Proof.
  apply (@setup_prescaler_field neorv32_ctrl_bits 100000000 (Uart [] [] [])
           19200 0).
  - unfold ctrl_bits_ok. simpl. lia.
  - lia.
  - vm_compute. discriminate.
Defined.

(* ===================================================================== *)
(** * Single control bits and the FIFO depth *)
(* ===================================================================== *)

Lemma shl_int_one (n : Z) : 0 <= n <= 30 → shl_int 1 n = Some (2 ^ n).
Proof.
  intros Hn. unfold shl_int. rewrite Z.shiftl_1_l.
  destruct (Z.leb_spec 0 n); [| lia]. destruct (Z.ltb_spec n 32); [| lia].
  assert (2 ^ n < 2 ^ 31) by (apply Z.pow_lt_mono_r; lia).
  destruct (Z.ltb_spec (2 ^ n) (2 ^ 31)); [done | lia].
Qed.

Lemma uint32_pow2 (n : Z) : 0 <= n <= 30 → uint32_t (2 ^ n) = 2 ^ n.
Proof.
  intros Hn. apply uint32_small.
  assert (2 ^ n < 2 ^ 32) by (apply Z.pow_lt_mono_r; lia).
  assert (0 < 2 ^ n) by (apply Z.pow_pos_nonneg; lia). lia.
Qed.

Lemma testbit_uint32_high (v i : Z) :
  0 <= v < 2^32 → 32 <= i → Z.testbit v i = false.
Proof.
  intros Hv Hi. rewrite <- (Z.mod_small v (2^32)) by done.
  apply Z.mod_pow2_bits_high. lia.
Qed.

(** ORing in the mask of bit [b] sets that bit and keeps the others. *)
Lemma testbit_set_bit (ctrl b i : Z) :
  0 <= b → 0 <= i →
  Z.testbit (Z.lor ctrl (2 ^ b)) i = Z.testbit ctrl i || (i =? b).
Proof.
  intros Hb Hi. rewrite Z.lor_spec, Z.pow2_bits_eqb by done.
  by rewrite (Z.eqb_sym b i).
Qed.

(** ANDing with the complement of the mask of bit [b] clears that bit,
    keeps the other bits below bit 32 and leaves nothing above. *)
Lemma testbit_clear_bit (ctrl b i : Z) :
  0 <= b < 32 → 0 <= i →
  Z.testbit (Z.land ctrl (not32 (2 ^ b))) i
  = Z.testbit ctrl i && negb (i =? b) && (i <? 32).
Proof.
  intros Hb Hi. unfold not32.
  rewrite Z.land_spec, Z.lxor_spec, Z.pow2_bits_eqb by lia.
  change 0xffffffff with (Z.ones 32). rewrite testbit_ones by lia.
  rewrite (Z.eqb_sym b i).
  destruct (Z.ltb_spec i 32), (Z.eqb_spec i b), (Z.testbit ctrl i);
    simpl; done || lia.
Qed.

Lemma set_clear_bit (ctrl b : Z) :
  0 <= ctrl < 2^32 → 0 <= b < 32 →
  Z.land (Z.lor ctrl (2 ^ b)) (not32 (2 ^ b)) = Z.land ctrl (not32 (2 ^ b))
  ∧ Z.lor (Z.land ctrl (not32 (2 ^ b))) (2 ^ b) = Z.lor ctrl (2 ^ b).
Proof.
  intros Hctrl Hb. split; apply Z.bits_inj'; intros i Hi.
  - rewrite !testbit_clear_bit, testbit_set_bit by (done || lia).
    by destruct (Z.testbit ctrl i), (i =? b), (i <? 32).
  - rewrite !testbit_set_bit, testbit_clear_bit by (done || lia).
    destruct (Z.ltb_spec i 32).
    + by destruct (Z.testbit ctrl i), (i =? b).
    + rewrite (testbit_uint32_high ctrl i) by done. by destruct (i =? b).
Qed.

Lemma field_away_from_bit (v v' b lo w : Z) :
  0 <= lo → 0 <= w → lo + w <= 32 → b < lo ∨ lo + w <= b →
  (∀ i, 0 <= i < 32 → i ≠ b → Z.testbit v' i = Z.testbit v i) →
  field v' lo w = field v lo w.
Proof.
  intros Hlo Hw Hfit Hb Hsame. apply Z.bits_inj'. intros i Hi.
  rewrite !testbit_field by lia.
  destruct (Z.ltb_spec i w); [| by rewrite !andb_false_r].
  rewrite Hsame by lia. done.
Qed.

Section bit_toggles.

Context `{UartCtrlBits} `{UartMoreBits}.

(** X25: enabling and disabling the UART change the enable bit of the value
    read from the control register and nothing else: every other bit, and so
    every field that does not hold the enable bit (prescaler, baud divisor,
    interrupt enables), is written back as read.  Disabling what enabling
    wrote gives what disabling writes, and the other way round. *)
Theorem enable_disable_only_EN (ctrl : Z) (U : neorv32_uart_t) :
  0 <= UART_CTRL_EN <= 30 → 0 <= ctrl < 2^32 →
  ∃ v_on v_off,
    neorv32_uart_enable ctrl U = Some (write_CTRL U v_on)
    ∧ neorv32_uart_disable ctrl U = Some (write_CTRL U v_off)
    ∧ Z.testbit v_on UART_CTRL_EN = true
    ∧ Z.testbit v_off UART_CTRL_EN = false
    ∧ (∀ i, 0 <= i → i ≠ UART_CTRL_EN →
         Z.testbit v_on i = Z.testbit ctrl i
         ∧ Z.testbit v_off i = Z.testbit ctrl i)
    ∧ (∀ lo w, 0 <= lo → 0 <= w → lo + w <= 32 →
         UART_CTRL_EN < lo ∨ lo + w <= UART_CTRL_EN →
         field v_on lo w = field ctrl lo w
         ∧ field v_off lo w = field ctrl lo w)
    ∧ neorv32_uart_disable v_on U = Some (write_CTRL U v_off)
    ∧ neorv32_uart_enable v_off U = Some (write_CTRL U v_on).
Proof.
  intros Hen Hctrl.
  unfold neorv32_uart_enable, neorv32_uart_disable.
  rewrite shl_int_one, !bind_Some, uint32_pow2 by lia.
  destruct (set_clear_bit ctrl UART_CTRL_EN) as [Hoff Hon]; [done | lia |].
  eexists _, _. split; [done |]. split; [done |].
  assert (∀ i, 0 <= i → i ≠ UART_CTRL_EN →
            Z.testbit (Z.lor ctrl (2 ^ UART_CTRL_EN)) i = Z.testbit ctrl i
            ∧ Z.testbit (Z.land ctrl (not32 (2 ^ UART_CTRL_EN))) i
              = Z.testbit ctrl i) as Hother.
  { intros i Hi Hne.
    rewrite testbit_set_bit, testbit_clear_bit by lia.
    destruct (Z.eqb_spec i UART_CTRL_EN); [done |].
    destruct (Z.ltb_spec i 32).
    - by rewrite orb_false_r, !andb_true_r.
    - rewrite (testbit_uint32_high ctrl i) by done. done. }
  split_and!.
  - rewrite testbit_set_bit, Z.eqb_refl by lia. apply orb_true_r.
  - rewrite testbit_clear_bit, Z.eqb_refl by lia.
    by rewrite andb_false_r.
  - done.
  - intros lo w Hlo Hw Hfit Haway.
    split; apply (field_away_from_bit _ _ UART_CTRL_EN); try done;
      intros i Hi Hne; apply Hother; lia.
  - rewrite bind_Some, uint32_pow2 by lia. by rewrite Hoff.
  - rewrite bind_Some, uint32_pow2 by lia. by rewrite Hon.
Qed.


(** X27: both FIFO depth queries return, for every value of the data
    register (the size fields at shift distances a 32-bit shift allows),
    two to the power of the four-bit size field: a power of two between 1
    and 32768, and the shift that computes it never overflows. *)
Theorem fifo_depth_power_of_two (data : Z) :
  0 <= UART_DATA_RX_FIFO_SIZE_LSB < 32 → 0 <= UART_DATA_TX_FIFO_SIZE_LSB < 32 →
  neorv32_uart_get_rx_fifo_depth data
  = Some (2 ^ field data UART_DATA_RX_FIFO_SIZE_LSB 4)
  ∧ neorv32_uart_get_tx_fifo_depth data
    = Some (2 ^ field data UART_DATA_TX_FIFO_SIZE_LSB 4)
  ∧ 0 <= field data UART_DATA_RX_FIFO_SIZE_LSB 4 <= 15
  ∧ 0 <= field data UART_DATA_TX_FIFO_SIZE_LSB 4 <= 15
  ∧ 1 <= 2 ^ field data UART_DATA_RX_FIFO_SIZE_LSB 4 <= 32768
  ∧ 1 <= 2 ^ field data UART_DATA_TX_FIFO_SIZE_LSB 4 <= 32768.
Proof.
  intros Hrx Htx.
  assert (∀ lsb, 0 <= field data lsb 4 <= 15
                 ∧ 1 <= 2 ^ field data lsb 4 <= 32768) as Hfield.
  { intros lsb. unfold field. change (Z.ones 4) with 0x0f.
    pose proof (land_15_bound (Z.shiftr data lsb)) as Hk.
    split; [lia |].
    assert (2 ^ 0 <= 2 ^ Z.land (Z.shiftr data lsb) 15 <= 2 ^ 15) as Hpow
      by (split; apply Z.pow_le_mono_r; lia).
    revert Hpow. change (2 ^ 0) with 1. change (2 ^ 15) with 32768. done. }
  unfold neorv32_uart_get_rx_fifo_depth, neorv32_uart_get_tx_fifo_depth.
  change 0x0f with (Z.ones 4).
  fold (field data UART_DATA_RX_FIFO_SIZE_LSB 4).
  fold (field data UART_DATA_TX_FIFO_SIZE_LSB 4).
  pose proof (Hfield UART_DATA_RX_FIFO_SIZE_LSB) as [? ?].
  pose proof (Hfield UART_DATA_TX_FIFO_SIZE_LSB) as [? ?].
  rewrite !shl_int_one by lia. done.
Qed.

End bit_toggles.

Lemma enable_disable_only_EN_witness :
  ∃ v_on v_off,
    @neorv32_uart_enable neorv32_ctrl_bits 0x00c00648 (Uart [] [] [])
    = Some (write_CTRL (Uart [] [] []) v_on)
    ∧ @neorv32_uart_disable neorv32_ctrl_bits 0x00c00648 (Uart [] [] [])
      = Some (write_CTRL (Uart [] [] []) v_off)
    ∧ Z.testbit v_on (@UART_CTRL_EN neorv32_ctrl_bits) = true
    ∧ Z.testbit v_off (@UART_CTRL_EN neorv32_ctrl_bits) = false
    ∧ (∀ i, 0 <= i → i ≠ @UART_CTRL_EN neorv32_ctrl_bits →
         Z.testbit v_on i = Z.testbit 0x00c00648 i
         ∧ Z.testbit v_off i = Z.testbit 0x00c00648 i)
    ∧ (∀ lo w, 0 <= lo → 0 <= w → lo + w <= 32 →
         @UART_CTRL_EN neorv32_ctrl_bits < lo
         ∨ lo + w <= @UART_CTRL_EN neorv32_ctrl_bits →
         field v_on lo w = field 0x00c00648 lo w
         ∧ field v_off lo w = field 0x00c00648 lo w)
    ∧ @neorv32_uart_disable neorv32_ctrl_bits v_on (Uart [] [] [])
      = Some (write_CTRL (Uart [] [] []) v_off)
    ∧ @neorv32_uart_enable neorv32_ctrl_bits v_off (Uart [] [] [])
      = Some (write_CTRL (Uart [] [] []) v_on).
Proof.
  apply (@enable_disable_only_EN neorv32_ctrl_bits 0x00c00648 (Uart [] [] [])).
  - simpl. lia.
  - lia.
Defined.


Lemma fifo_depth_power_of_two_witness :
  @neorv32_uart_get_rx_fifo_depth neorv32_more_bits 0x4341
  = Some (2 ^ field 0x4341 (@UART_DATA_RX_FIFO_SIZE_LSB neorv32_more_bits) 4)
  ∧ @neorv32_uart_get_tx_fifo_depth neorv32_more_bits 0x4341
    = Some (2 ^ field 0x4341 (@UART_DATA_TX_FIFO_SIZE_LSB neorv32_more_bits) 4)
  ∧ 0 <= field 0x4341 (@UART_DATA_RX_FIFO_SIZE_LSB neorv32_more_bits) 4 <= 15
  ∧ 0 <= field 0x4341 (@UART_DATA_TX_FIFO_SIZE_LSB neorv32_more_bits) 4 <= 15
  ∧ 1 <= 2 ^ field 0x4341 (@UART_DATA_RX_FIFO_SIZE_LSB neorv32_more_bits) 4
    <= 32768
  ∧ 1 <= 2 ^ field 0x4341 (@UART_DATA_TX_FIFO_SIZE_LSB neorv32_more_bits) 4
    <= 32768.
Proof.
  apply (@fifo_depth_power_of_two neorv32_more_bits 0x4341).
  - simpl. lia.
  - simpl. lia.
Defined.
